(** * CYD-Hurricane-Tracker: a shallow embedding of the acquisition pipeline

    The development follows the C sources of the tracker:

    - [main/http_client.c]: the two HTTP event handlers that accumulate a
      response body, the download entry points built on them, and the
      table of image URLs rebuilt from the feed;
    - [main/main.c]: the image slots, the decoder of the 12-byte image
      container, the carousel cursor and the display task that moves it,
      the backlight timer with the touch and motion callbacks, the update
      schedule and the decoding loop of the refresh task;
    - [main/xml_parse.c]: the expat callbacks that collect cone image URLs;
    - [main/time_sync.c]: the handler of the time request, the retry loop
      around it and the wait for SNTP.

    The embedding of the sources comes first, then the predicates and the
    example data the statements are written with, then the proofs.

    Conventions.  C [int] and [size_t] are 32 bits wide on the target (ESP32-S3)
    and are modelled as [Z], with the wrap-around of [size_t] arithmetic written
    out.  A heap block is the list of its bytes; a pointer into a block is an
    offset; [NULL] is [None].  An access outside a block is undefined behaviour
    in C and is a [Fault] here.  Library code that is not part of the repository
    (libc, esp_http_client, expat, cJSON, FreeRTOS, LVGL) is modelled by what the
    repository's code observes of it: one run of the HTTP client is the
    list of events it dispatches with the result and status it reports, one
    run of expat is the list of callbacks it makes with the status it
    returns, each take of the backlight mutex succeeds or times out after
    the 10 ms the code waits, and each request the parser makes to the
    allocator is served or refused. *)

From Stdlib Require Import ZArith Lia Bool Ascii Strings.Byte DecimalString.
From stdpp Require Import base list option strings.

Local Open Scope Z_scope.

(** ** Machine arithmetic *)

Definition SIZE_MAX_PLUS_1 : Z := 2 ^ 32.
Definition INT_MAX : Z := 2 ^ 31 - 1.
Definition INT_MIN : Z := - 2 ^ 31.

(** Conversion to [size_t], and the result of unsigned arithmetic. *)
Definition to_size_t (z : Z) : Z := z mod SIZE_MAX_PLUS_1.

(** ** Outcomes of code that touches memory *)

Inductive fault : Type :=
  | OutOfBoundsWrite
  | OutOfBoundsRead
  | NullDereference.

Inductive outcome (A : Type) : Type :=
  | Ret (a : A)
  | Fault (f : fault).

Arguments Ret {A} a.
Arguments Fault {A} f.

Definition obind {A B} (m : outcome A) (k : A -> outcome B) : outcome B :=
  match m with
  | Ret a => k a
  | Fault f => Fault f
  end.

Notation "x <-- m ;; k" := (obind m (fun x => k))
  (at level 100, m at next level, right associativity).

(** A pointer compared with [NULL]. *)
Definition is_null {A : Type} (p : option A) : bool :=
  match p with
  | None => true
  | Some _ => false
  end.

(** ** Heap blocks *)

Definition block : Type := list byte.

(** [memcpy (blk + off, src, length src)]. *)
Definition memcpy (blk : block) (off : Z) (src : list byte) : outcome block :=
  if (0 <=? off) && (off + Z.of_nat (length src) <=? Z.of_nat (length blk)) then
    Ret (take (Z.to_nat off) blk ++ src
           ++ drop (Z.to_nat off + length src)%nat blk)
  else Fault OutOfBoundsWrite.

(** [blk[off] = b]. *)
Definition store8 (blk : block) (off : Z) (b : byte) : outcome block :=
  if (0 <=? off) && (off <? Z.of_nat (length blk)) then
    Ret (<[Z.to_nat off := b]> blk)
  else Fault OutOfBoundsWrite.

(** A byte as an unsigned 8-bit value. *)
Definition byte_value (b : byte) : Z := Z.of_N (Byte.to_N b).

(** The 16-bit value whose low byte is [lo] and whose high byte is [hi]. *)
Definition le16 (lo hi : Z) : Z := Z.lor lo (Z.shiftl hi 8).

(** [(uint8_t) blk[off]]. *)
Definition load8 (blk : block) (off : Z) : outcome Z :=
  if 0 <=? off then
    match blk !! Z.to_nat off with
    | Some b => Ret (byte_value b)
    | None => Fault OutOfBoundsRead
    end
  else Fault OutOfBoundsRead.

(** [*(uint16_t * )(blk + off)] on the little-endian target. *)
Definition load16 (blk : block) (off : Z) : outcome Z :=
  lo <-- load8 blk off ;;
  hi <-- load8 blk (off + 1) ;;
  Ret (le16 lo hi).

(** The allocator: [malloc n] is [NULL] or a block of exactly [n] bytes whose
    contents are not specified. *)
Record allocator : Type := {
  malloc : Z -> option block;
  malloc_length : forall n blk, malloc n = Some blk -> length blk = Z.to_nat n
}.

(** ** libc *)

Module Libc.

Definition is_upper (c : ascii) : bool :=
  let n := nat_of_ascii c in (65 <=? n)%nat && (n <=? 90)%nat.

Definition tolower (c : ascii) : ascii :=
  if is_upper c then ascii_of_nat (nat_of_ascii c + 32) else c.

(** [strcasecmp]: the difference of the first pair of lowered characters
    that differ, 0 when there is none. *)
Fixpoint strcasecmp (a b : string) : Z :=
  match a, b with
  | EmptyString, EmptyString => 0
  | EmptyString, String y _ => - Z.of_nat (nat_of_ascii (tolower y))
  | String x _, EmptyString => Z.of_nat (nat_of_ascii (tolower x))
  | String x a', String y b' =>
      if Ascii.eqb (tolower x) (tolower y) then strcasecmp a' b'
      else Z.of_nat (nat_of_ascii (tolower x))
           - Z.of_nat (nat_of_ascii (tolower y))
  end.

Definition isspace (c : ascii) : bool :=
  let n := nat_of_ascii c in (n =? 32)%nat || ((9 <=? n)%nat && (n <=? 13)%nat).

Definition digit_of (c : ascii) : option Z :=
  let n := nat_of_ascii c in
  if (48 <=? n)%nat && (n <=? 57)%nat then Some (Z.of_nat n - 48) else None.

Fixpoint skip_spaces (s : string) : string :=
  match s with
  | String c s' => if isspace c then skip_spaces s' else s
  | EmptyString => s
  end.

Fixpoint digits (acc : Z) (s : string) : Z :=
  match s with
  | String c s' =>
      match digit_of c with
      | Some d => digits (10 * acc + d) s'
      | None => acc
      end
  | EmptyString => acc
  end.

Definition clamp_int (z : Z) : Z := Z.max INT_MIN (Z.min INT_MAX z).

(** [atoi] is [(int) strtol (s, NULL, 10)]: blanks, an optional sign, the
    digits, and the value clamped to the range of a 32-bit [long]. *)
Definition atoi (s : string) : Z :=
  match skip_spaces s with
  | String "-" s' => clamp_int (- digits 0 s')
  | String "+" s' => clamp_int (digits 0 s')
  | s' => clamp_int (digits 0 s')
  end.

(** [strstr h n]: the suffix of [h] that starts at the first occurrence of
    [n] (the pointer returned by C), [None] for [NULL]. *)
Fixpoint strstr (h n : string) : option string :=
  if String.prefix n h then Some h
  else match h with
       | EmptyString => None
       | String _ h' => strstr h' n
       end.

(** [strchr s c]: the suffix of [s] that starts at the first [c]. *)
Fixpoint strchr (s : string) (c : ascii) : option string :=
  match s with
  | EmptyString => None
  | String x s' => if Ascii.eqb x c then Some s else strchr s' c
  end.

(** [p + n] for a pointer [p] into a string. *)
Fixpoint advance (n : nat) (p : string) : string :=
  match n, p with
  | S n', String _ p' => advance n' p'
  | _, _ => p
  end.

(** The string read at [p] once a NUL has been stored at [q], for [q] a
    pointer into the string at [p]. *)
Definition terminated_at (p q : string) : string :=
  String.substring 0 (String.length p - String.length q) p.

End Libc.

(** ** ESP-IDF error codes ([esp_err.h]) *)

Definition esp_err_t : Type := Z.
Definition ESP_OK : esp_err_t := 0.
Definition ESP_FAIL : esp_err_t := -1.
Definition ESP_ERR_NO_MEM : esp_err_t := 257.
Definition ESP_ERR_INVALID_ARG : esp_err_t := 258.

(** ** [app_config.h] *)

Definition MAX_IMAGES : Z := 10.
Definition STATIC_IMAGE_URL_0 : string :=
  "https://www.nhc.noaa.gov/xgtwo/two_atl_7d0.png".
Definition STATIC_IMAGE_URL_1 : string :=
  "https://www.nhc.noaa.gov/xgtwo/two_atl_2d0.png".

(** The build configuration: which [CONFIG_*] symbols sdkconfig defines, the
    address of the conversion service, and the level that lights the panel
    (board support package). *)
Record build_config : Type := {
  CONFIG_ENABLE_TOUCHSCREEN : bool;
  CONFIG_ENABLE_PIR_BACKLIGHT_TIMER : bool;
  CONFIG_CONVERSION_API_URL : string;
  BSP_LCD_BK_LIGHT_ON_LEVEL : Z
}.

Definition ENABLE_TOUCHSCREEN (cfg : build_config) : bool :=
  CONFIG_ENABLE_TOUCHSCREEN cfg.

Definition ENABLE_PIR_BACKLIGHT_TIMER (cfg : build_config) : bool :=
  negb (ENABLE_TOUCHSCREEN cfg) && CONFIG_ENABLE_PIR_BACKLIGHT_TIMER cfg.

(** ** LVGL image descriptors ([lv_image_dsc_t], LVGL 9) *)

Module Lvgl.

Inductive lv_color_format_t : Type :=
  | LV_COLOR_FORMAT_UNKNOWN
  | LV_COLOR_FORMAT_L8
  | LV_COLOR_FORMAT_RGB888
  | LV_COLOR_FORMAT_ARGB8888
  | LV_COLOR_FORMAT_XRGB8888
  | LV_COLOR_FORMAT_RGB565
  | LV_COLOR_FORMAT_ARGB8565
  | LV_COLOR_FORMAT_RGB565A8.

(** The header's bit-fields; [w] and [h] are 16 bits wide. *)
Record lv_image_header_t : Type := {
  magic : Z;
  cf : lv_color_format_t;
  flags : Z;
  w : Z;
  h : Z;
  stride : Z
}.

(** [data] points into the buffer of the slot that owns the descriptor and is
    kept as the offset from the start of that buffer. *)
Record lv_img_dsc_t : Type := {
  header : lv_image_header_t;
  data_size : Z;
  data : option Z
}.

(** The descriptor after [memset (&dsc, 0, sizeof dsc)]. *)
Definition zero_dsc : lv_img_dsc_t :=
  {| header := {| magic := 0; cf := LV_COLOR_FORMAT_UNKNOWN; flags := 0;
                  w := 0; h := 0; stride := 0 |};
     data_size := 0;
     data := None |}.

Definition set_w_h (d : lv_img_dsc_t) (width height : Z) : lv_img_dsc_t :=
  {| header := {| magic := magic (header d); cf := cf (header d);
                  flags := flags (header d);
                  w := width; h := height; stride := stride (header d) |};
     data_size := data_size d;
     data := data d |}.

Definition set_cf (d : lv_img_dsc_t) (f : lv_color_format_t) : lv_img_dsc_t :=
  {| header := {| magic := magic (header d); cf := f;
                  flags := flags (header d);
                  w := w (header d); h := h (header d);
                  stride := stride (header d) |};
     data_size := data_size d;
     data := data d |}.

Definition set_data (d : lv_img_dsc_t) (p : option Z) : lv_img_dsc_t :=
  {| header := header d; data_size := data_size d; data := p |}.

Definition set_data_size (d : lv_img_dsc_t) (n : Z) : lv_img_dsc_t :=
  {| header := header d; data_size := n; data := data d |}.

End Lvgl.

(** ** [main/main.c] *)

Module Main.

Import Lvgl.

(** *** Image slots *)

Record image_data_t : Type := {
  buffer : option block;
  buffer_size : Z;
  buffer_allocated : Z;
  img_dsc : lv_img_dsc_t;
  is_valid : bool;
  download_timestamp : Z
}.

(** The globals of [main.c] that the download and display code share. *)
Record globals : Type := {
  s_images : list image_data_t;
  s_current_image_index : Z;
  active_image_count : Z;
  image_urls : list (option string)
}.

Definition set_s_images (g : globals) (l : list image_data_t) : globals :=
  {| s_images := l;
     s_current_image_index := s_current_image_index g;
     active_image_count := active_image_count g;
     image_urls := image_urls g |}.

Definition set_s_current_image_index (g : globals) (i : Z) : globals :=
  {| s_images := s_images g;
     s_current_image_index := i;
     active_image_count := active_image_count g;
     image_urls := image_urls g |}.

(** [s_images[i]] read. *)
Definition slot_at (i : Z) (g : globals) : outcome image_data_t :=
  if 0 <=? i then
    match s_images g !! Z.to_nat i with
    | Some s => Ret s
    | None => Fault OutOfBoundsRead
    end
  else Fault OutOfBoundsRead.

(** [s_images[i] = s], for an index that [slot_at] accepted. *)
Definition put_slot (i : Z) (s : image_data_t) (g : globals) : globals :=
  set_s_images g (<[Z.to_nat i := s]> (s_images g)).

Definition set_is_valid (s : image_data_t) (v : bool) : image_data_t :=
  {| buffer := buffer s; buffer_size := buffer_size s;
     buffer_allocated := buffer_allocated s; img_dsc := img_dsc s;
     is_valid := v; download_timestamp := download_timestamp s |}.

Definition set_img_dsc (s : image_data_t) (d : lv_img_dsc_t) : image_data_t :=
  {| buffer := buffer s; buffer_size := buffer_size s;
     buffer_allocated := buffer_allocated s; img_dsc := d;
     is_valid := is_valid s; download_timestamp := download_timestamp s |}.

Definition set_download_timestamp (s : image_data_t) (t : Z) : image_data_t :=
  {| buffer := buffer s; buffer_size := buffer_size s;
     buffer_allocated := buffer_allocated s; img_dsc := img_dsc s;
     is_valid := is_valid s; download_timestamp := t |}.

Definition index_in_range (image_index : Z) : bool :=
  (0 <=? image_index) && (image_index <? MAX_IMAGES).

(** [get_image_buffer_info]: the three values written through the out
    parameters, or [ESP_ERR_INVALID_ARG] with nothing written. *)
Definition get_image_buffer_info (image_index : Z) (g : globals)
  : outcome (esp_err_t * option (option block * Z * Z)) :=
  if negb (index_in_range image_index) then Ret (ESP_ERR_INVALID_ARG, None)
  else
    s <-- slot_at image_index g ;;
    Ret (ESP_OK, Some (buffer s, buffer_size s, buffer_allocated s)).

Definition set_image_buffer_info (image_index : Z) (buf : option block)
    (size allocated : Z) (valid : bool) (g : globals) : outcome globals :=
  if index_in_range image_index then
    s <-- slot_at image_index g ;;
    Ret (put_slot image_index
           {| buffer := buf; buffer_size := size;
              buffer_allocated := allocated; img_dsc := img_dsc s;
              is_valid := valid;
              download_timestamp := download_timestamp s |} g)
  else Ret g.

(** [reset_image_buffer]: the block is freed and the slot cleared. *)
Definition reset_image_buffer (image_index : Z) (g : globals)
  : outcome globals :=
  if index_in_range image_index then
    s <-- slot_at image_index g ;;
    Ret (put_slot image_index
           {| buffer := None; buffer_size := 0; buffer_allocated := 0;
              img_dsc := img_dsc s; is_valid := false;
              download_timestamp := 0 |} g)
  else Ret g.

(** *** The image decoder *)

(** The first [switch] of [process_downloaded_image]: the container's colour
    code to the LVGL format. *)
Definition color_format_of_code (color_format : Z) : lv_color_format_t :=
  if color_format =? 18 then LV_COLOR_FORMAT_RGB565          (* 0x12 *)
  else if color_format =? 15 then LV_COLOR_FORMAT_RGB888     (* 0x0F *)
  else if color_format =? 16 then LV_COLOR_FORMAT_ARGB8888   (* 0x10 *)
  else if color_format =? 20 then LV_COLOR_FORMAT_RGB565A8   (* 0x14 *)
  else if color_format =? 19 then LV_COLOR_FORMAT_ARGB8565   (* 0x13 *)
  else if color_format =? 17 then LV_COLOR_FORMAT_XRGB8888   (* 0x11 *)
  else if color_format =? 6 then LV_COLOR_FORMAT_L8          (* 0x06 *)
  else LV_COLOR_FORMAT_RGB565.

(** The second [switch]: bytes per pixel of a format. *)
Definition bytes_per_pixel (f : lv_color_format_t) : Z :=
  match f with
  | LV_COLOR_FORMAT_RGB565 => 2
  | LV_COLOR_FORMAT_RGB888 => 3
  | LV_COLOR_FORMAT_ARGB8888 | LV_COLOR_FORMAT_XRGB8888 => 4
  | LV_COLOR_FORMAT_RGB565A8 => 3
  | LV_COLOR_FORMAT_ARGB8565 => 3
  | LV_COLOR_FORMAT_L8 => 1
  | _ => 2
  end.

(** [process_downloaded_image (image_index)]; [now] is what [time ()]
    returns. *)
Definition process_downloaded_image (now : Z) (image_index : Z) (g : globals)
  : outcome (esp_err_t * globals) :=
  if (image_index <? 0) || (MAX_IMAGES <=? image_index) then Ret (ESP_FAIL, g)
  else
    img_data <-- slot_at image_index g ;;
    match buffer img_data with
    | Some blk =>
        if 0 <? buffer_size img_data then
          if buffer_size img_data <? 8 then Ret (ESP_FAIL, g)
          else if buffer_size img_data <? 12 then Ret (ESP_FAIL, g)
          else
            magic <-- load8 blk 0 ;;
            color_format <-- load8 blk 1 ;;
            flags <-- load16 blk 2 ;;
            width <-- load16 blk 4 ;;
            height <-- load16 blk 6 ;;
            stride <-- load16 blk 8 ;;
            reserved <-- load16 blk 10 ;;
            let img_data := set_img_dsc img_data
                              (set_w_h (img_dsc img_data) width height) in
            let dsc_w := w (header (img_dsc img_data)) in
            let dsc_h := h (header (img_dsc img_data)) in
            if (4096 <? dsc_w) || (4096 <? dsc_h)
               || (dsc_w =? 0) || (dsc_h =? 0)
            then Ret (ESP_FAIL,
                      put_slot image_index (set_is_valid img_data false) g)
            else
              let img_data :=
                set_img_dsc img_data
                  (set_cf (img_dsc img_data)
                     (color_format_of_code color_format)) in
              let img_data :=
                set_img_dsc img_data (set_data (img_dsc img_data) (Some 12)) in
              let bpp := bytes_per_pixel (cf (header (img_dsc img_data))) in
              let expected_size := to_size_t (dsc_w * dsc_h * bpp) in
              if buffer_size img_data <? to_size_t (expected_size + 12)
              then Ret (ESP_FAIL,
                        put_slot image_index (set_is_valid img_data false) g)
              else
                let img_data :=
                  set_img_dsc img_data
                    (set_data_size (img_dsc img_data) expected_size) in
                let img_data := set_is_valid img_data true in
                let img_data := set_download_timestamp img_data now in
                Ret (ESP_OK, put_slot image_index img_data g)
        else Ret (ESP_FAIL, g)
    | None => Ret (ESP_FAIL, g)
    end.

(** *** The carousel *)

(** What [get_next_valid_image] returns: [&s_images[i].img_dsc] or
    [&error_image]. *)
Inductive image_ref : Type :=
  | SlotImage (i : Z)
  | ErrorImage.

(** The [while] loop, by the number of attempts that remain.  [inspected]
    records, latest first, the indices whose [is_valid] the loop has read. *)
Fixpoint next_valid_loop (remaining : nat) (images_to_check : Z)
    (inspected : list Z) (g : globals)
  : outcome (image_ref * list Z * globals) :=
  match remaining with
  | O => Ret (ErrorImage, inspected, g)
  | S remaining' =>
      let i := s_current_image_index g in
      s <-- slot_at i g ;;
      if is_valid s then Ret (SlotImage i, i :: inspected, g)
      else
        next_valid_loop remaining' images_to_check (i :: inspected)
          (set_s_current_image_index g (Z.rem (i + 1) images_to_check))
  end.

Definition images_to_check (g : globals) : Z :=
  if 0 <? active_image_count g then active_image_count g else MAX_IMAGES.

Definition get_next_valid_image (g : globals)
  : outcome (image_ref * list Z * globals) :=
  next_valid_loop (Z.to_nat (images_to_check g)) (images_to_check g) [] g.

(** *** The backlight *)

(** [backlight_timer_active]: the one-shot timer is armed.
    [bk_light_level]: the level last driven on the backlight pin. *)
Record backlight_state : Type := {
  backlight_on : bool;
  bk_light_level : Z;
  backlight_timer_active : bool
}.

(** Every access to [backlight_on] sits behind
    [xSemaphoreTake (backlight_mutex, pdMS_TO_TICKS (10)) == pdTRUE].
    Whether a take succeeds depends on what the other tasks do during the
    10 ms, so each take has its own outcome, [taken], handed to the
    function that makes it. *)
Definition get_backlight_state (taken : bool) (b : backlight_state) : bool :=
  if taken then backlight_on b else false.

(** C's [!x]. *)
Definition lnot (x : Z) : Z := if x =? 0 then 1 else 0.

Definition set_backlight_state (cfg : build_config) (taken : bool)
    (state : bool) (b : backlight_state) : backlight_state :=
  if taken then
    {| backlight_on := state;
       bk_light_level := if state then BSP_LCD_BK_LIGHT_ON_LEVEL cfg
                         else lnot (BSP_LCD_BK_LIGHT_ON_LEVEL cfg);
       backlight_timer_active := backlight_timer_active b |}
  else b.

(** [xTimerReset (timer, 0)]: the timer is armed again. *)
Definition xTimerReset (b : backlight_state) : backlight_state :=
  {| backlight_on := backlight_on b;
     bk_light_level := bk_light_level b;
     backlight_timer_active := true |}.

(** The timer service marks a one-shot timer inactive, then calls back. *)
Definition timer_expired (b : backlight_state) : backlight_state :=
  {| backlight_on := backlight_on b;
     bk_light_level := bk_light_level b;
     backlight_timer_active := false |}.

(** [backlight_timer_callback]: the [#if] picks a branch at build time.
    [take_get] is the outcome of the take in [get_backlight_state],
    [take_set] that of the take in [set_backlight_state], which is made
    only on the branch that calls it. *)
Definition backlight_timer_callback (cfg : build_config)
    (take_get take_set : bool) (b : backlight_state) : backlight_state :=
  if get_backlight_state take_get b then
    if ENABLE_TOUCHSCREEN cfg || ENABLE_PIR_BACKLIGHT_TIMER cfg
    then set_backlight_state cfg take_set false b
    else xTimerReset b
  else b.

(** One expiry of the backlight timer. *)
Definition backlight_timer_expiry (cfg : build_config)
    (take_get take_set : bool) (b : backlight_state) : backlight_state :=
  backlight_timer_callback cfg take_get take_set (timer_expired b).

End Main.

(** ** [main/http_client.c] *)

Module HttpClient.

Import Libc.

(** [http_download_t] *)
Record http_download_t : Type := {
  buffer : option block;
  buffer_size : Z;
  buffer_allocated : Z
}.

(** [memset (result, 0, sizeof *result)] *)
Definition zero_download : http_download_t :=
  {| buffer := None; buffer_size := 0; buffer_allocated := 0 |}.

(** [esp_http_client_event_t]: the event id with the fields the handlers
    read for it.  [data_len] is the length of [data]. *)
Inductive esp_http_client_event_t : Type :=
  | HTTP_EVENT_ERROR
  | HTTP_EVENT_ON_CONNECTED
  | HTTP_EVENT_HEADER_SENT
  | HTTP_EVENT_ON_HEADER (header_key header_value : string)
  | HTTP_EVENT_ON_DATA (data : list byte)
  | HTTP_EVENT_ON_FINISH
  | HTTP_EVENT_DISCONNECTED
  | HTTP_EVENT_REDIRECT.

Definition data_len (data : list byte) : Z := Z.of_nat (length data).

Definition NUL : byte := x00.

Section WithHeap.

Variable heap : allocator.

Definition generic_http_event_handler (evt : esp_http_client_event_t)
    (download : http_download_t) : outcome (esp_err_t * http_download_t) :=
  match evt with
  | HTTP_EVENT_ON_HEADER header_key header_value =>
      if strcasecmp header_key "Content-Length" =? 0 then
        let content_length := to_size_t (atoi header_value) in
        if (0 <? content_length) && is_null (buffer download)
        then
          let n := to_size_t (content_length + 1024) in
          match malloc heap n with
          | None =>
              Ret (ESP_FAIL,
                   {| buffer := None;
                      buffer_size := buffer_size download;
                      buffer_allocated := n |})
          | Some blk =>
              Ret (ESP_OK,
                   {| buffer := Some blk;
                      buffer_size := 0;
                      buffer_allocated := n |})
          end
        else Ret (ESP_OK, download)
      else Ret (ESP_OK, download)
  | HTTP_EVENT_ON_DATA data =>
      match buffer download with
      | Some blk =>
          if (0 <? data_len data)
             && (to_size_t (buffer_size download + data_len data)
                 <? buffer_allocated download)
          then
            blk <-- memcpy blk (buffer_size download) data ;;
            let size := to_size_t (buffer_size download + data_len data) in
            if size <? buffer_allocated download then
              blk <-- store8 blk size NUL ;;
              Ret (ESP_OK,
                   {| buffer := Some blk;
                      buffer_size := size;
                      buffer_allocated := buffer_allocated download |})
            else
              Ret (ESP_OK,
                   {| buffer := Some blk;
                      buffer_size := size;
                      buffer_allocated := buffer_allocated download |})
          else Ret (ESP_OK, download)
      | None => Ret (ESP_OK, download)
      end
  | _ => Ret (ESP_OK, download)
  end.

Definition image_http_event_handler (image_index : Z)
    (evt : esp_http_client_event_t) (g : Main.globals)
  : outcome (esp_err_t * Main.globals) :=
  if (image_index <? 0) || (MAX_IMAGES <=? image_index)
  then Ret (ESP_FAIL, g)
  else
    match evt with
    | HTTP_EVENT_ON_HEADER header_key header_value =>
        if strcasecmp header_key "Content-Length" =? 0 then
          let content_length := to_size_t (atoi header_value) in
          info <-- Main.get_image_buffer_info image_index g ;;
          let '(buf, buf_size, buf_allocated) :=
            default (None, 0, 0) (snd info) in
          if (0 <? content_length) && is_null buf then
            let n := to_size_t (content_length + 1024) in
            match malloc heap n with
            | None => Ret (ESP_FAIL, g)
            | Some blk =>
                g <-- Main.set_image_buffer_info image_index (Some blk)
                        0 n false g ;;
                Ret (ESP_OK, g)
            end
          else Ret (ESP_FAIL, g)
        else Ret (ESP_OK, g)
    | HTTP_EVENT_ON_DATA data =>
        if 0 <? data_len data then
          info <-- Main.get_image_buffer_info image_index g ;;
          let '(buf, buf_size, buf_allocated) :=
            default (None, 0, 0) (snd info) in
          match buf with
          | Some blk =>
              blk <-- memcpy blk buf_size data ;;
              let buf_size := to_size_t (buf_size + data_len data) in
              g <-- Main.set_image_buffer_info image_index (Some blk)
                      buf_size buf_allocated false g ;;
              Ret (ESP_OK, g)
          | None => Ret (ESP_OK, g)
          end
        else Ret (ESP_OK, g)
    | _ => Ret (ESP_OK, g)
    end.

End WithHeap.

(** *** The HTTP client library, as the download functions see it *)

Inductive http_method : Type := HTTP_METHOD_GET | HTTP_METHOD_POST.

Record http_request : Type := {
  req_url : string;
  req_method : http_method;
  req_content_type : option string;
  req_post_field : option string
}.

(** One run of [esp_http_client_perform]: the events dispatched to the
    handler, in order, then the value returned and the status code read
    back with [esp_http_client_get_status_code]. *)
Record http_exchange : Type := {
  events : list esp_http_client_event_t;
  perform_result : esp_err_t;
  status_code : Z
}.

(** The network and the servers behind it.  [esp_http_client_init] tells
    whether a client handle is obtained. *)
Record http_stack : Type := {
  esp_http_client_init : http_request -> bool;
  esp_http_client_perform : http_request -> http_exchange
}.

(** The client calls the handler once per event and does not look at the
    value the handler returns. *)
Fixpoint dispatch {S : Type}
    (handler : esp_http_client_event_t -> S -> outcome (esp_err_t * S))
    (evts : list esp_http_client_event_t) (st : S) : outcome S :=
  match evts with
  | [] => Ret st
  | evt :: evts' =>
      r <-- handler evt st ;;
      dispatch handler evts' (snd r)
  end.

Definition http_download_free (download : http_download_t)
  : http_download_t :=
  match buffer download with
  | Some _ => zero_download
  | None => download
  end.

Definition static_image_urls : list string :=
  [STATIC_IMAGE_URL_0; STATIC_IMAGE_URL_1].

Definition is_outlook_image (url : option string) : bool :=
  match url with
  | None => false
  | Some u => existsb (String.eqb u) static_image_urls
  end.

(** A C literal in which every apostrophe stands for a double quote. *)
Fixpoint c_literal (s : string) : string :=
  match s with
  | EmptyString => EmptyString
  | String c s' =>
      String (if Ascii.eqb c "'" then "034"%char else c) (c_literal s')
  end.

(** The two [post_data_format] strings, split at their [%s]. *)
Definition post_data_format_head : string := c_literal "{'url': '".

Definition outlook_format_tail : string :=
  c_literal "','cf': 'RGB565','dither': 'true','output': 'bin','bigEndian': false,'maxSize': '800x420','crop': {'top': 65, 'bottom': 70}}".

Definition cone_format_tail : string :=
  c_literal "','cf': 'RGB565','dither': 'true','output': 'bin','bigEndian': false,'maxSize': '800x420','crop': {'top': 50, 'bottom': 40, 'left': 7, 'right': 7}}".

Definition strlen (s : string) : Z := Z.of_nat (String.length s).

Section WithStack.

Variable heap : allocator.
Variable net : http_stack.
Variable cfg : build_config.

Definition http_download_xml_feed (url : option string)
    (result : http_download_t) : outcome (esp_err_t * http_download_t) :=
  match url with
  | None => Ret (ESP_ERR_INVALID_ARG, result)
  | Some u =>
      let result := zero_download in
      let config := {| req_url := u; req_method := HTTP_METHOD_GET;
                       req_content_type := None;
                       req_post_field := None |} in
      if negb (esp_http_client_init net config) then Ret (ESP_FAIL, result)
      else
        let x := esp_http_client_perform net config in
        result <-- dispatch (generic_http_event_handler heap)
                     (events x) result ;;
        if (perform_result x =? ESP_OK) && (status_code x =? 200)
           && negb (is_null (buffer result)) && (0 <? buffer_size result)
        then Ret (ESP_OK, result)
        else Ret (ESP_FAIL, http_download_free result)
  end.

(** The request [http_download_image] sends for [url]: the configured
    service, [HTTP_METHOD_POST], a JSON content type, and [post_data_format]
    with [url] in the place of its [%s]. *)
Definition post_data_format_tail (url : string) : string :=
  if is_outlook_image (Some url) then outlook_format_tail
  else cone_format_tail.

Definition conversion_request (url : string) : http_request :=
  {| req_url := CONFIG_CONVERSION_API_URL cfg;
     req_method := HTTP_METHOD_POST;
     req_content_type := Some "application/json";
     req_post_field :=
       Some (post_data_format_head +:+ url +:+ post_data_format_tail url) |}.

Definition http_download_image (image_index : Z) (g : Main.globals)
  : outcome (esp_err_t * Main.globals) :=
  if (image_index <? 0) || (MAX_IMAGES <=? image_index)
  then Ret (ESP_FAIL, g)
  else
    g <-- Main.reset_image_buffer image_index g ;;
    match Main.image_urls g !! Z.to_nat image_index with
    | None => Fault OutOfBoundsRead
    | Some None => Fault NullDereference
    | Some (Some url) =>
        let url_len := strlen url in
        let post_data_len :=
          to_size_t (strlen post_data_format_head + 2
                     + strlen (post_data_format_tail url) + url_len - 2) in
        match malloc heap (to_size_t (post_data_len + 1)) with
        | None => Ret (ESP_ERR_NO_MEM, g)
        | Some _ =>
            let x := esp_http_client_perform net (conversion_request url) in
            g <-- dispatch (image_http_event_handler heap image_index)
                    (events x) g ;;
            let err := perform_result x in
            if err =? ESP_OK then
              info <-- Main.get_image_buffer_info image_index g ;;
              let '(buf, buf_size, buf_allocated) :=
                default (None, 0, 0) (snd info) in
              if negb (status_code x =? 200) then Ret (ESP_FAIL, g)
              else if negb (is_null buf) && (0 <? buf_size) then
                if buf_size <? 100 then Ret (ESP_FAIL, g)
                else
                  g <-- Main.set_image_buffer_info image_index buf
                          buf_size buf_allocated true g ;;
                  Ret (err, g)
              else Ret (ESP_FAIL, g)
            else Ret (err, g)
        end
    end.

(** The [for] loop of [http_download_all_images], by the number of indices
    that remain; [successful_downloads] is threaded through. *)
Fixpoint download_loop (remaining : nat) (i successful_downloads : Z)
    (g : Main.globals) : outcome (Z * Main.globals) :=
  match remaining with
  | O => Ret (successful_downloads, g)
  | S remaining' =>
      match Main.image_urls g !! Z.to_nat i with
      | None => Fault OutOfBoundsRead
      | Some None =>
          download_loop remaining' (i + 1) successful_downloads g
      | Some (Some _) =>
          r <-- http_download_image i g ;;
          if fst r =? ESP_OK
          then download_loop remaining' (i + 1) (successful_downloads + 1)
                 (snd r)
          else download_loop remaining' (i + 1) successful_downloads (snd r)
      end
  end.

Definition http_download_all_images (g : Main.globals)
  : outcome (esp_err_t * Main.globals) :=
  if Main.active_image_count g =? 0 then Ret (ESP_FAIL, g)
  else
    r <-- download_loop (Z.to_nat (Main.active_image_count g)) 0 0 g ;;
    Ret (if 0 <? fst r then ESP_OK else ESP_FAIL, snd r).

End WithStack.

End HttpClient.

(** ** [main/xml_parse.c] *)

(** Character data handed over by expat holds no NUL, so the C strings
    built from it are the character sequences themselves.

    The callbacks allocate with [malloc], [realloc] and [strdup], and each
    of these calls can fail.  The allocator is given as the answers it
    makes: [mem k n] tells whether the request number [k] of the parse, one
    for [n] bytes, is served.  Pointers to [char] and [int] hold 4 bytes. *)

Module XmlParse.

Import Libc.

(** [ctx_t].  The three [int] flags only ever hold 0 or 1.  [description]
    is [None] until an [<item>] has allocated it.  [all_urls] holds the
    [url_count] entries of the array that have been written.  Two fields
    are not fields of the C structure: [printed] collects what the
    callbacks send to [stdout], oldest first, and [requests] counts the
    requests made to the allocator. *)
Record ctx_t : Type := {
  in_item : bool;
  in_title : bool;
  in_description : bool;
  title : string;
  description : option string;
  description_size : Z;
  description_capacity : Z;
  found_url : option string;
  all_urls : option (list string);
  url_count : Z;
  url_capacity : Z;
  printed : list string;
  requests : nat
}.

(** [ctx_t ctx = {0}] *)
Definition zero_ctx : ctx_t :=
  {| in_item := false; in_title := false; in_description := false;
     title := EmptyString; description := None;
     description_size := 0; description_capacity := 0;
     found_url := None; all_urls := None;
     url_count := 0; url_capacity := 0; printed := []; requests := 0 |}.

Definition set_flags (c : ctx_t) (item ttl desc : bool) : ctx_t :=
  {| in_item := item; in_title := ttl; in_description := desc;
     title := title c; description := description c;
     description_size := description_size c;
     description_capacity := description_capacity c;
     found_url := found_url c; all_urls := all_urls c;
     url_count := url_count c; url_capacity := url_capacity c;
     printed := printed c; requests := requests c |}.

Definition set_title (c : ctx_t) (t : string) : ctx_t :=
  {| in_item := in_item c; in_title := in_title c;
     in_description := in_description c;
     title := t; description := description c;
     description_size := description_size c;
     description_capacity := description_capacity c;
     found_url := found_url c; all_urls := all_urls c;
     url_count := url_count c; url_capacity := url_capacity c;
     printed := printed c; requests := requests c |}.

Definition set_description (c : ctx_t) (d : option string)
    (size capacity : Z) : ctx_t :=
  {| in_item := in_item c; in_title := in_title c;
     in_description := in_description c;
     title := title c; description := d;
     description_size := size;
     description_capacity := capacity;
     found_url := found_url c; all_urls := all_urls c;
     url_count := url_count c; url_capacity := url_capacity c;
     printed := printed c; requests := requests c |}.

Definition set_found_url (c : ctx_t) (u : option string) : ctx_t :=
  {| in_item := in_item c; in_title := in_title c;
     in_description := in_description c;
     title := title c; description := description c;
     description_size := description_size c;
     description_capacity := description_capacity c;
     found_url := u; all_urls := all_urls c;
     url_count := url_count c; url_capacity := url_capacity c;
     printed := printed c; requests := requests c |}.

Definition set_urls (c : ctx_t) (urls : option (list string))
    (count capacity : Z) : ctx_t :=
  {| in_item := in_item c; in_title := in_title c;
     in_description := in_description c;
     title := title c; description := description c;
     description_size := description_size c;
     description_capacity := description_capacity c;
     found_url := found_url c; all_urls := urls;
     url_count := count; url_capacity := capacity;
     printed := printed c; requests := requests c |}.

Definition printf (c : ctx_t) (line : string) : ctx_t :=
  {| in_item := in_item c; in_title := in_title c;
     in_description := in_description c;
     title := title c; description := description c;
     description_size := description_size c;
     description_capacity := description_capacity c;
     found_url := found_url c; all_urls := all_urls c;
     url_count := url_count c; url_capacity := url_capacity c;
     printed := printed c ++ [line]; requests := requests c |}.

(** One more request has been made to the allocator. *)
Definition requested (c : ctx_t) : ctx_t :=
  {| in_item := in_item c; in_title := in_title c;
     in_description := in_description c;
     title := title c; description := description c;
     description_size := description_size c;
     description_capacity := description_capacity c;
     found_url := found_url c; all_urls := all_urls c;
     url_count := url_count c; url_capacity := url_capacity c;
     printed := printed c; requests := S (requests c) |}.

Definition dquote : ascii := "034"%char.

(** The literals [src=] and [href=] followed by a double quote. *)
Definition src_eq_quote : string := "src=" +:+ String dquote EmptyString.
Definition href_eq_quote : string := "href=" +:+ String dquote EmptyString.

(** [sizeof (char * )] *)
Definition sizeof_pointer : Z := 4.

(** The [while] loop that doubles [new_capacity]; 32 doublings exhaust a
    32-bit [size_t]. *)
Fixpoint double_until (rounds : nat) (new_capacity needed : Z) : Z :=
  match rounds with
  | O => new_capacity
  | S rounds' =>
      if new_capacity <? needed
      then double_until rounds' (to_size_t (new_capacity * 2)) needed
      else new_capacity
  end.

Section WithAllocator.

Variable mem : nat -> Z -> bool.

(** A call of [malloc (n)], of [realloc (p, n)] or, with [n] the length of
    the string and its NUL, of [strdup]: whether it returns a block, and
    the context with the request counted. *)
Definition allocate (c : ctx_t) (n : Z) : bool * ctx_t :=
  (mem (requests c) n, requested c).

Definition start_elem (c : ctx_t) (el : string) : ctx_t :=
  if String.eqb el "item" then
    let c := set_flags c true (in_title c) (in_description c) in
    let c := set_title c EmptyString in
    if is_null (description c) then
      let c := set_description c None (description_size c) 4096 in
      let '(served, c) := allocate c 4096 in
      if served then set_description c (Some EmptyString) 0 4096
      else c
    else set_description c (Some EmptyString) 0 (description_capacity c)
  else if in_item c && String.eqb el "title" then
    set_flags c (in_item c) true (in_description c)
  else if in_item c && String.eqb el "description" then
    set_flags c (in_item c) (in_title c) true
  else c.

(** The second half of [add_url_to_array]:
    [all_urls[url_count] = strdup (url)], counted when the copy was made.
    The entries written and counted so far are the first [url_count] of the
    array. *)
Definition store_url (c : ctx_t) (url : string) : ctx_t :=
  let '(served, c) := allocate c (Z.of_nat (String.length url) + 1) in
  if served then
    set_urls c
      (Some (take (Z.to_nat (url_count c)) (default [] (all_urls c))
             ++ [url]))
      (url_count c + 1) (url_capacity c)
  else c.

Definition add_url_to_array (c : ctx_t) (url : string) : ctx_t :=
  if url_capacity c <=? url_count c then
    let new_capacity :=
      if url_capacity c =? 0 then 4 else url_capacity c * 2 in
    let '(served, c) :=
      allocate c (to_size_t (new_capacity * sizeof_pointer)) in
    if served then
      store_url
        (set_urls c (Some (default [] (all_urls c))) (url_count c)
           new_capacity)
        url
    else c
  else store_url c url.

(** [end_elem].  [strstr (c->description, ...)] reads through the pointer,
    which is [NULL] when the [malloc] of [start_elem] has failed. *)
Definition end_elem (c : ctx_t) (el : string) : outcome ctx_t :=
  if String.eqb el "item" then
    c <-- match strstr (title c) "Graphics" with
          | Some _ =>
              match description c with
              | None => Fault NullDereference
              | Some d =>
                  match strstr d src_eq_quote with
                  | Some p =>
                      let p := advance 5 p in
                      match strchr p dquote with
                      | Some q =>
                          let url := terminated_at p q in
                          let c :=
                            printf c ("Storm Graphics URL: " +:+ url) in
                          let c :=
                            if is_null (found_url c) then
                              let '(served, c) :=
                                allocate c
                                  (Z.of_nat (String.length url) + 1) in
                              if served then set_found_url c (Some url)
                              else c
                            else c in
                          if negb (is_null (all_urls c))
                             || (0 <? url_capacity c)
                          then Ret (add_url_to_array c url)
                          else Ret c
                      | None => Ret c
                      end
                  | None =>
                      match strstr d href_eq_quote with
                      | Some p =>
                          let p := advance 6 p in
                          match strchr p dquote with
                          | Some q =>
                              Ret (printf c ("Storm Cone Page URL: "
                                             +:+ terminated_at p q))
                          | None => Ret c
                          end
                      | None => Ret c
                      end
                  end
              end
          | None => Ret c
          end ;;
    Ret (set_flags c false (in_title c) (in_description c))
  else if String.eqb el "title" then
    Ret (set_flags c (in_item c) false (in_description c))
  else if String.eqb el "description" then
    Ret (set_flags c (in_item c) (in_title c) false)
  else Ret c.

Definition char_data (c : ctx_t) (s : string) : ctx_t :=
  let len := Z.of_nat (String.length s) in
  if in_title c then
    let current_len := Z.of_nat (String.length (title c)) in
    let available := to_size_t (256 - current_len - 1) in
    if 0 <? available then
      let copy_len := if len <? available then len else available in
      set_title c (title c +:+ String.substring 0 (Z.to_nat copy_len) s)
    else c
  else
    match description c with
    | Some d =>
        if in_description c then
          let needed := to_size_t (description_size c + len + 1) in
          let append (c : ctx_t) :=
            set_description c
              (Some (String.substring 0 (Z.to_nat (description_size c)) d
                     +:+ s))
              (description_size c + len) (description_capacity c) in
          if description_capacity c <? needed then
            let new_capacity :=
              double_until 32
                (if description_capacity c =? 0 then 4096
                 else to_size_t (description_capacity c * 2))
                needed in
            let '(served, c) := allocate c new_capacity in
            if served then
              append (set_description c (description c)
                        (description_size c) new_capacity)
            else c
          else append c
        else c
    | None => c
    end.

(** *** expat *)

(** The callbacks of one [XML_Parse (parser, buf, len, 1)], in order, and
    the status it returns.  On a document that is not well formed expat
    makes the callbacks for what precedes the error and returns
    [XML_STATUS_ERROR]. *)
Inductive xml_event : Type :=
  | StartElement (el : string)
  | EndElement (el : string)
  | CharacterData (s : string).

Inductive XML_Status : Type := XML_STATUS_ERROR | XML_STATUS_OK.

Record expat_run : Type := {
  callbacks : list xml_event;
  status : XML_Status
}.

Definition handle (c : ctx_t) (e : xml_event) : outcome ctx_t :=
  match e with
  | StartElement el => Ret (start_elem c el)
  | EndElement el => end_elem c el
  | CharacterData s => Ret (char_data c s)
  end.

Fixpoint run_callbacks (evts : list xml_event) (c : ctx_t)
  : outcome ctx_t :=
  match evts with
  | [] => Ret c
  | e :: evts' =>
      c <-- handle c e ;;
      run_callbacks evts' c
  end.

Definition XML_Parse (c : ctx_t) (run : expat_run)
  : outcome (XML_Status * ctx_t) :=
  c <-- run_callbacks (callbacks run) c ;;
  Ret (status run, c).

(** [xml_parse_cone_image_url]: the string returned, [None] for [NULL]. *)
Definition xml_parse_cone_image_url (run : expat_run)
  : outcome (option string) :=
  r <-- XML_Parse zero_ctx run ;;
  Ret (found_url (snd r)).

(** The context of [xml_parse_all_cone_image_urls] once its array with
    room for 4 URLs has been allocated. *)
Definition collecting_ctx : ctx_t :=
  set_urls (requested zero_ctx) (Some []) 0 4.

(** [xml_parse_all_cone_image_urls]: the array returned and [*count].  The
    [realloc] that shrinks the array before it is returned moves the
    entries or leaves them where they are; the caller sees the same
    entries. *)
Definition xml_parse_all_cone_image_urls (run : expat_run)
  : outcome (option (list string) * Z) :=
  let '(served, c) := allocate zero_ctx (to_size_t (4 * sizeof_pointer)) in
  if served then
    r <-- XML_Parse (set_urls c (Some []) 0 4) run ;;
    let '(st, ctx) := r in
    match st with
    | XML_STATUS_ERROR => Ret (None, 0)
    | XML_STATUS_OK =>
        let count := url_count ctx in
        if url_count ctx =? 0 then Ret (None, count)
        else Ret (all_urls ctx, count)
    end
  else Ret (None, 0).

End WithAllocator.

End XmlParse.

(** ** [main/main.c]: the update task *)

Module UpdateTask.

(** The loop of [update_image_task] that decodes what was downloaded, by
    the number of slots that remain; [processed_images] is threaded
    through.  [now] is what [time ()] returns during the loop. *)
Fixpoint process_loop (remaining : nat) (now i processed_images : Z)
    (g : Main.globals) : outcome (Z * Main.globals) :=
  match remaining with
  | O => Ret (processed_images, g)
  | S remaining' =>
      s <-- Main.slot_at i g ;;
      if negb (is_null (Main.buffer s)) && (0 <? Main.buffer_size s) then
        r <-- Main.process_downloaded_image now i g ;;
        if fst r =? ESP_OK
        then process_loop remaining' now (i + 1) (processed_images + 1)
               (snd r)
        else
          s' <-- Main.slot_at i (snd r) ;;
          process_loop remaining' now (i + 1) processed_images
            (Main.put_slot i (Main.set_is_valid s' false) (snd r))
      else process_loop remaining' now (i + 1) processed_images g
  end.

(** One update of [update_image_task] from the download of the images on:
    [http_download_all_images], then, when it succeeds, the decoding loop.
    The value is the number of images decoded. *)
Definition download_and_process (heap : allocator)
    (net : HttpClient.http_stack) (cfg : build_config) (now : Z)
    (g : Main.globals) : outcome (Z * Main.globals) :=
  r <-- HttpClient.http_download_all_images heap net cfg g ;;
  if fst r =? ESP_OK
  then process_loop (Z.to_nat MAX_IMAGES) now 0 0 (snd r)
  else Ret (0, snd r).

End UpdateTask.

(** ** [main/http_client.c]: the table of image URLs *)

Module ImageUrls.

Import HttpClient.












Section WithFeed.

Variable heap : allocator.
Variable net : http_stack.

(** expat as a function of the document it is given, and the allocator as
    it answers the requests of the parser. *)
Variable expat : list byte -> XmlParse.expat_run.
Variable mem : nat -> Z -> bool.







End WithFeed.

End ImageUrls.

(** ** [main/main.c]: the display task *)

Module Display.

(** One notification of [display_image_task]: the image handed to
    [display_image_from_global_pointer], which changes none of the globals
    modelled here, and the cursor moved past it. *)
Definition display_step (g : Main.globals)
  : outcome (Main.image_ref * Main.globals) :=
  r <-- Main.get_next_valid_image g ;;
  let '(image, _, g) := r in
  let images_to_cycle :=
    if 0 <? Main.active_image_count g then Main.active_image_count g
    else MAX_IMAGES in
  Ret (image,
       Main.set_s_current_image_index g
         (Z.rem (Main.s_current_image_index g + 1) images_to_cycle)).

(** [notifications] runs of the loop body; the images shown, first one
    first. *)
Fixpoint display_run (notifications : nat) (g : Main.globals)
  : outcome (list Main.image_ref * Main.globals) :=
  match notifications with
  | O => Ret ([], g)
  | S notifications' =>
      r <-- display_step g ;;
      rest <-- display_run notifications' (snd r) ;;
      Ret (fst r :: fst rest, snd rest)
  end.

End Display.

(** ** [main/main.c]: the update schedule *)

Module Schedule.

Definition NHC_UPDATE_TIMES : list string :=
  ["00:10"; "03:10"; "06:10"; "09:10"; "12:10"; "15:10"; "18:10"; "21:10"].

(** The fields of [struct tm] that [gmtime_r] fills and the code reads. *)
Definition tm_hour (now : Z) : Z := (now mod 86400) / 3600.
Definition tm_min (now : Z) : Z := (now mod 3600) / 60.

Definition digit (d : Z) : ascii := ascii_of_nat (48 + Z.to_nat d).

(** [%H] and [%M] of [strftime]: two digits, zero padded. *)
Definition two_digits (n : Z) : string :=
  String (digit (n / 10)) (String (digit (n mod 10)) EmptyString).

(** [strftime (current_time, 6, fmt, &timeinfo)] for the format [%H:%M]:
    five characters and the NUL fill the buffer exactly. *)
Definition strftime_HM (now : Z) : string :=
  two_digits (tm_hour now) +:+ ":" +:+ two_digits (tm_min now).

(** [strcmp (a, b) == 0] *)
Definition strcmp_eq (a b : string) : bool := String.eqb a b.

Definition is_nhc_update_time (now : Z) : bool :=
  existsb (strcmp_eq (strftime_HM now)) NHC_UPDATE_TIMES.

End Schedule.

(** ** [main/main.c]: activity and the backlight *)

Module Activity.

Import Main.

(** [touch_event_cb]; [timer_created] is [backlight_timer != NULL].
    [take_get] and [take_set] are the outcomes of the two takes of the
    mutex, the second of which is made only when the backlight was read as
    off. *)
Definition touch_event_cb (cfg : build_config) (timer_created : bool)
    (take_get take_set : bool) (b : backlight_state) : backlight_state :=
  let b := if negb (get_backlight_state take_get b)
           then set_backlight_state cfg take_set true b else b in
  if timer_created then xTimerReset b else b.

(** The body of the loop of [pir_monitoring_task] once the motion
    semaphore has been taken. *)
Definition pir_motion_detected (cfg : build_config) (timer_created : bool)
    (take_get take_set : bool) (b : backlight_state) : backlight_state :=
  let b := if negb (get_backlight_state take_get b)
           then set_backlight_state cfg take_set true b else b in
  if timer_created then xTimerReset b else b.

(** What happens to the backlight after [app_main]: a touch, a motion, or
    the expiry of the timer.  [touch_event_cb] exists in builds with
    [ENABLE_TOUCHSCREEN] only, the motion task in builds with
    [ENABLE_PIR_BACKLIGHT_TIMER] only, and only an armed timer expires. *)
Inductive backlight_event : Type :=
  | Touch
  | Motion
  | Expiry.

(** An event with the outcomes of the two takes of the mutex that its
    handler can make. *)
Record occurrence : Type := {
  what : backlight_event;
  take_get : bool;
  take_set : bool
}.

Definition backlight_step (cfg : build_config) (timer_created : bool)
    (b : backlight_state) (e : occurrence) : backlight_state :=
  match what e with
  | Touch =>
      if ENABLE_TOUCHSCREEN cfg
      then touch_event_cb cfg timer_created (take_get e) (take_set e) b
      else b
  | Motion =>
      if ENABLE_PIR_BACKLIGHT_TIMER cfg
      then pir_motion_detected cfg timer_created (take_get e) (take_set e) b
      else b
  | Expiry =>
      if backlight_timer_active b
      then backlight_timer_expiry cfg (take_get e) (take_set e) b
      else b
  end.

(** The backlight as [app_main] leaves it: [backlight_on] is initialised
    to [true], then [set_backlight_state (true)] runs, with [taken] the
    outcome of its take, and the timer is started when it could be
    created.  Before that call the pin has not been driven. *)
Definition boot_backlight (cfg : build_config) (taken : bool)
    (timer_created : bool) : backlight_state :=
  let b := set_backlight_state cfg taken true
             {| backlight_on := true; bk_light_level := 0;
                backlight_timer_active := false |} in
  if timer_created then xTimerReset b else b.

End Activity.

(** ** [main/time_sync.c] *)

Module TimeSync.

Import HttpClient.

(** [http_response_t] *)
Record http_response_t : Type := {
  buffer : option block;
  buffer_size : Z;
  buffer_allocated : Z
}.

(** [http_response_t response = {0}] *)
Definition zero_response : http_response_t :=
  {| buffer := None; buffer_size := 0; buffer_allocated := 0 |}.

Definition worldtime_http_event_handler (heap : allocator)
    (evt : esp_http_client_event_t) (response : http_response_t)
  : outcome (esp_err_t * http_response_t) :=
  match evt with
  | HTTP_EVENT_ON_HEADER header_key header_value =>
      if Libc.strcasecmp header_key "Content-Length" =? 0 then
        let content_length := to_size_t (Libc.atoi header_value) in
        if (0 <? content_length) && is_null (buffer response)
        then
          let n := to_size_t (content_length + 1) in
          match malloc heap n with
          | None =>
              Ret (ESP_FAIL,
                   {| buffer := None;
                      buffer_size := buffer_size response;
                      buffer_allocated := n |})
          | Some blk =>
              Ret (ESP_OK,
                   {| buffer := Some blk;
                      buffer_size := 0;
                      buffer_allocated := n |})
          end
        else Ret (ESP_OK, response)
      else Ret (ESP_OK, response)
  | HTTP_EVENT_ON_DATA data =>
      match buffer response with
      | Some blk =>
          if (0 <? data_len data)
             && (to_size_t (buffer_size response + data_len data)
                 <? buffer_allocated response)
          then
            blk <-- memcpy blk (buffer_size response) data ;;
            let size := to_size_t (buffer_size response + data_len data) in
            blk <-- store8 blk size NUL ;;
            Ret (ESP_OK,
                 {| buffer := Some blk;
                    buffer_size := size;
                    buffer_allocated := buffer_allocated response |})
          else Ret (ESP_OK, response)
      | None => Ret (ESP_OK, response)
      end
  | _ => Ret (ESP_OK, response)
  end.

(** cJSON as [initialize_worldtime_api] uses it: what [cJSON_Parse],
    [cJSON_GetObjectItem] for [unixtime] with [cJSON_IsNumber], and the
    cast of [cJSON_GetNumberValue] to [time_t] make of a response. *)
Inductive unixtime_lookup : Type :=
  | JsonParseError
  | JsonNoUnixtime
  | JsonUnixtime (unix_time : Z).

(** What the function meets outside the repository: the network at each
    attempt, cJSON, and whether [settimeofday] returns 0. *)
Record time_env : Type := {
  stack_at : nat -> http_stack;
  cJSON_unixtime : list byte -> unixtime_lookup;
  settimeofday : Z -> bool
}.

Definition worldtime_request : http_request :=
  {| req_url := "http://worldtimeapi.org/api/timezone/America/New_York";
     req_method := HTTP_METHOD_GET;
     req_content_type := None;
     req_post_field := None |}.

Definition retry_count : Z := 10.

(** The C string at [response.buffer]: the bytes received. *)
Definition response_text (response : http_response_t) : list byte :=
  match buffer response with
  | Some blk => take (Z.to_nat (buffer_size response)) blk
  | None => []
  end.

Section WithEnv.

Variable heap : allocator.
Variable env : time_env.

(** The [while (retry < retry_count)] loop, by the number of iterations
    that remain; every iteration that does not [break] adds 1 to [retry].
    The value is [err] after the loop and the time the clock was set to,
    if it was. *)
Fixpoint worldtime_loop (remaining : nat) (retry : Z) (err : esp_err_t)
  : outcome (esp_err_t * option Z) :=
  match remaining with
  | O => Ret (err, None)
  | S remaining' =>
      if retry <? retry_count then
        let response := zero_response in
        let net := stack_at env (Z.to_nat retry) in
        if negb (esp_http_client_init net worldtime_request)
        then worldtime_loop remaining' (retry + 1) err
        else
          let x := esp_http_client_perform net worldtime_request in
          response <-- dispatch (worldtime_http_event_handler heap)
                         (events x) response ;;
          let err := perform_result x in
          if (err =? ESP_OK) && (status_code x =? 200)
             && negb (is_null (buffer response))
             && (0 <? buffer_size response)
          then
            match cJSON_unixtime env (response_text response) with
            | JsonParseError => worldtime_loop remaining' (retry + 1) err
            | JsonNoUnixtime => worldtime_loop remaining' (retry + 1) err
            | JsonUnixtime unix_time =>
                if settimeofday env unix_time
                then Ret (ESP_OK, Some unix_time)
                else worldtime_loop remaining' (retry + 1) err
            end
          else worldtime_loop remaining' (retry + 1) err
      else Ret (err, None)
  end.

Definition initialize_worldtime_api : outcome (esp_err_t * option Z) :=
  worldtime_loop (Z.to_nat retry_count) 0 ESP_FAIL.

End WithEnv.

(** [initialize_sntp]; [tm_year_at k] is [timeinfo.tm_year] after the
    [k]-th wait of 2 s.  The loop is
    [while (timeinfo.tm_year < (2016 - 1900) && ++retry < retry_count)]. *)
Fixpoint sntp_wait (tm_year_at : nat -> Z) (remaining : nat)
    (retry tm_year : Z) : Z :=
  match remaining with
  | O => retry
  | S remaining' =>
      if tm_year <? 2016 - 1900 then
        let retry := retry + 1 in
        if retry <? retry_count
        then sntp_wait tm_year_at remaining' retry
               (tm_year_at (Z.to_nat retry))
        else retry
      else retry
  end.

Definition initialize_sntp (tm_year_at : nat -> Z) : esp_err_t :=
  let retry := sntp_wait tm_year_at (Z.to_nat retry_count) 0 0 in
  if retry_count <=? retry then ESP_FAIL else ESP_OK.

End TimeSync.

(** * Vocabulary of the statements and example data *)

Import HttpClient.

(** ** Memory and downloads *)

(** An allocator that never fails and hands out zeroed blocks, for closed
    examples. *)
Definition zeroed_malloc (n : Z) : option block :=
  Some (replicate (Z.to_nat n) x00).

Definition zeroed_heap : allocator.
Proof.
  refine {| malloc := zeroed_malloc |}.
  intros n blk [= <-]. apply length_replicate.
Defined.

(** What holds of a download between events. *)
Definition download_ok (d : http_download_t) : Prop :=
  match buffer d with
  | Some blk =>
      length blk = Z.to_nat (buffer_allocated d)
      /\ 0 <= buffer_size d <= buffer_allocated d
      /\ buffer_allocated d <= 2 ^ 31
  | None => buffer_size d = 0 /\ 0 <= buffer_allocated d
  end.

(** The body bytes of one event fit a C [int]. *)
Definition event_fits_int (evt : esp_http_client_event_t) : Prop :=
  match evt with
  | HTTP_EVENT_ON_DATA data => data_len data <= INT_MAX
  | _ => True
  end.

(** No block is larger than half the 32-bit address space. *)
Definition heap_bounded (heap : allocator) : Prop :=
  forall n blk, malloc heap n = Some blk -> n <= 2 ^ 31.

(** An allocator that refuses blocks of more than 2 GiB. *)
Definition bounded_malloc (n : Z) : option block :=
  if n <=? 2 ^ 31 then zeroed_malloc n else None.

Definition bounded_heap : allocator.
Proof.
  refine {| malloc := bounded_malloc |}.
  intros n blk. unfold bounded_malloc, zeroed_malloc.
  destruct (n <=? 2 ^ 31); [|discriminate].
  intros [= <-]. apply length_replicate.
Defined.

Definition empty_slot : Main.image_data_t :=
  {| Main.buffer := None; Main.buffer_size := 0; Main.buffer_allocated := 0;
     Main.img_dsc := Lvgl.zero_dsc; Main.is_valid := false;
     Main.download_timestamp := 0 |}.

(** The globals as [app_main] leaves them, with [urls] configured. *)
Definition boot_globals (urls : list (option string)) : Main.globals :=
  {| Main.s_images := replicate 10 empty_slot;
     Main.s_current_image_index := 0;
     Main.active_image_count := 0;
     Main.image_urls := urls |}.

(** The events of a response that is redirected: a short first response,
    then the headers and the body of the second one. *)
Definition redirected_headers : list esp_http_client_event_t :=
  [HTTP_EVENT_ON_HEADER "Content-Length" "10";
   HTTP_EVENT_ON_DATA (replicate 10 x61);
   HTTP_EVENT_ON_HEADER "Content-Length" "2000"].

Definition redirected_body : esp_http_client_event_t :=
  HTTP_EVENT_ON_DATA (replicate 2000 x62).

(** The body bytes an event carries. *)
Definition event_bytes (evt : esp_http_client_event_t) : Z :=
  match evt with
  | HTTP_EVENT_ON_DATA data => data_len data
  | _ => 0
  end.

Definition body_length (evts : list esp_http_client_event_t) : Z :=
  foldr (fun evt n => event_bytes evt + n) 0 evts.

(** A Content-Length header announces a length, not a negative number. *)
Definition content_length_sane (evt : esp_http_client_event_t) : Prop :=
  match evt with
  | HTTP_EVENT_ON_HEADER key value =>
      Libc.strcasecmp key "Content-Length" = 0 -> 0 <= Libc.atoi value
  | _ => True
  end.

(** The slot of a download in progress that has received at most [n] body
    bytes. *)
Definition slot_downloading (n : Z) (s : Main.image_data_t) : Prop :=
  Main.is_valid s = false
  /\ 0 <= Main.buffer_size s <= n
  /\ match Main.buffer s with
     | Some blk =>
         length blk = Z.to_nat (Main.buffer_allocated s)
         /\ 1024 <= Main.buffer_allocated s
     | None => True
     end.

(** A service that answers every request with status 200 and the 14 bytes
    of a 1x1 RGB565 image. *)
Definition tiny_image : list byte :=
  [x19; x12; x00; x00; x01; x00; x01; x00; x02; x00; x00; x00; xff; xff].

Definition tiny_image_exchange : http_exchange :=
  {| events := [HTTP_EVENT_ON_CONNECTED; HTTP_EVENT_HEADER_SENT;
                HTTP_EVENT_ON_HEADER "Content-Length" "14";
                HTTP_EVENT_ON_DATA tiny_image; HTTP_EVENT_ON_FINISH];
     perform_result := ESP_OK;
     status_code := 200 |}.

Definition tiny_image_service : http_stack :=
  {| esp_http_client_init := fun _ => true;
     esp_http_client_perform := fun _ => tiny_image_exchange |}.

Definition touch_config : build_config :=
  {| CONFIG_ENABLE_TOUCHSCREEN := true;
     CONFIG_ENABLE_PIR_BACKLIGHT_TIMER := false;
     CONFIG_CONVERSION_API_URL := "http://192.168.1.2:8080/convert";
     BSP_LCD_BK_LIGHT_ON_LEVEL := 1 |}.

Definition outlook_urls : list (option string) :=
  Some STATIC_IMAGE_URL_0 :: Some STATIC_IMAGE_URL_1 :: replicate 8 None.

(** A conversion service that answers the request for the first static
    image with the 14-byte container [tiny_image] and every other request
    with a 7 x 7 RGB565 container of 12 + 98 = 110 bytes. *)
Definition small_image : list byte :=
  [x19; x12; x00; x00; x07; x00; x07; x00; x0e; x00; x00; x00]
  ++ replicate 98 x00.

Definition small_image_exchange : http_exchange :=
  {| events := [HTTP_EVENT_ON_CONNECTED; HTTP_EVENT_HEADER_SENT;
                HTTP_EVENT_ON_HEADER "Content-Length" "110";
                HTTP_EVENT_ON_DATA small_image; HTTP_EVENT_ON_FINISH];
     perform_result := ESP_OK;
     status_code := 200 |}.

Definition asks_for (url : string) (req : http_request) : bool :=
  match req_post_field req with
  | Some body => negb (is_null (Libc.strstr body url))
  | None => false
  end.

Definition mixed_service : http_stack :=
  {| esp_http_client_init := fun _ => true;
     esp_http_client_perform := fun req =>
       if asks_for STATIC_IMAGE_URL_0 req then tiny_image_exchange
       else small_image_exchange |}.

(** An exchange in which the service first redirects, with a body of 50
    bytes, and then answers with status 200 and a body of 60 bytes; the
    client dispatches the events of both responses to the handler. *)
Definition redirected_exchange : http_exchange :=
  {| events := [HTTP_EVENT_ON_CONNECTED; HTTP_EVENT_HEADER_SENT;
                HTTP_EVENT_ON_HEADER "Content-Length" "50";
                HTTP_EVENT_ON_DATA (replicate 50 x20);
                HTTP_EVENT_HEADER_SENT;
                HTTP_EVENT_ON_HEADER "Content-Length" "60";
                HTTP_EVENT_ON_DATA (replicate 60 x19);
                HTTP_EVENT_ON_FINISH];
     perform_result := ESP_OK;
     status_code := 200 |}.

Definition redirected_service : http_stack :=
  {| esp_http_client_init := fun _ => true;
     esp_http_client_perform := fun _ => redirected_exchange |}.

Definition two_image_globals : Main.globals :=
  {| Main.s_images := replicate 10 empty_slot;
     Main.s_current_image_index := 0;
     Main.active_image_count := 2;
     Main.image_urls := outlook_urls |}.

(** ** Images, carousel and backlight *)

Section Images.

Import Lvgl.

(** A slot that holds an 11-byte block. *)
Definition short_slot : Main.image_data_t :=
  {| Main.buffer := Some (replicate 11 x19); Main.buffer_size := 11;
     Main.buffer_allocated := 11; Main.img_dsc := zero_dsc;
     Main.is_valid := false; Main.download_timestamp := 0 |}.

Definition short_globals : Main.globals :=
  Main.put_slot 3 short_slot (boot_globals (replicate 10 None)).

(** The 12 header bytes of a container, in the order of the wire format. *)
Definition container_header
    (magic code f0 f1 w0 w1 h0 h1 s0 s1 r0 r1 : byte) : list byte :=
  [magic; code; f0; f1; w0; w1; h0; h1; s0; s1; r0; r1].

(** The slot after a successful decode of a [width] x [height] image of
    format [fmt] at time [now]. *)
Definition decoded_slot (s : Main.image_data_t) (width height : Z)
    (fmt : lv_color_format_t) (now : Z) : Main.image_data_t :=
  {| Main.buffer := Main.buffer s;
     Main.buffer_size := Main.buffer_size s;
     Main.buffer_allocated := Main.buffer_allocated s;
     Main.img_dsc :=
       {| header := {| magic := magic (header (Main.img_dsc s));
                       cf := fmt;
                       flags := flags (header (Main.img_dsc s));
                       w := width; h := height;
                       stride := stride (header (Main.img_dsc s)) |};
          data_size := width * height * Main.bytes_per_pixel fmt;
          data := Some 12 |};
     Main.is_valid := true;
     Main.download_timestamp := now |}.

(** The codes the first [switch] knows. *)
Definition known_color_codes : list Z := [18; 15; 16; 20; 19; 17; 6].

(** Slot [k] is the one valid slot. *)
Definition only_valid_slot (k : Z) (g : Main.globals) : Prop :=
  forall j s,
    Main.s_images g !! j = Some s ->
    (Main.is_valid s = true <-> j = Z.to_nat k).

(** The steps from cursor [c] forward to [k], wrapping at [n]. *)
Definition steps_to (c k n : Z) : Z :=
  if c <=? k then k - c else k - c + n.

(** Ten slots of which only slot [k] is valid. *)
Definition slots_with_valid (k : nat) : list Main.image_data_t :=
  <[k := Main.set_is_valid empty_slot true]> (replicate 10 empty_slot).

Definition carousel (k : nat) (cursor active : Z) : Main.globals :=
  {| Main.s_images := slots_with_valid k;
     Main.s_current_image_index := cursor;
     Main.active_image_count := active;
     Main.image_urls := replicate 10 None |}.

(** The build has a touchscreen or a motion sensor. *)
Definition has_activity_input (cfg : build_config) : bool :=
  ENABLE_TOUCHSCREEN cfg || ENABLE_PIR_BACKLIGHT_TIMER cfg.

(** A build with neither touchscreen nor motion sensor. *)
Definition kiosk_config : build_config :=
  {| CONFIG_ENABLE_TOUCHSCREEN := false;
     CONFIG_ENABLE_PIR_BACKLIGHT_TIMER := false;
     CONFIG_CONVERSION_API_URL := "http://192.168.1.2:8080/convert";
     BSP_LCD_BK_LIGHT_ON_LEVEL := 1 |}.

(** The backlight as [app_main] leaves it: on, timer started. *)
Definition lit : Main.backlight_state :=
  {| Main.backlight_on := true; Main.bk_light_level := 1;
     Main.backlight_timer_active := true |}.

End Images.

(** ** The feed *)

Section Feed.

Import XmlParse.

(** The allocator serves every request of the parse. *)
Definition all_served (mem : nat -> Z -> bool) : Prop :=
  forall k n, mem k n = true.

(** The allocator never refuses the 4096 bytes that [start_elem] asks for a
    description. *)
Definition descriptions_served (mem : nat -> Z -> bool) : Prop :=
  forall k, mem k 4096 = true.

(** An allocator with memory to spare, and one that has none left for a
    description. *)
Definition plenty : nat -> Z -> bool := fun _ _ => true.


(** An event that changes nothing while the parser is in neither a title
    nor a description: character data, and the tags of elements other than
    [item], [title] and [description]. *)
Definition inert_in_item (e : xml_event) : bool :=
  match e with
  | StartElement el | EndElement el =>
      negb (String.eqb el "item") && negb (String.eqb el "title")
      && negb (String.eqb el "description")
  | CharacterData _ => true
  end.

(** An event that changes nothing while the parser is outside every item:
    anything but the tags of [item]. *)
Definition inert_outside (e : xml_event) : bool :=
  match e with
  | StartElement el | EndElement el => negb (String.eqb el "item")
  | CharacterData _ => true
  end.

(** One [<item>] of a feed as expat reports it.  The character data of the
    title and of the description arrive in any number of pieces; other
    elements and text may stand before the title, between title and
    description, after the description, and after the item. *)
Record entry : Type := {
  before_title : list xml_event;
  title_pieces : list string;
  before_description : list xml_event;
  description_pieces : list string;
  after_description : list xml_event;
  after_item : list xml_event
}.

Definition concat_pieces (pieces : list string) : string :=
  foldr String.append EmptyString pieces.

Definition entry_title (e : entry) : string := concat_pieces (title_pieces e).

Definition entry_description (e : entry) : string :=
  concat_pieces (description_pieces e).

Definition entry_events (e : entry) : list xml_event :=
  [StartElement "item"] ++ before_title e
  ++ [StartElement "title"] ++ map CharacterData (title_pieces e)
  ++ [EndElement "title"] ++ before_description e
  ++ [StartElement "description"]
  ++ map CharacterData (description_pieces e)
  ++ [EndElement "description"] ++ after_description e
  ++ [EndElement "item"] ++ after_item e.

(** The padding of an entry is inert and its title fits [ctx.title]. *)
Definition entry_ok (e : entry) : Prop :=
  forallb inert_in_item (before_title e) = true
  /\ forallb inert_in_item (before_description e) = true
  /\ forallb inert_in_item (after_description e) = true
  /\ forallb inert_outside (after_item e) = true
  /\ (String.length (entry_title e) <= 255)%nat.

(** The callbacks for a feed: what precedes the first item, then the
    entries. *)
Definition feed_events (preamble : list xml_event) (entries : list entry)
  : list xml_event :=
  preamble ++ concat (map entry_events entries).

(** An entry without padding whose title and description arrive whole. *)
Definition plain_entry (t d : string) : entry :=
  {| before_title := []; title_pieces := [t]; before_description := [];
     description_pieces := [d]; after_description := []; after_item := [] |}.

Definition rss_preamble : list xml_event :=
  [StartElement "rss"; StartElement "channel";
   StartElement "title"; CharacterData "NHC Atlantic"; EndElement "title"].

(** [src=], a double quote, [url], a double quote. *)
Definition src_attribute (url : string) : string :=
  src_eq_quote +:+ url +:+ String dquote EmptyString.


(** The feed breaks off after a complete item: the preamble, the item, then
    the end of the input where [</channel>] was due. *)
Definition truncated_feed : expat_run :=
  {| callbacks :=
       feed_events rss_preamble
         [plain_entry "Graphics Update"
            ("<img " +:+ src_attribute "http://a/1.png" +:+ " />")];
     status := XML_STATUS_ERROR |}.


(** The value [end_elem] cuts out of a description: what stands between
    the first [src=] with its quote and the next quote. *)
Definition src_value (d : string) : option string :=
  match Libc.strstr d src_eq_quote with
  | Some p =>
      match Libc.strchr (Libc.advance 5 p) dquote with
      | Some q => Some (Libc.terminated_at (Libc.advance 5 p) q)
      | None => None
      end
  | None => None
  end.

(** The URLs an item with title [t] and description [d] contributes. *)
Definition entry_urls (t d : string) : list string :=
  match Libc.strstr t "Graphics", src_value d with
  | Some _, Some url => [url]
  | _, _ => []
  end.

Definition feed_urls (entries : list entry) : list string :=
  flat_map (fun e => entry_urls (entry_title e) (entry_description e)) entries.

(** The parser between two items, with [urls] collected so far. *)
Definition between_items (c : ctx_t) (urls : list string) : Prop :=
  in_item c = false
  /\ in_title c = false
  /\ in_description c = false
  /\ all_urls c = Some urls
  /\ url_count c = Z.of_nat (length urls).

(** The parser inside an item, with the flags for title and description,
    the title and the description stored so far, and [urls] collected. *)
Definition inside_item (c : ctx_t) (ttl desc : bool) (t d : string)
    (urls : list string) : Prop :=
  in_item c = true
  /\ in_title c = ttl
  /\ in_description c = desc
  /\ title c = t
  /\ description c = Some d
  /\ description_size c = Z.of_nat (String.length d)
  /\ all_urls c = Some urls
  /\ url_count c = Z.of_nat (length urls).

(** What the caller of [xml_parse_all_cone_image_urls] gets for [urls]. *)
Definition returned (urls : list string) : option (list string) * Z :=
  match urls with
  | [] => (None, 0)
  | _ => (Some urls, Z.of_nat (length urls))
  end.

(** An item as the NHC feed has them: a title delivered in two pieces, a
    link before the description, the description in three pieces. *)
Definition erin_graphics : entry :=
  {| before_title := [CharacterData " "];
     title_pieces := ["Hurricane Erin "; "Graphics"];
     before_description :=
       [StartElement "link"; CharacterData "http://a/erin";
        EndElement "link"];
     description_pieces :=
       ["<img "; src_attribute "http://a/1.png"; " />"];
     after_description := [StartElement "pubDate"; EndElement "pubDate"];
     after_item := [CharacterData " "] |}.

(** [end_elem] hands [c->description] to [strstr] only when the title
    contains Graphics.  A title is filled only inside an item, and
    [<item>] allocates the description first; as long as that allocation
    is served, the description is [NULL] only while the title is empty. *)
Definition title_needs_description (c : ctx_t) : Prop :=
  description c = None ->
  in_item c = false /\ in_title c = false /\ title c = EmptyString.




(** The characters that a list of callbacks delivers. *)
Definition char_total (evts : list xml_event) : Z :=
  foldr (fun e n => match e with
                    | CharacterData s => Z.of_nat (String.length s) + n
                    | _ => n
                    end) 0 evts.

(** The sizes [description_capacity] takes: 4096 doubled up to 19 times. *)
Definition capacity_ok (cap : Z) : Prop :=
  exists k : nat, (k <= 19)%nat /\ cap = 4096 * 2 ^ Z.of_nat k.

(** What the callbacks keep of the URL array: it holds [url_count] entries
    within its capacity. *)
Definition urls_ok (c : ctx_t) : Prop :=
  exists urls,
    all_urls c = Some urls
    /\ url_count c = Z.of_nat (length urls)
    /\ url_count c <= url_capacity c.

(** What the callbacks keep of the buffers of the context: the title fits
    [title[256]] with its NUL, the URL array is in order, and the
    description with its NUL fits the capacity recorded for it. *)
Definition buffers_ok (c : ctx_t) : Prop :=
  (String.length (title c) <= 255)%nat
  /\ urls_ok c
  /\ match description c with
     | Some d =>
         description_size c = Z.of_nat (String.length d)
         /\ description_size c + 1 <= description_capacity c
         /\ capacity_ok (description_capacity c)
     | None => description_size c = 0
     end.

(** The URLs in the array of a context. *)
Definition collected (c : ctx_t) : list string := default [] (all_urls c).

(** Two contexts that differ in the URL array and in the requests made:
    the one [xml_parse_cone_image_url] works on and the one
    [xml_parse_all_cone_image_urls] works on, after the same callbacks. *)
Definition same_search (c1 c2 : ctx_t) : Prop :=
  in_item c1 = in_item c2
  /\ in_title c1 = in_title c2
  /\ in_description c1 = in_description c2
  /\ title c1 = title c2
  /\ description c1 = description c2
  /\ description_size c1 = description_size c2
  /\ description_capacity c1 = description_capacity c2
  /\ found_url c1 = found_url c2.

End Feed.

(** ** Decoding *)

Section Images2.

Import Lvgl.

(** [buffer_size] counts bytes that the block has. *)
Definition slot_sound (s : Main.image_data_t) : Prop :=
  forall blk,
    Main.buffer s = Some blk ->
    0 <= Main.buffer_size s <= Z.of_nat (length blk).

(** The byte at offset [off] of a block, as the decoder reads it. *)
Definition header_byte (blk : block) (off : nat) : Z :=
  byte_value (default x00 (blk !! off)).

(** The fields of the 12-byte header that the decoder uses. *)
Definition container_width (blk : block) : Z :=
  le16 (header_byte blk 4) (header_byte blk 5).

Definition container_height (blk : block) : Z :=
  le16 (header_byte blk 6) (header_byte blk 7).

Definition container_format (blk : block) : lv_color_format_t :=
  Main.color_format_of_code (header_byte blk 1).

Definition container_payload (blk : block) : Z :=
  container_width blk * container_height blk
  * Main.bytes_per_pixel (container_format blk).

(** The slot holds a container that the decoder accepts: a header, a width
    and a height in 1 .. 4096, and at least the pixels they call for. *)
Definition decodable (s : Main.image_data_t) : bool :=
  match Main.buffer s with
  | Some blk =>
      (12 <=? Main.buffer_size s)
      && (0 <? container_width blk) && (container_width blk <=? 4096)
      && (0 <? container_height blk) && (container_height blk <=? 4096)
      && (container_payload blk + 12 <=? Main.buffer_size s)
  | None => false
  end.

(** The test of [update_image_task] before it decodes a slot. *)
Definition has_data (s : Main.image_data_t) : bool :=
  negb (is_null (Main.buffer s)) && (0 <? Main.buffer_size s).

(** The pixels that the descriptor of a slot announces lie inside the bytes
    the slot has received. *)
Definition descriptor_in_buffer (s : Main.image_data_t) : Prop :=
  exists blk,
    Main.buffer s = Some blk
    /\ data (Main.img_dsc s) = Some 12
    /\ 0 < data_size (Main.img_dsc s)
    /\ 12 + data_size (Main.img_dsc s) <= Main.buffer_size s
       <= Z.of_nat (length blk).

(** What the decoding loop of [update_image_task] makes of one slot. *)
Definition processed (now : Z) (s s' : Main.image_data_t) : Prop :=
  Main.buffer s' = Main.buffer s
  /\ Main.buffer_size s' = Main.buffer_size s
  /\ Main.buffer_allocated s' = Main.buffer_allocated s
  /\ if has_data s
     then Main.is_valid s' = decodable s
          /\ (decodable s = true ->
              descriptor_in_buffer s' /\ Main.download_timestamp s' = now)
     else s' = s.

End Images2.

(** ** Bodies and slots during a download *)

(** The body bytes of a list of events, in order. *)
Definition body_bytes (evts : list esp_http_client_event_t) : list byte :=
  flat_map (fun evt => match evt with
                       | HTTP_EVENT_ON_DATA data => data
                       | _ => []
                       end) evts.

(** A Content-Length header that makes a handler allocate when it has no
    buffer yet: its value does not convert to 0. *)
Definition allocating (evt : esp_http_client_event_t) : bool :=
  match evt with
  | HTTP_EVENT_ON_HEADER key value =>
      (Libc.strcasecmp key "Content-Length" =? 0)
      && (0 <? to_size_t (Libc.atoi value))
  | _ => false
  end.

(** An allocator that serves every request. *)
Definition heap_unlimited (heap : allocator) : Prop :=
  forall n, is_Some (malloc heap n).

(** A slot in the middle of a download: a block of [cap] bytes that starts
    with the [body] received so far. *)
Definition receiving (cap : Z) (body : list byte) (s : Main.image_data_t)
  : Prop :=
  exists blk,
    Main.buffer s = Some blk
    /\ length blk = Z.to_nat cap
    /\ Main.buffer_allocated s = cap
    /\ Main.buffer_size s = Z.of_nat (length body)
    /\ take (length body) blk = body
    /\ Main.is_valid s = false.

(** What [http_download_image] returns after an exchange [x] whose body, as
    stored in the slot, has [n] bytes. *)
Definition image_result (x : http_exchange) (n : Z) : esp_err_t :=
  if perform_result x =? ESP_OK then
    if (status_code x =? 200) && (100 <=? n) then ESP_OK else ESP_FAIL
  else perform_result x.

(** The slot as [reset_image_buffer] leaves it. *)
Definition reset_slot (s : Main.image_data_t) : Main.image_data_t :=
  {| Main.buffer := None; Main.buffer_size := 0; Main.buffer_allocated := 0;
     Main.img_dsc := Main.img_dsc s; Main.is_valid := false;
     Main.download_timestamp := 0 |}.

(** A response that the image handler can take: it carries no header that
    allocates, or one such header, and after it a body of at most the
    announced length plus the 1024 bytes of slack. *)
Definition orderly (evts : list esp_http_client_event_t) : Prop :=
  Forall (fun evt => allocating evt = false) evts
  \/ exists pre key value rest,
       evts = pre ++ HTTP_EVENT_ON_HEADER key value :: rest
       /\ Forall (fun evt => allocating evt = false) pre
       /\ Libc.strcasecmp key "Content-Length" = 0
       /\ 0 < Libc.atoi value
       /\ body_length rest <= Libc.atoi value + 1024.

(** A slot marked valid has a descriptor that lies inside its buffer. *)
Definition slot_safe (s : Main.image_data_t) : Prop :=
  Main.is_valid s = true -> descriptor_in_buffer s.

(** A slot between download and decoding: if it is marked valid it holds
    bytes, which the decoding loop will look at. *)
Definition slot_pending (s : Main.image_data_t) : Prop :=
  slot_sound s /\ (Main.is_valid s = true -> has_data s = true).

(** The globals of a running tracker: ten slots, ten URL entries, a count
    within the tables. *)
Definition tables_ok (g : Main.globals) : Prop :=
  length (Main.s_images g) = 10%nat
  /\ length (Main.image_urls g) = 10%nat
  /\ 0 <= Main.active_image_count g <= MAX_IMAGES.

(** A feed download in progress: a block of [cap] bytes that starts with
    the [body] received so far, closed by a NUL once a byte has arrived. *)
Definition collecting (cap : Z) (body : list byte) (d : http_download_t)
  : Prop :=
  exists blk,
    buffer d = Some blk
    /\ length blk = Z.to_nat cap
    /\ buffer_allocated d = cap
    /\ buffer_size d = Z.of_nat (length body)
    /\ take (length body) blk = body
    /\ (body <> [] -> blk !! length body = Some NUL).

(** What [http_download_xml_feed] returns after an exchange [x] whose body,
    as stored, has [n] bytes. *)
Definition feed_result (x : http_exchange) (n : Z) : esp_err_t :=
  if (perform_result x =? ESP_OK) && (status_code x =? 200) && (0 <? n)
  then ESP_OK else ESP_FAIL.

(** The request [http_download_xml_feed] sends for [url]. *)
Definition feed_request (url : string) : http_request :=
  {| req_url := url; req_method := HTTP_METHOD_GET;
     req_content_type := None; req_post_field := None |}.

(** Slot 0 holds the 14 bytes of [tiny_image] in a block of 1038. *)
Definition tiny_slot : Main.image_data_t :=
  {| Main.buffer := Some (tiny_image ++ replicate 1024 x00);
     Main.buffer_size := 14; Main.buffer_allocated := 1038;
     Main.img_dsc := Lvgl.zero_dsc; Main.is_valid := false;
     Main.download_timestamp := 0 |}.

Definition tiny_globals : Main.globals :=
  Main.put_slot 0 tiny_slot (boot_globals outlook_urls).

(** A feed server that answers with a 5-byte document. *)
Definition short_feed_exchange : http_exchange :=
  {| events := [HTTP_EVENT_ON_CONNECTED;
                HTTP_EVENT_ON_HEADER "Content-Type" "text/xml";
                HTTP_EVENT_ON_HEADER "content-length" "5";
                HTTP_EVENT_ON_DATA [x3c; x61]; HTTP_EVENT_ON_DATA [x2f; x3e; x0a];
                HTTP_EVENT_ON_FINISH];
     perform_result := ESP_OK;
     status_code := 200 |}.

Definition short_feed_service : http_stack :=
  {| esp_http_client_init := fun _ => true;
     esp_http_client_perform := fun _ => short_feed_exchange |}.

(** A server that sends its body in chunks without announcing a length. *)
Definition chunked_exchange : http_exchange :=
  {| events := [HTTP_EVENT_ON_CONNECTED;
                HTTP_EVENT_ON_HEADER "Transfer-Encoding" "chunked";
                HTTP_EVENT_ON_DATA small_image; HTTP_EVENT_ON_FINISH];
     perform_result := ESP_OK;
     status_code := 200 |}.

Definition chunked_service : http_stack :=
  {| esp_http_client_init := fun _ => true;
     esp_http_client_perform := fun _ => chunked_exchange |}.

(** ** The table of image URLs *)

Section Tables.

Import ImageUrls.








End Tables.

(** ** The carousel as the display task runs it *)

(** [s_images[i].is_valid], false outside the table. *)
Definition slot_valid (g : Main.globals) (i : Z) : bool :=
  match Main.slot_at i g with
  | Ret s => Main.is_valid s
  | Fault _ => false
  end.

(** The globals while the carousel runs: ten slots, a count within the
    table and the cursor inside the range that is cycled through. *)
Definition carousel_ok (g : Main.globals) : Prop :=
  length (Main.s_images g) = 10%nat
  /\ Main.active_image_count g <= MAX_IMAGES
  /\ 0 <= Main.s_current_image_index g < Main.images_to_check g.

(** The slot [e] steps after the cursor, wrapping at the end of the range. *)
Definition offset_slot (g : Main.globals) (e : Z) : Z :=
  (Main.s_current_image_index g + e) mod Main.images_to_check g.

(** An image that may be put on the screen: that of a valid slot of the
    range, or the error image when the range has no valid slot. *)
Definition shown_ok (g : Main.globals) (image : Main.image_ref) : Prop :=
  match image with
  | Main.SlotImage i =>
      0 <= i < Main.images_to_check g /\ slot_valid g i = true
  | Main.ErrorImage =>
      forall i, 0 <= i < Main.images_to_check g -> slot_valid g i = false
  end.

(** ** The schedule and the backlight *)

(** Hour [hh] and minute [mm] as [is_nhc_update_time] prints them and
    compares them with its table. *)
Definition matches_table (hh mm : Z) : bool :=
  existsb
    (Schedule.strcmp_eq
       (Schedule.two_digits hh +:+ ":" +:+ Schedule.two_digits mm))
    Schedule.NHC_UPDATE_TIMES.

(** The level of the backlight pin agrees with [backlight_on], and a build
    without activity input has the backlight on. *)
Definition backlight_consistent (cfg : build_config)
    (b : Main.backlight_state) : Prop :=
  Main.bk_light_level b
  = (if Main.backlight_on b then BSP_LCD_BK_LIGHT_ON_LEVEL cfg
     else Main.lnot (BSP_LCD_BK_LIGHT_ON_LEVEL cfg))
  /\ (has_activity_input cfg = false -> Main.backlight_on b = true).

(** ** Time synchronisation *)

Section Time.

Import TimeSync.

(** What holds of a time response between events: the block has
    [buffer_allocated] bytes and the bytes received leave room for the
    NUL after them. *)
Definition response_ok (r : http_response_t) : Prop :=
  match buffer r with
  | Some blk =>
      length blk = Z.to_nat (buffer_allocated r)
      /\ 0 <= buffer_size r <= buffer_allocated r
      /\ (0 < buffer_allocated r -> buffer_size r < buffer_allocated r)
      /\ buffer_allocated r <= 2 ^ 31
  | None => buffer_size r = 0 /\ 0 <= buffer_allocated r
  end.

(** A time response in progress: a block of [cap] bytes that starts with
    the bytes [stored] so far, closed by a NUL once a byte has arrived. *)
Definition storing (cap : Z) (stored : list byte) (r : http_response_t)
  : Prop :=
  exists blk,
    buffer r = Some blk
    /\ length blk = Z.to_nat cap
    /\ buffer_allocated r = cap
    /\ buffer_size r = Z.of_nat (length stored)
    /\ Z.of_nat (length stored) < cap
    /\ take (length stored) blk = stored
    /\ (stored <> [] -> blk !! length stored = Some NUL).

(** The time that attempt [k] of [initialize_worldtime_api] sets the clock
    to, if it sets it: the client is created, the exchange succeeds with
    status 200 and a body, the body is JSON with a numeric [unixtime], and
    [settimeofday] accepts it. *)
Definition attempt_time (heap : allocator) (env : time_env) (k : nat)
  : option Z :=
  let net := stack_at env k in
  let x := esp_http_client_perform net worldtime_request in
  if esp_http_client_init net worldtime_request then
    match dispatch (worldtime_http_event_handler heap) (events x)
            zero_response with
    | Ret response =>
        if (perform_result x =? ESP_OK) && (status_code x =? 200)
           && negb (is_null (buffer response))
           && (0 <? buffer_size response)
        then
          match cJSON_unixtime env (response_text response) with
          | JsonUnixtime unix_time =>
              if settimeofday env unix_time then Some unix_time else None
          | _ => None
          end
        else None
    | Fault _ => None
    end
  else None.

(** The value of [err] after attempt [k] that did not set the clock, given
    its value before. *)
Definition attempt_err (env : time_env) (k : nat) (err : esp_err_t)
  : esp_err_t :=
  let net := stack_at env k in
  if esp_http_client_init net worldtime_request
  then perform_result (esp_http_client_perform net worldtime_request)
  else err.

(** Every exchange of the first ten attempts delivers its body in events of
    at most [INT_MAX] bytes. *)
Definition attempts_fit_int (env : time_env) : Prop :=
  forall k,
    Forall event_fits_int
      (events (esp_http_client_perform (stack_at env k) worldtime_request)).

End Time.

Section Time2.

Import TimeSync.

(** A time service that answers every attempt with the 5-byte body of
    [short_feed_exchange], which cJSON reads as the given lookup. *)
Definition clock_env (found : unixtime_lookup) : time_env :=
  {| stack_at := fun _ => short_feed_service;
     cJSON_unixtime := fun _ => found;
     settimeofday := fun _ => true |}.

End Time2.

(** * Verification *)

(** ** Memory *)

Lemma zeroed_malloc_length (n : Z) (blk : block) :
  zeroed_malloc n = Some blk -> length blk = Z.to_nat n.
Proof. intros [= <-]. apply length_replicate. Qed.

Lemma to_size_t_small (z : Z) :
  0 <= z < SIZE_MAX_PLUS_1 -> to_size_t z = z.
Proof. intros H. unfold to_size_t. now apply Z.mod_small. Qed.

Lemma to_size_t_range (z : Z) : 0 <= to_size_t z < SIZE_MAX_PLUS_1.
Proof. unfold to_size_t. apply Z.mod_pos_bound. reflexivity. Qed.

Lemma memcpy_in_bounds (blk : block) (off : Z) (src : list byte) :
  0 <= off ->
  off + Z.of_nat (length src) <= Z.of_nat (length blk) ->
  exists blk',
    memcpy blk off src = Ret blk'
    /\ length blk' = length blk
    /\ take (Z.to_nat off + length src) blk' = take (Z.to_nat off) blk ++ src.
Proof.
  intros Hoff Hfit. unfold memcpy.
  assert ((0 <=? off) = true) as -> by lia.
  assert ((off + Z.of_nat (length src) <=? Z.of_nat (length blk)) = true)
    as -> by lia.
  simpl. eexists. split; [reflexivity|]. split.
  - rewrite !length_app, length_take, length_drop. lia.
  - rewrite app_assoc. rewrite take_app_length'; [reflexivity|].
    rewrite length_app, length_take. lia.
Qed.

Lemma memcpy_out_of_bounds (blk : block) (off : Z) (src : list byte) :
  Z.of_nat (length blk) < off + Z.of_nat (length src) ->
  memcpy blk off src = Fault OutOfBoundsWrite.
Proof.
  intros H. unfold memcpy.
  assert ((off + Z.of_nat (length src) <=? Z.of_nat (length blk)) = false)
    as -> by lia.
  now rewrite andb_false_r.
Qed.

Lemma store8_in_bounds (blk : block) (off : Z) (b : byte) :
  0 <= off < Z.of_nat (length blk) ->
  exists blk',
    store8 blk off b = Ret blk'
    /\ length blk' = length blk
    /\ take (Z.to_nat off) blk' = take (Z.to_nat off) blk
    /\ blk' !! Z.to_nat off = Some b.
Proof.
  intros H. unfold store8.
  assert ((0 <=? off) = true) as -> by lia.
  assert ((off <? Z.of_nat (length blk)) = true) as -> by lia.
  simpl. eexists. split; [reflexivity|]. split; [|split].
  - apply length_insert.
  - apply take_insert_ge. lia.
  - apply list_lookup_insert_eq. lia.
Qed.

(** ** The generic handler: accumulation of a response body *)

(** Side conditions on sizes: unfold the record at hand and the machine
    constants, then decide. *)
Ltac size_side :=
  unfold data_len in *;
  cbn [buffer buffer_size buffer_allocated] in *;
  change SIZE_MAX_PLUS_1 with 4294967296 in *;
  first [reflexivity | assumption | lia].

Lemma generic_on_content_length (heap : allocator) (d : http_download_t)
    (value : string) (blk : block) :
  buffer d = None ->
  0 < Libc.atoi value ->
  Libc.atoi value + 1024 < SIZE_MAX_PLUS_1 ->
  malloc heap (Libc.atoi value + 1024) = Some blk ->
  generic_http_event_handler heap
    (HTTP_EVENT_ON_HEADER "Content-Length" value) d
  = Ret (ESP_OK, {| buffer := Some blk; buffer_size := 0;
                    buffer_allocated := Libc.atoi value + 1024 |}).
Proof.
  intros Hnull Hpos Hfit Hblk. unfold generic_http_event_handler.
  assert ((Libc.strcasecmp "Content-Length" "Content-Length" =? 0) = true)
    as -> by reflexivity.
  rewrite Hnull. simpl is_null.
  rewrite (to_size_t_small (Libc.atoi value)) by lia.
  rewrite to_size_t_small by lia.
  assert ((0 <? Libc.atoi value) = true) as -> by lia.
  simpl. now rewrite Hblk.
Qed.

Lemma generic_on_data_appends (heap : allocator) (d : http_download_t)
    (blk : block) (data : list byte) :
  buffer d = Some blk ->
  length blk = Z.to_nat (buffer_allocated d) ->
  0 <= buffer_size d ->
  0 < data_len data ->
  buffer_size d + data_len data < buffer_allocated d ->
  buffer_allocated d <= SIZE_MAX_PLUS_1 ->
  exists blk',
    generic_http_event_handler heap (HTTP_EVENT_ON_DATA data) d
    = Ret (ESP_OK, {| buffer := Some blk';
                      buffer_size := buffer_size d + data_len data;
                      buffer_allocated := buffer_allocated d |})
    /\ length blk' = length blk
    /\ take (Z.to_nat (buffer_size d + data_len data)) blk'
       = take (Z.to_nat (buffer_size d)) blk ++ data
    /\ blk' !! Z.to_nat (buffer_size d + data_len data) = Some NUL.
Proof.
  intros Hbuf Hlen Hsize Hdata Hfit Hmax.
  unfold generic_http_event_handler. rewrite Hbuf.
  unfold data_len in *.
  rewrite to_size_t_small by lia.
  assert ((0 <? Z.of_nat (length data)) = true) as -> by lia.
  assert ((buffer_size d + Z.of_nat (length data) <? buffer_allocated d) = true)
    as -> by lia.
  simpl andb. cbv iota.
  destruct (memcpy_in_bounds blk (buffer_size d) data) as (blk1 & -> & Hl1 & Ht1);
    [lia | lia |].
  simpl obind.
  destruct (store8_in_bounds blk1 (buffer_size d + Z.of_nat (length data)) NUL)
    as (blk2 & -> & Hl2 & Ht2 & Hnul); [lia |].
  simpl obind. exists blk2. split; [reflexivity|].
  split; [congruence|]. split; [|exact Hnul].
  rewrite Ht2. rewrite <- Ht1. f_equal. lia.
Qed.

(** C3, as the code has it: a Content-Length of 100 reserves 100 + 1024
    bytes, so data events of 40, 40 and 40 bytes are all stored.  The buffer
    ends with the 120 body bytes in order, followed by a NUL; nothing is
    discarded. *)
Theorem generic_handler_keeps_all_three_chunks
    (heap : allocator) (c1 c2 c3 : list byte) :
  length c1 = 40%nat -> length c2 = 40%nat -> length c3 = 40%nat ->
  is_null (malloc heap (100 + 1024)) = false ->
  exists blk,
    dispatch (generic_http_event_handler heap)
      [HTTP_EVENT_ON_HEADER "Content-Length" "100";
       HTTP_EVENT_ON_DATA c1; HTTP_EVENT_ON_DATA c2; HTTP_EVENT_ON_DATA c3]
      zero_download
    = Ret {| buffer := Some blk; buffer_size := 120;
             buffer_allocated := 1124 |}
    /\ length blk = 1124%nat
    /\ take 120 blk = c1 ++ c2 ++ c3
    /\ blk !! 120%nat = Some NUL.
Proof.
  intros H1 H2 H3 Halloc.
  destruct (malloc heap (100 + 1024)) as [blk0|] eqn:Hblk0; [|discriminate].
  pose proof (malloc_length heap _ _ Hblk0) as Hlen0.
  assert (Libc.atoi "100" = 100) as Hatoi by reflexivity.
  cbn [dispatch].
  rewrite (generic_on_content_length heap zero_download "100" blk0);
    rewrite ?Hatoi; try reflexivity; try assumption.
  cbn [obind snd].
  set (d0 := {| buffer := Some blk0; buffer_size := 0;
                buffer_allocated := 100 + 1024 |}).
  destruct (generic_on_data_appends heap d0 blk0 c1)
    as (blk1 & -> & Hl1 & Ht1 & _); [subst d0; size_side ..|].
  cbn [obind snd].
  set (d1 := {| buffer := Some blk1;
                buffer_size := buffer_size d0 + data_len c1;
                buffer_allocated := buffer_allocated d0 |}).
  destruct (generic_on_data_appends heap d1 blk1 c2)
    as (blk2 & -> & Hl2 & Ht2 & _); [subst d1 d0; size_side ..|].
  cbn [obind snd].
  set (d2 := {| buffer := Some blk2;
                buffer_size := buffer_size d1 + data_len c2;
                buffer_allocated := buffer_allocated d1 |}).
  destruct (generic_on_data_appends heap d2 blk2 c3)
    as (blk3 & -> & Hl3 & Ht3 & Hnul); [subst d2 d1 d0; size_side ..|].
  cbn [obind snd].
  cbn [d2 d1 d0 buffer_size buffer_allocated] in *. unfold data_len in *.
  rewrite H1, H2, H3 in *.
  exists blk3. split; [reflexivity|]. split; [lia|].
  split; [|exact Hnul].
  change (Z.to_nat (0 + Z.of_nat 40 + Z.of_nat 40 + Z.of_nat 40)) with 120%nat
    in Ht3.
  change (Z.to_nat (0 + Z.of_nat 40 + Z.of_nat 40)) with 80%nat in Ht3, Ht2.
  change (Z.to_nat (0 + Z.of_nat 40)) with 40%nat in Ht2, Ht1.
  change (Z.to_nat 0) with 0%nat in Ht1.
  rewrite Ht3, Ht2, Ht1. rewrite take_0. simpl. now rewrite <- !app_assoc.
Qed.

Lemma generic_handler_keeps_all_three_chunks_witness :
  (length (replicate 40 x61) = 40%nat
   /\ length (replicate 40 x62) = 40%nat
   /\ length (replicate 40 x63) = 40%nat
   /\ is_null (malloc zeroed_heap (100 + 1024)) = false)
  /\ exists blk,
       dispatch (generic_http_event_handler zeroed_heap)
         [HTTP_EVENT_ON_HEADER "Content-Length" "100";
          HTTP_EVENT_ON_DATA (replicate 40 x61);
          HTTP_EVENT_ON_DATA (replicate 40 x62);
          HTTP_EVENT_ON_DATA (replicate 40 x63)]
         zero_download
       = Ret {| buffer := Some blk; buffer_size := 120;
                buffer_allocated := 1124 |}
       /\ length blk = 1124%nat
       /\ take 120 blk
          = replicate 40 x61 ++ replicate 40 x62 ++ replicate 40 x63
       /\ blk !! 120%nat = Some NUL.
Proof.
  split.
  - repeat split; reflexivity.
  - apply (generic_handler_keeps_all_three_chunks zeroed_heap
             (replicate 40 x61) (replicate 40 x62) (replicate 40 x63));
      reflexivity.
Defined.

(** C3, as stated, fails: after the three data events the buffer holds 120
    bytes, not 100, and bytes 100 to 119 are the last 20 bytes of the third
    event. *)
Lemma content_length_100_buffer_holds_120_bytes :
  exists d blk,
    dispatch (generic_http_event_handler zeroed_heap)
      [HTTP_EVENT_ON_HEADER "Content-Length" "100";
       HTTP_EVENT_ON_DATA (replicate 40 x61);
       HTTP_EVENT_ON_DATA (replicate 40 x62);
       HTTP_EVENT_ON_DATA (replicate 40 x63)]
      zero_download
    = Ret d
    /\ buffer d = Some blk
    /\ buffer_size d = 120
    /\ buffer_size d <> 100
    /\ take 20 (drop 100 blk) = replicate 20 x63.
Proof.
  eexists _, _. split; [vm_compute; reflexivity|].
  split; [reflexivity|]. split; [reflexivity|].
  split; [discriminate|]. vm_compute. reflexivity.
Qed.

(** ** The generic handler never writes outside its buffer *)

Lemma generic_handler_preserves_ok (heap : allocator)
    (evt : esp_http_client_event_t) (d : http_download_t) :
  heap_bounded heap -> event_fits_int evt -> download_ok d ->
  exists r d',
    generic_http_event_handler heap evt d = Ret (r, d') /\ download_ok d'.
Proof.
  intros Hheap Hevt Hok.
  destruct evt; try (eexists _, _; split; [reflexivity | exact Hok]).
  - (* HTTP_EVENT_ON_HEADER *)
    unfold generic_http_event_handler.
    destruct (Libc.strcasecmp header_key "Content-Length" =? 0);
      [|eexists _, _; split; [reflexivity | exact Hok]].
    destruct ((0 <? to_size_t (Libc.atoi header_value))
              && is_null (buffer d)) eqn:Hcond;
      [|eexists _, _; split; [reflexivity | exact Hok]].
    apply andb_true_iff in Hcond as [_ Hnull].
    unfold download_ok in Hok.
    destruct (buffer d); [discriminate|]. destruct Hok as [Hsize _].
    set (n := to_size_t (to_size_t (Libc.atoi header_value) + 1024)).
    pose proof (to_size_t_range
                  (to_size_t (Libc.atoi header_value) + 1024)) as Hn.
    fold n in Hn.
    destruct (malloc heap n) as [blk|] eqn:Hblk.
    + eexists _, _. split; [reflexivity|]. unfold download_ok. cbn.
      split; [now apply (malloc_length heap)|].
      split; [lia|]. now apply (Hheap n blk).
    + eexists _, _. split; [reflexivity|]. unfold download_ok. cbn.
      split; [assumption | lia].
  - (* HTTP_EVENT_ON_DATA *)
    unfold download_ok in Hok. cbn in Hevt.
    destruct (buffer d) as [blk|] eqn:Hbuf.
    2: { eexists _, _. split.
         - unfold generic_http_event_handler. now rewrite Hbuf.
         - unfold download_ok. now rewrite Hbuf. }
    destruct Hok as (Hlen & Hsize & Hmax).
    assert (0 <= data_len data) as Hdl by (unfold data_len; lia).
    change INT_MAX with 2147483647 in Hevt.
    change (2 ^ 31) with 2147483648 in Hmax.
    destruct (decide (0 < data_len data
                      /\ buffer_size d + data_len data < buffer_allocated d))
      as [[Hpos Hfit]|Hno].
    + destruct (generic_on_data_appends heap d blk data)
        as (blk' & Hrun & Hlen' & _); try assumption; try lia.
      { change SIZE_MAX_PLUS_1 with 4294967296. lia. }
      eexists _, _. split; [exact Hrun|].
      unfold download_ok. cbn. split; [congruence|].
      split; [lia|]. change (2 ^ 31) with 2147483648. lia.
    + eexists _, _. split.
      * unfold generic_http_event_handler. rewrite Hbuf.
        rewrite to_size_t_small
          by (change SIZE_MAX_PLUS_1 with 4294967296; lia).
        destruct (0 <? data_len data) eqn:E1;
          destruct (buffer_size d + data_len data <? buffer_allocated d)
            eqn:E2; cbn; try reflexivity.
        exfalso. apply Hno. lia.
      * unfold download_ok. rewrite Hbuf.
        change (2 ^ 31) with 2147483648. auto.
Qed.

(** X1: on the feed path, whatever events arrive, the generic handler
    stores nothing outside the block it allocated and keeps
    [buffer_size <= buffer_allocated]. *)
Theorem generic_handler_never_overflows (heap : allocator)
    (evts : list esp_http_client_event_t) :
  heap_bounded heap -> Forall event_fits_int evts ->
  exists d,
    dispatch (generic_http_event_handler heap) evts zero_download = Ret d
    /\ 0 <= buffer_size d <= buffer_allocated d
    /\ (forall blk, buffer d = Some blk ->
          length blk = Z.to_nat (buffer_allocated d)).
Proof.
  intros Hheap Hevts.
  assert (download_ok zero_download) as Hok by (unfold download_ok; cbn; lia).
  revert Hok. generalize zero_download as d0.
  induction Hevts as [|evt evts Hevt _ IH]; intros d0 Hok.
  - exists d0. split; [reflexivity|]. unfold download_ok in Hok.
    destruct (buffer d0) as [blk|].
    + destruct Hok as (Hlen & Hsize & _). split; [exact Hsize|].
      now intros blk' [= <-].
    + destruct Hok as [-> Hal]. split; [lia | discriminate].
  - destruct (generic_handler_preserves_ok heap evt d0 Hheap Hevt Hok)
      as (r & d' & Hstep & Hok').
    cbn [dispatch]. rewrite Hstep. cbn [obind snd]. now apply IH.
Qed.

Lemma bounded_malloc_length (n : Z) (blk : block) :
  bounded_malloc n = Some blk -> length blk = Z.to_nat n.
Proof.
  unfold bounded_malloc. destruct (n <=? 2 ^ 31); [|discriminate].
  apply zeroed_malloc_length.
Qed.

Lemma bounded_heap_is_bounded : heap_bounded bounded_heap.
Proof.
  intros n blk. cbn. unfold bounded_malloc.
  destruct (n <=? 2 ^ 31) eqn:E; [lia | discriminate].
Qed.

Lemma generic_handler_never_overflows_witness :
  (heap_bounded bounded_heap
   /\ Forall event_fits_int
        [HTTP_EVENT_ON_HEADER "Content-Length" "3";
         HTTP_EVENT_ON_DATA [x61; x62; x63]; HTTP_EVENT_ON_FINISH])
  /\ exists d,
       dispatch (generic_http_event_handler bounded_heap)
         [HTTP_EVENT_ON_HEADER "Content-Length" "3";
          HTTP_EVENT_ON_DATA [x61; x62; x63]; HTTP_EVENT_ON_FINISH]
         zero_download
       = Ret d
       /\ 0 <= buffer_size d <= buffer_allocated d
       /\ (forall blk, buffer d = Some blk ->
             length blk = Z.to_nat (buffer_allocated d)).
Proof.
  assert (Forall event_fits_int
            [HTTP_EVENT_ON_HEADER "Content-Length" "3";
             HTTP_EVENT_ON_DATA [x61; x62; x63]; HTTP_EVENT_ON_FINISH]) as H.
  { repeat constructor. cbn. discriminate. }
  split; [split; [exact bounded_heap_is_bounded | exact H]|].
  exact (generic_handler_never_overflows bounded_heap _
           bounded_heap_is_bounded H).
Defined.

(** ** The image handler *)

(** C1 on the image path: the image handler has no capacity test.  After the
    first three events slot 0 owns a block of 1034 bytes of which 10 are
    used; the 2000 bytes of the next data event are copied from offset 10
    and run past the end of the block.  The generic handler, given the same
    events, drops the data event and keeps its 10 bytes. *)
Theorem image_handler_writes_past_allocation :
  (exists g s blk,
     dispatch (image_http_event_handler zeroed_heap 0) redirected_headers
       (boot_globals (replicate 10 None))
     = Ret g
     /\ Main.slot_at 0 g = Ret s
     /\ Main.buffer s = Some blk
     /\ length blk = 1034%nat
     /\ Main.buffer_size s = 10
     /\ Main.buffer_allocated s = 1034
     /\ image_http_event_handler zeroed_heap 0 redirected_body g
        = Fault OutOfBoundsWrite)
  /\ dispatch (image_http_event_handler zeroed_heap 0)
       (redirected_headers ++ [redirected_body]) (boot_globals (replicate 10 None))
     = Fault OutOfBoundsWrite
  /\ exists d,
       dispatch (generic_http_event_handler zeroed_heap)
         (redirected_headers ++ [redirected_body]) zero_download
       = Ret d
       /\ buffer_size d = 10 /\ buffer_allocated d = 1034.
Proof.
  split; [|split].
  - eexists _, _, _. split; [vm_compute; reflexivity|].
    repeat (split; [vm_compute; reflexivity|]). vm_compute. reflexivity.
  - vm_compute. reflexivity.
  - eexists. split; [vm_compute; reflexivity|]. split; reflexivity.
Qed.

(** *** Slots *)

Lemma slot_at_in_range (i : Z) (g : Main.globals) :
  0 <= i < MAX_IMAGES -> length (Main.s_images g) = 10%nat ->
  exists s, Main.slot_at i g = Ret s.
Proof.
  intros Hi Hlen. unfold Main.slot_at, MAX_IMAGES in *.
  assert ((0 <=? i) = true) as -> by lia.
  destruct (Main.s_images g !! Z.to_nat i) as [s|] eqn:E; [now exists s|].
  apply lookup_ge_None in E. lia.
Qed.

Lemma slot_at_lookup (i : Z) (g : Main.globals) (s : Main.image_data_t) :
  Main.slot_at i g = Ret s ->
  0 <= i /\ Main.s_images g !! Z.to_nat i = Some s.
Proof.
  unfold Main.slot_at. destruct (0 <=? i) eqn:Hi; [|discriminate].
  destruct (Main.s_images g !! Z.to_nat i) eqn:E; [|discriminate].
  intros [= <-]. split; [lia | reflexivity].
Qed.

Lemma slot_at_put_slot (i : Z) (g : Main.globals)
    (s s' : Main.image_data_t) :
  Main.slot_at i g = Ret s ->
  Main.slot_at i (Main.put_slot i s' g) = Ret s'.
Proof.
  intros H. apply slot_at_lookup in H as [Hi Hs].
  unfold Main.slot_at, Main.put_slot. cbn.
  assert ((0 <=? i) = true) as -> by lia.
  rewrite list_lookup_insert_eq; [reflexivity|].
  now apply lookup_lt_Some in Hs.
Qed.

Lemma length_put_slot (i : Z) (g : Main.globals) (s : Main.image_data_t) :
  length (Main.s_images (Main.put_slot i s g)) = length (Main.s_images g).
Proof. unfold Main.put_slot. cbn. apply length_insert. Qed.

Lemma index_in_range_true (i : Z) :
  0 <= i < MAX_IMAGES -> Main.index_in_range i = true.
Proof. unfold Main.index_in_range, MAX_IMAGES. lia. Qed.

Lemma index_guard_false (i : Z) :
  0 <= i < MAX_IMAGES -> (i <? 0) || (MAX_IMAGES <=? i) = false.
Proof. unfold MAX_IMAGES. lia. Qed.

Lemma get_image_buffer_info_slot (i : Z) (g : Main.globals)
    (s : Main.image_data_t) :
  0 <= i < MAX_IMAGES -> Main.slot_at i g = Ret s ->
  Main.get_image_buffer_info i g
  = Ret (ESP_OK, Some (Main.buffer s, Main.buffer_size s,
                       Main.buffer_allocated s)).
Proof.
  intros Hi Hs. unfold Main.get_image_buffer_info.
  rewrite index_in_range_true by assumption. cbn. now rewrite Hs.
Qed.

Lemma set_image_buffer_info_slot (i : Z) (g : Main.globals)
    (s : Main.image_data_t) (buf : option block) (size allocated : Z)
    (valid : bool) :
  0 <= i < MAX_IMAGES -> Main.slot_at i g = Ret s ->
  Main.set_image_buffer_info i buf size allocated valid g
  = Ret (Main.put_slot i
           {| Main.buffer := buf; Main.buffer_size := size;
              Main.buffer_allocated := allocated;
              Main.img_dsc := Main.img_dsc s; Main.is_valid := valid;
              Main.download_timestamp := Main.download_timestamp s |} g).
Proof.
  intros Hi Hs. unfold Main.set_image_buffer_info.
  rewrite index_in_range_true by assumption. now rewrite Hs.
Qed.

Lemma clamp_int_range (z : Z) : INT_MIN <= Libc.clamp_int z <= INT_MAX.
Proof. unfold Libc.clamp_int, INT_MIN, INT_MAX. lia. Qed.

Lemma atoi_range (s : string) : INT_MIN <= Libc.atoi s <= INT_MAX.
Proof.
  unfold Libc.atoi.
  repeat match goal with
         | |- context [match ?x with _ => _ end] => destruct x
         end; apply clamp_int_range.
Qed.

(** *** Downloads of fewer than 100 bytes *)

Lemma event_bytes_nonneg (evt : esp_http_client_event_t) :
  0 <= event_bytes evt.
Proof. destruct evt; cbn; unfold data_len; lia. Qed.

Lemma body_length_cons (evt : esp_http_client_event_t)
    (evts : list esp_http_client_event_t) :
  body_length (evt :: evts) = event_bytes evt + body_length evts.
Proof. reflexivity. Qed.

Lemma body_length_nonneg (evts : list esp_http_client_event_t) :
  0 <= body_length evts.
Proof.
  induction evts as [|evt evts IH]; [cbn; lia|].
  rewrite body_length_cons. pose proof (event_bytes_nonneg evt). lia.
Qed.

(** The handler returned [r] and left the globals as they were. *)
Ltac keep_state r g s :=
  exists r, g, s;
  split; [reflexivity|]; split; [reflexivity|]; split; assumption.

Lemma image_handler_step (heap : allocator) (i : Z)
    (evt : esp_http_client_event_t) (g : Main.globals)
    (s : Main.image_data_t) (n : Z) :
  0 <= i < MAX_IMAGES ->
  Main.slot_at i g = Ret s ->
  slot_downloading n s ->
  content_length_sane evt ->
  n + event_bytes evt <= 1024 ->
  exists r g' s',
    image_http_event_handler heap i evt g = Ret (r, g')
    /\ length (Main.s_images g') = length (Main.s_images g)
    /\ Main.slot_at i g' = Ret s'
    /\ slot_downloading (n + event_bytes evt) s'.
Proof.
  intros Hi Hs (Hvalid & Hsize & Hblk) Hsane Hfit.
  assert (slot_downloading (n + event_bytes evt) s) as Hkeep.
  { pose proof (event_bytes_nonneg evt).
    split; [assumption|]. split; [lia | assumption]. }
  unfold image_http_event_handler. rewrite index_guard_false by assumption.
  destruct evt as [ | | | header_key header_value | data | | | ];
    try (keep_state ESP_OK g s).
  - (* HTTP_EVENT_ON_HEADER *)
    cbn in Hsane.
    destruct (Libc.strcasecmp header_key "Content-Length" =? 0) eqn:Hkey;
      [|keep_state ESP_OK g s].
    apply Z.eqb_eq in Hkey. specialize (Hsane Hkey).
    pose proof (atoi_range header_value) as Hr.
    change INT_MAX with 2147483647 in Hr.
    rewrite (get_image_buffer_info_slot i g s) by assumption.
    cbn [obind snd default from_option id].
    rewrite (to_size_t_small (Libc.atoi header_value))
      by (change SIZE_MAX_PLUS_1 with 4294967296; lia).
    rewrite to_size_t_small
      by (change SIZE_MAX_PLUS_1 with 4294967296; lia).
    destruct ((0 <? Libc.atoi header_value) && is_null (Main.buffer s))
      eqn:Hcond; [|keep_state ESP_FAIL g s].
    apply andb_true_iff in Hcond as [Hpos Hnull].
    destruct (malloc heap (Libc.atoi header_value + 1024)) as [blk|] eqn:Hm;
      [|keep_state ESP_FAIL g s].
    rewrite (set_image_buffer_info_slot i g s) by assumption.
    cbn [obind]. eexists _, _, _. split; [reflexivity|].
    split; [apply length_put_slot|].
    split; [now apply (slot_at_put_slot i g s)|].
    unfold slot_downloading. cbn. split; [reflexivity|].
    split; [lia|]. split; [now apply (malloc_length heap) | lia].
  - (* HTTP_EVENT_ON_DATA *)
    cbn [event_bytes] in *.
    destruct (0 <? data_len data) eqn:Hpos;
      [|keep_state ESP_OK g s].
    rewrite (get_image_buffer_info_slot i g s) by assumption.
    cbn [obind snd default from_option id].
    destruct (Main.buffer s) as [blk|] eqn:Hbuf;
      [|keep_state ESP_OK g s].
    destruct Hblk as [Hlen Hcap].
    destruct (memcpy_in_bounds blk (Main.buffer_size s) data)
      as (blk' & -> & Hlen' & _); [lia | unfold data_len in *; lia |].
    cbn [obind].
    rewrite (set_image_buffer_info_slot i g s) by assumption.
    cbn [obind]. eexists _, _, _. split; [reflexivity|].
    split; [apply length_put_slot|].
    split; [now apply (slot_at_put_slot i g s)|].
    unfold slot_downloading. cbn. split; [reflexivity|].
    rewrite to_size_t_small
      by (change SIZE_MAX_PLUS_1 with 4294967296;
          unfold data_len in *; lia).
    split; [unfold data_len in *; lia|]. split; [congruence | assumption].
Qed.

Lemma image_dispatch_small_body (heap : allocator) (i : Z)
    (evts : list esp_http_client_event_t) :
  0 <= i < MAX_IMAGES ->
  Forall content_length_sane evts ->
  forall (g : Main.globals) (s : Main.image_data_t) (n : Z),
    Main.slot_at i g = Ret s ->
    slot_downloading n s ->
    n + body_length evts <= 1024 ->
    exists g' s',
      dispatch (image_http_event_handler heap i) evts g = Ret g'
      /\ length (Main.s_images g') = length (Main.s_images g)
      /\ Main.slot_at i g' = Ret s'
      /\ slot_downloading (n + body_length evts) s'.
Proof.
  intros Hi Hsane.
  induction Hsane as [|evt evts Hevt _ IH]; intros g s n Hs Hinv Hfit.
  - exists g, s. change (body_length []) with 0. rewrite Z.add_0_r.
    split; [reflexivity|]. split; [reflexivity|]. split; assumption.
  - rewrite body_length_cons in Hfit.
    pose proof (body_length_nonneg evts) as Hnn.
    destruct (image_handler_step heap i evt g s n)
      as (r & g1 & s1 & Hstep & Hlen1 & Hs1 & Hinv1);
      try assumption; [lia|].
    destruct (IH g1 s1 (n + event_bytes evt))
      as (g2 & s2 & Hrun & Hlen2 & Hs2 & Hinv2);
      try assumption; [lia|].
    exists g2, s2. cbn [dispatch]. rewrite Hstep. cbn [obind snd].
    split; [exact Hrun|]. split; [congruence|]. split; [exact Hs2|].
    rewrite body_length_cons. now rewrite Z.add_assoc.
Qed.

(** C10, as the code has it: whatever the conversion service answers, if
    the data events of the exchange total fewer than 100 bytes and no
    Content-Length is negative, then [http_download_image] returns an error
    and slot [i] is invalid when it returns.  Neither the status code nor
    the result of the exchange needs to be assumed: with status 200 and
    [ESP_OK] the 100-byte test is the branch that rejects. *)
Theorem http_download_image_rejects_small_body
    (heap : allocator) (net : http_stack) (cfg : build_config)
    (i : Z) (g : Main.globals) (url : string) :
  0 <= i < MAX_IMAGES ->
  length (Main.s_images g) = 10%nat ->
  Main.image_urls g !! Z.to_nat i = Some (Some url) ->
  Forall content_length_sane
    (events (esp_http_client_perform net (conversion_request cfg url))) ->
  body_length
    (events (esp_http_client_perform net (conversion_request cfg url))) < 100 ->
  exists r g' s,
    http_download_image heap net cfg i g = Ret (r, g')
    /\ r <> ESP_OK
    /\ Main.slot_at i g' = Ret s
    /\ Main.is_valid s = false.
Proof.
  intros Hi Hlen Hurl Hsane Hbody.
  set (x := esp_http_client_perform net (conversion_request cfg url)) in *.
  destruct (slot_at_in_range i g Hi Hlen) as [s0 Hs0].
  unfold http_download_image. rewrite index_guard_false by assumption.
  unfold Main.reset_image_buffer. rewrite index_in_range_true by assumption.
  rewrite Hs0. cbn [obind].
  set (s1 := {| Main.buffer := None; Main.buffer_size := 0;
                Main.buffer_allocated := 0;
                Main.img_dsc := Main.img_dsc s0; Main.is_valid := false;
                Main.download_timestamp := 0 |}).
  set (g1 := Main.put_slot i s1 g).
  assert (Main.slot_at i g1 = Ret s1) as Hs1
    by (now apply (slot_at_put_slot i g s0)).
  change (Main.image_urls g1) with (Main.image_urls g). rewrite Hurl.
  destruct (malloc heap _) as [post_data|].
  2: { exists ESP_ERR_NO_MEM, g1, s1. now repeat split. }
  fold x.
  destruct (image_dispatch_small_body heap i (events x) Hi Hsane g1 s1 0)
    as (g2 & s2 & -> & _ & Hs2 & Hvalid & Hsize & _).
  { exact Hs1. }
  { unfold slot_downloading, s1. cbn. repeat split; lia. }
  { lia. }
  cbn [obind].
  destruct (perform_result x =? ESP_OK) eqn:Herr.
  2: { exists (perform_result x), g2, s2. apply Z.eqb_neq in Herr.
       now repeat split. }
  rewrite (get_image_buffer_info_slot i g2 s2) by assumption.
  cbn [obind snd default from_option id].
  assert ((Main.buffer_size s2 <? 100) = true) as Hsmall by lia.
  exists ESP_FAIL, g2, s2.
  split; [|split; [discriminate | split; assumption]].
  destruct (negb (status_code x =? 200)); [reflexivity|].
  destruct (negb (is_null (Main.buffer s2)) && (0 <? Main.buffer_size s2));
    [|reflexivity].
  now rewrite Hsmall.
Qed.

Lemma http_download_image_rejects_small_body_witness :
  (0 <= 0 < MAX_IMAGES
   /\ length (Main.s_images (boot_globals outlook_urls)) = 10%nat
   /\ Main.image_urls (boot_globals outlook_urls) !! Z.to_nat 0
      = Some (Some STATIC_IMAGE_URL_0)
   /\ Forall content_length_sane
        (events (esp_http_client_perform tiny_image_service
                   (conversion_request touch_config STATIC_IMAGE_URL_0)))
   /\ body_length
        (events (esp_http_client_perform tiny_image_service
                   (conversion_request touch_config STATIC_IMAGE_URL_0)))
      < 100)
  /\ exists r g' s,
       http_download_image zeroed_heap tiny_image_service touch_config 0
         (boot_globals outlook_urls)
       = Ret (r, g')
       /\ r <> ESP_OK
       /\ Main.slot_at 0 g' = Ret s
       /\ Main.is_valid s = false.
Proof.
  assert (0 <= 0 < MAX_IMAGES) as H1 by (unfold MAX_IMAGES; lia).
  assert (Forall content_length_sane (events tiny_image_exchange)) as H4.
  { repeat constructor. intros _. cbn. discriminate. }
  assert (body_length (events tiny_image_exchange) < 100) as H5
    by reflexivity.
  split; [repeat split; try assumption; reflexivity|].
  exact (http_download_image_rejects_small_body zeroed_heap
           tiny_image_service touch_config 0 (boot_globals outlook_urls)
           STATIC_IMAGE_URL_0 H1 eq_refl eq_refl H4 H5).
Defined.

(** C10, as stated, fails, in two ways.  The bytes of a refused download
    stay in the slot: the 14-byte container of slot 0, a well-formed 1 x 1
    RGB565 image that [http_download_image] refuses, is decoded and marked
    valid by the loop of the update task because the download of slot 1
    made [http_download_all_images] succeed.  And the 100 bytes are counted
    over every data event of the exchange: a status 200 whose body has 60
    bytes is accepted when the response before it on the same handle, here
    a redirect, has left 50 bytes in the buffer. *)
Theorem small_body_enters_a_slot :
  (exists g1 s1,
     http_download_image zeroed_heap mixed_service touch_config 0
       two_image_globals
     = Ret (ESP_FAIL, g1)
     /\ Main.slot_at 0 g1 = Ret s1
     /\ Main.is_valid s1 = false
     /\ Main.buffer_size s1 = 14
     /\ take 14 (default [] (Main.buffer s1)) = tiny_image)
  /\ (exists g2 s2,
        UpdateTask.download_and_process zeroed_heap mixed_service
          touch_config 1756000000 two_image_globals
        = Ret (2, g2)
        /\ Main.slot_at 0 g2 = Ret s2
        /\ Main.is_valid s2 = true
        /\ Main.buffer_size s2 = 14
        /\ take 14 (default [] (Main.buffer s2)) = tiny_image)
  /\ (status_code redirected_exchange = 200
      /\ body_length (drop 5 (events redirected_exchange)) = 60
      /\ exists g3 s3,
           http_download_image zeroed_heap redirected_service touch_config 0
             two_image_globals
           = Ret (ESP_OK, g3)
           /\ Main.slot_at 0 g3 = Ret s3
           /\ Main.buffer_size s3 = 110).
Proof.
  split; [|split].
  - eexists _, _. split; [vm_compute; reflexivity|].
    split; [vm_compute; reflexivity|]. now repeat split.
  - eexists _, _. split; [vm_compute; reflexivity|].
    split; [vm_compute; reflexivity|]. now repeat split.
  - split; [reflexivity|]. split; [reflexivity|].
    eexists _, _. split; [vm_compute; reflexivity|].
    split; [vm_compute; reflexivity|]. reflexivity.
Qed.

(** ** The image decoder *)

Import Lvgl.

Lemma byte_value_range (b : byte) : 0 <= byte_value b < 256.
Proof.
  unfold byte_value. pose proof (Byte.to_N_bounded b). lia.
Qed.

(** [le16] is the little-endian reading of two bytes. *)
Lemma le16_value (lo hi : Z) :
  0 <= lo < 256 -> 0 <= hi -> le16 lo hi = lo + 256 * hi.
Proof.
  intros Hlo Hhi. unfold le16.
  rewrite Z.shiftl_mul_pow2 by lia. change (2 ^ 8) with 256.
  replace (lo + 256 * hi) with (lo + hi * 256) by lia.
  rewrite <- (Z.add_lor_land lo (hi * 256)).
  assert (Z.land lo (hi * 256) = 0) as ->; [|lia].
  apply Z.bits_inj'. intros k Hk. rewrite Z.land_spec, Z.bits_0.
  destruct (Z.lt_ge_cases k 8) as [Hlt|Hge].
  - replace (hi * 256) with (hi * 2 ^ 8) by reflexivity.
    rewrite Z.mul_pow2_bits_low by lia. apply andb_false_r.
  - assert (Z.testbit lo k = false) as ->; [|reflexivity].
    destruct (Z.eq_dec lo 0) as [->|Hnz]; [apply Z.bits_0|].
    apply Z.bits_above_log2; [lia|].
    assert (Z.log2 lo < 8); [|lia].
    apply Z.log2_lt_pow2; [lia|]. change (2 ^ 8) with 256. lia.
Qed.

Lemma bytes_per_pixel_range (f : lv_color_format_t) :
  1 <= Main.bytes_per_pixel f <= 4.
Proof. destruct f; cbn; lia. Qed.

(** C5: a slot whose [buffer_size] is below 12 is rejected with [ESP_FAIL]
    and nothing is changed, so the slot is not marked valid.  The block is
    arbitrary, down to no block or one of zero bytes, where any read would
    be a fault: the decoder returns without reading a byte. *)
Theorem process_downloaded_image_rejects_short_buffer
    (now i : Z) (g : Main.globals) (s : Main.image_data_t) :
  0 <= i < MAX_IMAGES ->
  Main.slot_at i g = Ret s ->
  Main.buffer_size s < 12 ->
  Main.process_downloaded_image now i g = Ret (ESP_FAIL, g).
Proof.
  intros Hi Hs Hsize. unfold Main.process_downloaded_image.
  rewrite index_guard_false by assumption. rewrite Hs. cbn [obind].
  destruct (Main.buffer s) as [blk|]; [|reflexivity].
  destruct (0 <? Main.buffer_size s); [|reflexivity].
  destruct (Main.buffer_size s <? 8); [reflexivity|].
  now assert ((Main.buffer_size s <? 12) = true) as -> by lia.
Qed.

Lemma process_downloaded_image_rejects_short_buffer_witness :
  (0 <= 3 < MAX_IMAGES
   /\ Main.slot_at 3 short_globals = Ret short_slot
   /\ Main.buffer_size short_slot < 12)
  /\ Main.process_downloaded_image 1700000000 3 short_globals
     = Ret (ESP_FAIL, short_globals).
Proof.
  assert (0 <= 3 < MAX_IMAGES) as H1 by (unfold MAX_IMAGES; lia).
  assert (Main.buffer_size short_slot < 12) as H3 by reflexivity.
  split; [split; [exact H1 | split; [reflexivity | exact H3]]|].
  exact (process_downloaded_image_rejects_short_buffer 1700000000 3
           short_globals short_slot H1 eq_refl H3).
Defined.

(** C4: a buffer that starts with any 12 header bytes whose width and height
    lie in (0, 4096] and whose size is width * height * bytes-per-pixel + 12
    decodes with [ESP_OK].  The slot then carries the header's width and
    height, the format of its colour code, a payload that starts at offset
    12 and has width * height * bytes-per-pixel bytes, the time of the
    decode, and [is_valid = true].  The magic byte is any byte.  The last
    part is the table of formats: bytes per pixel of each known code, and
    RGB565 with 2 bytes for every other code. *)
Theorem process_downloaded_image_decodes_exact_container
    (now i : Z) (g : Main.globals) (s : Main.image_data_t)
    (mg cd f0 f1 w0 w1 h0 h1 s0 s1 r0 r1 : byte) (rest : list byte) :
  let width := le16 (byte_value w0) (byte_value w1) in
  let height := le16 (byte_value h0) (byte_value h1) in
  let fmt := Main.color_format_of_code (byte_value cd) in
  0 <= i < MAX_IMAGES ->
  Main.slot_at i g = Ret s ->
  Main.buffer s
  = Some (container_header mg cd f0 f1 w0 w1 h0 h1 s0 s1 r0 r1 ++ rest) ->
  0 < width <= 4096 ->
  0 < height <= 4096 ->
  Main.buffer_size s = width * height * Main.bytes_per_pixel fmt + 12 ->
  (Main.process_downloaded_image now i g
   = Ret (ESP_OK, Main.put_slot i (decoded_slot s width height fmt now) g)
   /\ Main.slot_at i (Main.put_slot i (decoded_slot s width height fmt now) g)
      = Ret (decoded_slot s width height fmt now))
  /\ (map (fun c => Main.bytes_per_pixel (Main.color_format_of_code c))
        known_color_codes
      = [2; 3; 4; 3; 3; 4; 1]
      /\ (byte_value cd ∉ known_color_codes ->
          fmt = LV_COLOR_FORMAT_RGB565 /\ Main.bytes_per_pixel fmt = 2)).
Proof.
  intros width height fmt Hi Hs Hbuf Hw Hh Hsize.
  pose proof (bytes_per_pixel_range fmt) as Hbpp.
  assert (0 < width * height <= 16777216) as Hwh by nia.
  assert (0 < width * height * Main.bytes_per_pixel fmt <= 67108864)
    as Hpayload by nia.
  split; [split|split].
  - unfold Main.process_downloaded_image.
    rewrite index_guard_false by assumption. rewrite Hs. cbn [obind].
    rewrite Hbuf.
    assert ((0 <? Main.buffer_size s) = true) as -> by lia.
    assert ((Main.buffer_size s <? 8) = false) as -> by lia.
    assert ((Main.buffer_size s <? 12) = false) as -> by lia.
    set (blk := container_header _ _ _ _ _ _ _ _ _ _ _ _ ++ rest).
    change (load8 blk 0) with (Ret (byte_value mg)).
    change (load8 blk 1) with (Ret (byte_value cd)).
    change (load16 blk 2) with (Ret (le16 (byte_value f0) (byte_value f1))).
    change (load16 blk 4) with (Ret width).
    change (load16 blk 6) with (Ret height).
    change (load16 blk 8) with (Ret (le16 (byte_value s0) (byte_value s1))).
    change (load16 blk 10) with (Ret (le16 (byte_value r0) (byte_value r1))).
    cbn [obind Main.img_dsc Main.set_img_dsc Main.set_is_valid
         Main.set_download_timestamp Main.buffer_size Main.buffer
         Main.buffer_allocated Main.is_valid Main.download_timestamp
         set_w_h set_cf set_data set_data_size header w h cf data data_size
         magic flags stride].
    assert ((4096 <? width) || (4096 <? height) || (width =? 0)
            || (height =? 0) = false) as -> by lia.
    fold fmt.
    rewrite (to_size_t_small (width * height * Main.bytes_per_pixel fmt))
      by (change SIZE_MAX_PLUS_1 with 4294967296; lia).
    rewrite to_size_t_small
      by (change SIZE_MAX_PLUS_1 with 4294967296; lia).
    assert ((Main.buffer_size s
             <? width * height * Main.bytes_per_pixel fmt + 12) = false)
      as -> by lia.
    reflexivity.
  - now apply (slot_at_put_slot i g s).
  - reflexivity.
  - intros Hunknown. unfold fmt, Main.color_format_of_code.
    unfold known_color_codes in Hunknown.
    rewrite !not_elem_of_cons in Hunknown.
    destruct Hunknown as (H18 & H15 & H16 & H20 & H19 & H17 & H6 & _).
    repeat match goal with
           | H : ?x <> ?c |- context [?x =? ?c] =>
               rewrite (proj2 (Z.eqb_neq x c) H)
           end.
    split; reflexivity.
Qed.

Lemma process_downloaded_image_decodes_exact_container_witness :
  let g := Main.put_slot 0
             {| Main.buffer := Some (tiny_image ++ replicate 1024 x00);
                Main.buffer_size := 14; Main.buffer_allocated := 1038;
                Main.img_dsc := zero_dsc; Main.is_valid := false;
                Main.download_timestamp := 0 |}
             (boot_globals (replicate 10 None)) in
  exists s',
    Main.process_downloaded_image 1700000000 0 g
    = Ret (ESP_OK, Main.put_slot 0 s' g)
    /\ w (header (Main.img_dsc s')) = 1
    /\ h (header (Main.img_dsc s')) = 1
    /\ cf (header (Main.img_dsc s')) = LV_COLOR_FORMAT_RGB565
    /\ data (Main.img_dsc s') = Some 12
    /\ data_size (Main.img_dsc s') = 2
    /\ Main.is_valid s' = true.
Proof.
  intros g. eexists. split.
  - refine (proj1 (proj1
      (process_downloaded_image_decodes_exact_container 1700000000 0 g
         _ x19 x12 x00 x00 x01 x00 x01 x00 x02 x00 x00 x00
         ([xff; xff] ++ replicate 1024 x00) _ eq_refl eq_refl _ _ eq_refl))).
    + unfold MAX_IMAGES. lia.
    + vm_compute. split; [reflexivity | discriminate].
    + vm_compute. split; [reflexivity | discriminate].
  - repeat split; reflexivity.
Defined.

(** ** The carousel *)

Lemma set_cursor_same (g : Main.globals) :
  Main.set_s_current_image_index g (Main.s_current_image_index g) = g.
Proof. now destruct g. Qed.

Lemma images_to_check_range (g : Main.globals) :
  Main.active_image_count g <= MAX_IMAGES ->
  1 <= Main.images_to_check g <= MAX_IMAGES.
Proof.
  unfold Main.images_to_check, MAX_IMAGES.
  destruct (0 <? Main.active_image_count g) eqn:E; lia.
Qed.

Lemma next_cursor_range (c n : Z) :
  0 <= c -> 1 <= n -> 0 <= Z.rem (c + 1) n < n.
Proof. intros Hc Hn. apply Z.rem_bound_pos; lia. Qed.

(** The loop with every slot invalid, from any number of remaining
    iterations: the indices read and the cursor left behind. *)
Lemma next_valid_loop_trace (remaining : nat) (n : Z) :
  1 <= n <= MAX_IMAGES ->
  forall (inspected : list Z) (g : Main.globals),
    length (Main.s_images g) = 10%nat ->
    0 <= Main.s_current_image_index g < n ->
    (forall j s, Main.s_images g !! j = Some s -> Main.is_valid s = false) ->
    Main.next_valid_loop remaining n inspected g
    = Ret (Main.ErrorImage,
           rev (map (fun j => (Main.s_current_image_index g + Z.of_nat j)
                              mod n)
                  (seq 0 remaining))
           ++ inspected,
           Main.set_s_current_image_index g
             ((Main.s_current_image_index g + Z.of_nat remaining) mod n)).
Proof.
  intros Hn. induction remaining as [|remaining IH];
    intros inspected g Hlen Hc Hinvalid.
  - cbn [Main.next_valid_loop seq map rev app].
    rewrite Z.add_0_r, Z.mod_small by lia. now rewrite set_cursor_same.
  - destruct (slot_at_in_range (Main.s_current_image_index g) g)
      as [s Hs]; [unfold MAX_IMAGES in *; lia | assumption |].
    cbn [Main.next_valid_loop]. rewrite Hs. cbn [obind].
    apply slot_at_lookup in Hs as [_ Hs]. rewrite (Hinvalid _ _ Hs).
    set (c := Main.s_current_image_index g) in *.
    assert (Z.rem (c + 1) n = (c + 1) mod n) as Hrem
      by (apply Z.rem_mod_nonneg; lia).
    rewrite IH; cbn [Main.s_images Main.set_s_images
                     Main.set_s_current_image_index
                     Main.s_current_image_index];
      try assumption.
    2: { rewrite Hrem. apply Z.mod_pos_bound. lia. }
    rewrite Hrem. f_equal. f_equal.
    + cbn [seq map rev]. rewrite <- seq_shift, map_map.
      rewrite <- app_assoc. cbn [app].
      rewrite Z.add_0_r, (Z.mod_small c n) by lia.
      apply (f_equal (fun l => (Main.ErrorImage, rev l ++ c :: inspected))).
      apply map_ext. intros j.
      rewrite Zplus_mod_idemp_l. f_equal. lia.
    + f_equal. rewrite Zplus_mod_idemp_l. f_equal. lia.
Qed.

(** The same from a cursor anywhere in the array: the first slot read is
    the one under the cursor, the others follow it modulo [n]. *)
Lemma next_valid_loop_trace_from (remaining : nat) (n : Z)
    (g : Main.globals) :
  1 <= n <= MAX_IMAGES ->
  length (Main.s_images g) = 10%nat ->
  0 <= Main.s_current_image_index g < MAX_IMAGES ->
  (forall j s, Main.s_images g !! j = Some s -> Main.is_valid s = false) ->
  let c := Main.s_current_image_index g in
  Main.next_valid_loop (S remaining) n [] g
  = Ret (Main.ErrorImage,
         rev (c :: map (fun j => (c + Z.of_nat j) mod n) (seq 1 remaining)),
         Main.set_s_current_image_index g
           ((c + Z.of_nat (S remaining)) mod n)).
Proof.
  intros Hn Hlen Hc Hinvalid c.
  destruct (slot_at_in_range c g Hc Hlen) as [s Hs].
  cbn [Main.next_valid_loop]. fold c. rewrite Hs. cbn [obind].
  apply slot_at_lookup in Hs as [_ Hs]. rewrite (Hinvalid _ _ Hs).
  assert (Z.rem (c + 1) n = (c + 1) mod n) as Hrem
    by (apply Z.rem_mod_nonneg; lia).
  rewrite Hrem.
  rewrite next_valid_loop_trace;
    cbn [Main.s_images Main.set_s_images Main.set_s_current_image_index
         Main.s_current_image_index];
    try assumption.
  2: { apply Z.mod_pos_bound. lia. }
  f_equal. f_equal.
  - cbn [rev]. rewrite <- seq_shift, map_map.
    apply (f_equal (fun l => (Main.ErrorImage, rev l ++ [c]))).
    apply map_ext. intros j. rewrite Zplus_mod_idemp_l. f_equal. lia.
  - f_equal. rewrite Zplus_mod_idemp_l. f_equal. lia.
Qed.

(** C7: with every slot invalid, [get_next_valid_image] reads the validity
    of exactly [active_image_count] slots, or of all [MAX_IMAGES] when the
    count is 0: the slot under the cursor first, then the slots that follow
    it modulo that number ([inspected] lists them latest first).  It then
    returns the error image; the slots and the count are untouched, and the
    cursor is left on its starting value modulo that number. *)
Theorem get_next_valid_image_all_invalid (g : Main.globals) :
  length (Main.s_images g) = 10%nat ->
  0 <= Main.s_current_image_index g < MAX_IMAGES ->
  Main.active_image_count g <= MAX_IMAGES ->
  (forall j s, Main.s_images g !! j = Some s -> Main.is_valid s = false) ->
  let n := if 0 <? Main.active_image_count g then Main.active_image_count g
           else MAX_IMAGES in
  let c := Main.s_current_image_index g in
  let inspected :=
    rev (c :: map (fun j => (c + Z.of_nat j) mod n)
                (seq 1 (Z.to_nat n - 1))) in
  Main.get_next_valid_image g
  = Ret (Main.ErrorImage, inspected,
         Main.set_s_current_image_index g (c mod n))
  /\ Z.of_nat (length inspected) = n.
Proof.
  intros Hlen Hc Hactive Hinvalid n c inspected.
  pose proof (images_to_check_range g Hactive) as Hn.
  change (Main.images_to_check g) with n in Hn.
  split.
  - unfold Main.get_next_valid_image.
    change (Main.images_to_check g) with n.
    destruct (Z.to_nat n) as [|remaining] eqn:Hrem; [lia|].
    rewrite (next_valid_loop_trace_from remaining n g Hn Hlen Hc Hinvalid).
    fold c. subst inspected. cbn [Nat.sub]. rewrite Nat.sub_0_r.
    replace (c + Z.of_nat (S remaining)) with (c + 1 * n) by lia.
    now rewrite Z.mod_add by lia.
  - subst inspected.
    rewrite length_rev. cbn [length]. rewrite length_map, length_seq. lia.
Qed.

Lemma boot_globals_all_invalid (urls : list (option string)) (j : nat)
    (s : Main.image_data_t) :
  Main.s_images (boot_globals urls) !! j = Some s -> Main.is_valid s = false.
Proof.
  unfold boot_globals. cbn [Main.s_images]. intros H.
  apply lookup_replicate in H as [-> _]. reflexivity.
Qed.

Lemma get_next_valid_image_all_invalid_witness :
  let g := Main.set_s_current_image_index (boot_globals outlook_urls) 7 in
  (length (Main.s_images g) = 10%nat
   /\ 0 <= Main.s_current_image_index g < MAX_IMAGES
   /\ Main.active_image_count g <= MAX_IMAGES)
  /\ let n := if 0 <? Main.active_image_count g
              then Main.active_image_count g else MAX_IMAGES in
     let c := Main.s_current_image_index g in
     let inspected :=
       rev (c :: map (fun j => (c + Z.of_nat j) mod n)
                   (seq 1 (Z.to_nat n - 1))) in
     Main.get_next_valid_image g
     = Ret (Main.ErrorImage, inspected,
            Main.set_s_current_image_index g (c mod n))
     /\ Z.of_nat (length inspected) = n.
Proof.
  intros g.
  assert (0 <= Main.s_current_image_index g < MAX_IMAGES) as H2
    by (cbn; unfold MAX_IMAGES; lia).
  assert (Main.active_image_count g <= MAX_IMAGES)
    as H3 by (cbn; unfold MAX_IMAGES; lia).
  split; [split; [reflexivity | split; assumption]|].
  exact (get_next_valid_image_all_invalid g eq_refl H2 H3
           (boot_globals_all_invalid outlook_urls)).
Defined.

Lemma next_valid_loop_finds (d : nat) (n k : Z) :
  1 <= n <= MAX_IMAGES -> 0 <= k < n ->
  forall (remaining : nat) (inspected : list Z) (g : Main.globals),
    length (Main.s_images g) = 10%nat ->
    0 <= Main.s_current_image_index g < n ->
    only_valid_slot k g ->
    steps_to (Main.s_current_image_index g) k n = Z.of_nat d ->
    (d < remaining)%nat ->
    exists inspected',
      Main.next_valid_loop remaining n inspected g
      = Ret (Main.SlotImage k, inspected',
             Main.set_s_current_image_index g k)
      /\ length inspected' = (S d + length inspected)%nat.
Proof.
  intros Hn Hk. induction d as [|d IH];
    intros remaining inspected g Hlen Hc Honly Hsteps Hrem;
    (destruct remaining as [|remaining]; [lia|]);
    (destruct (slot_at_in_range (Main.s_current_image_index g) g)
       as [s Hs]; [unfold MAX_IMAGES in *; lia | assumption |]);
    cbn [Main.next_valid_loop]; rewrite Hs; cbn [obind];
    apply slot_at_lookup in Hs as [_ Hs];
    unfold steps_to in Hsteps.
  - assert (Main.s_current_image_index g = k) as Hck
      by (destruct (Main.s_current_image_index g <=? k) eqn:E; lia).
    assert (Main.is_valid s = true) as ->
      by (apply (Honly _ _ Hs); now rewrite Hck).
    exists (Main.s_current_image_index g :: inspected).
    rewrite <- Hck. rewrite set_cursor_same. split; reflexivity.
  - assert (Main.s_current_image_index g <> k) as Hck
      by (destruct (Main.s_current_image_index g <=? k) eqn:E; lia).
    assert (Main.is_valid s = false) as ->.
    { destruct (Main.is_valid s) eqn:Hv; [|reflexivity].
      apply (Honly _ _ Hs) in Hv. lia. }
    set (c := Main.s_current_image_index g) in *.
    assert (Z.rem (c + 1) n = if c + 1 =? n then 0 else c + 1) as Hnext.
    { rewrite Z.rem_mod_nonneg by lia.
      destruct (c + 1 =? n) eqn:E.
      - apply Z.eqb_eq in E. rewrite E. apply Z_mod_same_full.
      - apply Z.mod_small. lia. }
    destruct (IH remaining (c :: inspected)
                (Main.set_s_current_image_index g (Z.rem (c + 1) n)))
      as (inspected' & Hrun & Hcount); cbn; try assumption; try lia.
    + rewrite Hnext. destruct (c + 1 =? n) eqn:E; lia.
    + rewrite Hnext. unfold steps_to.
      destruct (c <=? k) eqn:E1; destruct (c + 1 =? n) eqn:E2;
        [destruct (0 <=? k) eqn:E3 | destruct (c + 1 <=? k) eqn:E3
         | destruct (0 <=? k) eqn:E3 | destruct (c + 1 <=? k) eqn:E3]; lia.
    + exists inspected'. split; [exact Hrun|]. cbn in Hcount. lia.
Qed.

Lemma steps_to_range (c k n : Z) :
  0 <= c < n -> 0 <= k < n -> 0 <= steps_to c k n < n.
Proof. unfold steps_to. destruct (c <=? k) eqn:E; lia. Qed.

(** C6, as the code has it: when the one valid slot [k] and the cursor both
    lie in the range the carousel cycles through (the first
    [active_image_count] slots, or all of them when the count is 0),
    [get_next_valid_image] returns the image of slot [k] and leaves the
    cursor on [k]. *)
Theorem get_next_valid_image_finds_the_valid_slot
    (g : Main.globals) (k : Z) :
  length (Main.s_images g) = 10%nat ->
  Main.active_image_count g <= MAX_IMAGES ->
  only_valid_slot k g ->
  0 <= k < Main.images_to_check g ->
  0 <= Main.s_current_image_index g < Main.images_to_check g ->
  exists inspected,
    Main.get_next_valid_image g
    = Ret (Main.SlotImage k, inspected, Main.set_s_current_image_index g k).
Proof.
  intros Hlen Hactive Honly Hk Hc.
  pose proof (images_to_check_range g Hactive) as Hn.
  pose proof (steps_to_range _ _ _ Hc Hk) as Hd.
  destruct (next_valid_loop_finds
              (Z.to_nat (steps_to (Main.s_current_image_index g) k
                           (Main.images_to_check g)))
              (Main.images_to_check g) k Hn Hk
              (Z.to_nat (Main.images_to_check g)) [] g)
    as (inspected & Hrun & _); try assumption; try lia.
  now exists inspected.
Qed.

Lemma carousel_only_valid_slot (k : nat) (cursor active : Z) :
  (k < 10)%nat -> only_valid_slot (Z.of_nat k) (carousel k cursor active).
Proof.
  intros Hk j s. unfold carousel, slots_with_valid. cbn [Main.s_images].
  rewrite Nat2Z.id. intros Hs.
  destruct (decide (j = k)) as [->|Hne].
  - rewrite list_lookup_insert_eq in Hs
      by (rewrite length_replicate; lia).
    injection Hs as <-. now split.
  - rewrite list_lookup_insert_ne in Hs by congruence.
    apply lookup_replicate in Hs as [-> _]. split; [discriminate | tauto].
Qed.

Lemma get_next_valid_image_finds_the_valid_slot_witness :
  (length (Main.s_images (carousel 1 2 3)) = 10%nat
   /\ Main.active_image_count (carousel 1 2 3) <= MAX_IMAGES
   /\ only_valid_slot 1 (carousel 1 2 3)
   /\ 0 <= 1 < Main.images_to_check (carousel 1 2 3)
   /\ 0 <= Main.s_current_image_index (carousel 1 2 3)
      < Main.images_to_check (carousel 1 2 3))
  /\ exists inspected,
       Main.get_next_valid_image (carousel 1 2 3)
       = Ret (Main.SlotImage 1, inspected,
              Main.set_s_current_image_index (carousel 1 2 3) 1).
Proof.
  assert (Main.active_image_count (carousel 1 2 3) <= MAX_IMAGES) as H2
    by (cbn; unfold MAX_IMAGES; lia).
  assert (only_valid_slot 1 (carousel 1 2 3)) as H3
    by (apply (carousel_only_valid_slot 1 2 3); lia).
  assert (0 <= 1 < Main.images_to_check (carousel 1 2 3)) as H4
    by (cbn; lia).
  assert (0 <= Main.s_current_image_index (carousel 1 2 3)
          < Main.images_to_check (carousel 1 2 3)) as H5 by (cbn; lia).
  split; [exact (conj eq_refl (conj H2 (conj H3 (conj H4 H5))))|].
  exact (get_next_valid_image_finds_the_valid_slot (carousel 1 2 3) 1
           eq_refl H2 H3 H4 H5).
Defined.

(** C6, as stated, fails in two ways.  With two active images and slot 5
    the only valid one, the loop looks at slots 0 and 1 and gives the error
    image.  With three active images, slot 1 the only valid one and the
    cursor left on 4 by a cycle that had more images, the loop looks at
    slots 4, 2 and 0 and gives the error image. *)
Lemma get_next_valid_image_misses_the_valid_slot :
  (only_valid_slot 5 (carousel 5 0 2)
   /\ exists g',
        Main.get_next_valid_image (carousel 5 0 2)
        = Ret (Main.ErrorImage, [1; 0], g'))
  /\ (only_valid_slot 1 (carousel 1 4 3)
      /\ exists g',
           Main.get_next_valid_image (carousel 1 4 3)
           = Ret (Main.ErrorImage, [0; 2; 4], g')).
Proof.
  split; split.
  - apply (carousel_only_valid_slot 5 0 2). lia.
  - eexists. vm_compute. reflexivity.
  - apply (carousel_only_valid_slot 1 4 3). lia.
  - eexists. vm_compute. reflexivity.
Qed.

(** ** The backlight timer *)

Lemma get_backlight_state_true (taken : bool) (b : Main.backlight_state) :
  Main.get_backlight_state taken b = true
  <-> taken = true /\ Main.backlight_on b = true.
Proof.
  unfold Main.get_backlight_state.
  destruct taken, (Main.backlight_on b); cbn; intuition congruence.
Qed.

(** C9, as the code has it.  The handler reads the backlight state under
    the mutex and, with an activity input, writes it under the mutex taken
    a second time; it waits 10 ms for each take.  With an activity input,
    an expiry while the backlight is on turns the backlight off when both
    takes succeed; when the second take times out the backlight stays on
    and the timer stays unarmed.  With no activity input, an expiry never
    changes the backlight and, when the backlight is read as on, arms the
    timer again.  When the first take times out, or the backlight is off,
    the handler changes nothing. *)
Theorem backlight_timer_expiry_asymmetry
    (cfg : build_config) (take_get take_set : bool)
    (b : Main.backlight_state) :
  let b' := Main.backlight_timer_expiry cfg take_get take_set b in
  (has_activity_input cfg = true ->
   Main.backlight_on b = true ->
   take_get = true ->
   (take_set = true ->
    Main.backlight_on b' = false
    /\ Main.bk_light_level b' = Main.lnot (BSP_LCD_BK_LIGHT_ON_LEVEL cfg)
    /\ Main.backlight_timer_active b' = false)
   /\ (take_set = false -> b' = Main.timer_expired b))
  /\ (has_activity_input cfg = false ->
      Main.backlight_on b' = Main.backlight_on b
      /\ Main.bk_light_level b' = Main.bk_light_level b
      /\ (Main.backlight_on b = true ->
          take_get = true ->
          Main.backlight_timer_active b' = true))
  /\ (take_get = false \/ Main.backlight_on b = false ->
      b' = Main.timer_expired b).
Proof.
  intros b'. subst b'.
  unfold Main.backlight_timer_expiry, Main.backlight_timer_callback,
    Main.get_backlight_state, Main.set_backlight_state,
    Main.timer_expired, has_activity_input.
  destruct b as [on level active]. cbn.
  split; [|split].
  - intros -> -> ->. cbn. split; intros ->; now repeat split.
  - intros ->. destruct take_get, on; cbn; repeat split; try reflexivity;
      intros; congruence.
  - intros [-> | ->]; [reflexivity|]. now destruct take_get.
Qed.

Lemma backlight_timer_expiry_asymmetry_witness :
  let b' := Main.backlight_timer_expiry touch_config true true lit in
  (has_activity_input touch_config = true
   /\ Main.backlight_on lit = true)
  /\ Main.backlight_on b' = false
  /\ Main.bk_light_level b' = 0
  /\ Main.backlight_timer_active b' = false.
Proof.
  split; [repeat split|].
  exact (proj1 (proj1 (backlight_timer_expiry_asymmetry touch_config
                         true true lit)
                  eq_refl eq_refl eq_refl) eq_refl).
Defined.

(** C9, as stated, fails in a build with a touchscreen when a take of the
    mutex times out, which the code provides for: whether it is the take
    that reads the state or the take that writes it, the expiry leaves the
    backlight on, and the one-shot timer is not armed again. *)
Lemma backlight_timer_expiry_with_busy_mutex :
  has_activity_input touch_config = true
  /\ Main.backlight_on lit = true
  /\ Main.backlight_on (Main.backlight_timer_expiry touch_config false true lit)
     = true
  /\ Main.backlight_on (Main.backlight_timer_expiry touch_config true false lit)
     = true
  /\ Main.backlight_timer_active
       (Main.backlight_timer_expiry touch_config true false lit)
     = false.
Proof. repeat split. Qed.

(** ** The feed parser *)

Import XmlParse.

Lemma run_callbacks_app (mem : nat -> Z -> bool) (a b : list xml_event)
    (c : ctx_t) :
  run_callbacks mem (a ++ b) c
  = (c' <-- run_callbacks mem a c ;; run_callbacks mem b c').
Proof.
  revert c. induction a as [|e a IH]; intros c; [reflexivity|].
  cbn [app run_callbacks]. destruct (handle mem c e); [apply IH | reflexivity].
Qed.

Lemma allocate_served (mem : nat -> Z -> bool) (c : ctx_t) (n : Z) :
  all_served mem -> allocate mem c n = (true, requested c).
Proof. intros H. unfold allocate. now rewrite H. Qed.

(** *** The description is allocated before a title can match *)

Lemma end_elem_description (mem : nat -> Z -> bool) (c c' : ctx_t)
    (el : string) :
  end_elem mem c el = Ret c' -> description c' = description c.
Proof.
  destruct c as [ii it id ttl desc dsz dcap fu au uc ucap pr rq].
  unfold end_elem, add_url_to_array, store_url, allocate.
  cbn [title description found_url all_urls url_capacity url_count
       printf set_found_url requested requests].
  repeat match goal with
         | |- context [if ?b then _ else _] => destruct b
         | |- context [match ?x with _ => _ end] => destruct x
         end; cbn; intros [= <-]; reflexivity.
Qed.

Lemma handle_keeps_description (mem : nat -> Z -> bool) (c c' : ctx_t)
    (e : xml_event) :
  handle mem c e = Ret c' ->
  is_null (description c) = false ->
  is_null (description c') = false.
Proof.
  destruct e as [el|el|s]; cbn [handle].
  - intros [= <-] Hd. unfold start_elem.
    destruct (String.eqb el "item").
    + cbn [description set_title set_flags]. rewrite Hd. reflexivity.
    + destruct (in_item c && String.eqb el "title"); [exact Hd|].
      destruct (in_item c && String.eqb el "description"); exact Hd.
  - intros Hrun. now rewrite (end_elem_description mem c c' el Hrun).
  - intros [= <-].
    destruct c as [ii it id ttl desc dsz dcap fu au uc ucap pr rq].
    unfold char_data, allocate.
    cbn [in_title in_description description title requests].
    intros Hd. destruct it; [destruct (0 <? _); exact Hd|].
    destruct desc; [|discriminate]. destruct id; [|reflexivity].
    destruct (_ <? _); [|reflexivity].
    destruct (mem rq _); reflexivity.
Qed.

Lemma handle_keeps_title_needs_description (mem : nat -> Z -> bool)
    (c c' : ctx_t) (e : xml_event) :
  descriptions_served mem ->
  title_needs_description c ->
  handle mem c e = Ret c' ->
  title_needs_description c'.
Proof.
  unfold title_needs_description. intros Hmem Hinv Hrun Hnone.
  destruct (description c) as [d|] eqn:Hd.
  - pose proof (handle_keeps_description mem c c' e Hrun) as Hkeep.
    rewrite Hd, Hnone in Hkeep. discriminate (Hkeep eq_refl).
  - destruct (Hinv eq_refl) as (Hi & Ht & Httl). clear Hinv.
    destruct c as [ii it id ttl desc dsz dcap fu au uc ucap pr rq].
    cbn [description in_item in_title title] in *. subst ii it ttl desc.
    destruct e as [el|el|s]; cbn [handle] in *.
    + injection Hrun as <-. unfold start_elem, allocate in *.
      destruct (String.eqb el "item"); [|now repeat split].
      cbn in Hnone. rewrite Hmem in Hnone. discriminate Hnone.
    + unfold end_elem in Hrun.
      destruct (String.eqb el "item"); [cbn in Hrun|].
      * injection Hrun as <-. now repeat split.
      * destruct (String.eqb el "title"); [injection Hrun as <-|].
        -- now repeat split.
        -- destruct (String.eqb el "description"); injection Hrun as <-;
             now repeat split.
    + injection Hrun as <-. now repeat split.
Qed.

(** With its description requests served, a callback does not fault. *)
Lemma handle_returns (mem : nat -> Z -> bool) (c : ctx_t) (e : xml_event) :
  title_needs_description c ->
  exists c', handle mem c e = Ret c'.
Proof.
  intros Hinv. destruct e as [el|el|s]; cbn [handle]; try (now eexists).
  unfold end_elem. destruct (String.eqb el "item").
  - destruct (Libc.strstr (title c) "Graphics") as [g|] eqn:Hg;
      [|cbn; now eexists].
    destruct (description c) as [d|] eqn:Hd.
    + repeat match goal with
             | |- context [match ?x with _ => _ end] => destruct x
             end; cbn; now eexists.
    + destruct (Hinv Hd) as (_ & _ & Httl). rewrite Httl in Hg.
      discriminate Hg.
  - destruct (String.eqb el "title"); [now eexists|].
    destruct (String.eqb el "description"); now eexists.
Qed.

Lemma run_callbacks_returns (mem : nat -> Z -> bool)
    (evts : list xml_event) :
  descriptions_served mem ->
  forall c : ctx_t,
    title_needs_description c ->
    exists c',
      run_callbacks mem evts c = Ret c' /\ title_needs_description c'.
Proof.
  intros Hmem. induction evts as [|e evts IH]; intros c Hc.
  - now exists c.
  - destruct (handle_returns mem c e Hc) as [c1 H1].
    cbn [run_callbacks]. rewrite H1. cbn [obind]. apply IH.
    now apply (handle_keeps_title_needs_description mem c c1 e).
Qed.

Lemma collecting_ctx_needs_description :
  title_needs_description collecting_ctx.
Proof. intros _. now repeat split. Qed.

Lemma zero_ctx_needs_description : title_needs_description zero_ctx.
Proof. intros _. now repeat split. Qed.

(** The only fault of a callback is the [NULL] description handed to
    [strstr]. *)
Lemma handle_fault (mem : nat -> Z -> bool) (c : ctx_t) (e : xml_event)
    (f : fault) :
  handle mem c e = Fault f ->
  f = NullDereference
  /\ description c = None
  /\ Libc.strstr (title c) "Graphics" <> None.
Proof.
  destruct e as [el|el|s]; cbn [handle]; try discriminate.
  unfold end_elem. destruct (String.eqb el "item").
  - destruct (Libc.strstr (title c) "Graphics") as [g|] eqn:Hg;
      [|discriminate].
    destruct (description c) as [d|] eqn:Hd.
    + repeat match goal with
             | |- context [match ?x with _ => _ end] => destruct x
             end; cbn; discriminate.
    + cbn. intros [= <-]. now repeat split.
  - destruct (String.eqb el "title"); [discriminate|].
    destruct (String.eqb el "description"); discriminate.
Qed.

Lemma run_callbacks_fault (mem : nat -> Z -> bool) (evts : list xml_event)
    (f : fault) :
  forall c : ctx_t,
    run_callbacks mem evts c = Fault f -> f = NullDereference.
Proof.
  induction evts as [|e evts IH]; intros c; [discriminate|].
  cbn [run_callbacks]. destruct (handle mem c e) as [c1|f1] eqn:H1.
  - apply IH.
  - cbn. intros [= <-]. now apply (handle_fault mem c e).
Qed.

Lemma xml_parse_all_cone_image_urls_unfold (mem : nat -> Z -> bool)
    (run : expat_run) :
  xml_parse_all_cone_image_urls mem run
  = if mem 0%nat 16 then
      r <-- XML_Parse mem collecting_ctx run ;;
      match fst r with
      | XML_STATUS_ERROR => Ret (None, 0)
      | XML_STATUS_OK =>
          if url_count (snd r) =? 0 then Ret (None, url_count (snd r))
          else Ret (all_urls (snd r), url_count (snd r))
      end
    else Ret (None, 0).
Proof.
  unfold xml_parse_all_cone_image_urls, allocate.
  change (mem (requests zero_ctx) (to_size_t (4 * sizeof_pointer)))
    with (mem 0%nat 16).
  destruct (mem 0%nat 16); [|reflexivity].
  change (set_urls (requested zero_ctx) (Some []) 0 4) with collecting_ctx.
  destruct (XML_Parse mem collecting_ctx run) as [[st ctx]|]; reflexivity.
Qed.






Lemma plenty_served : all_served plenty.
Proof. intros k n. reflexivity. Qed.



(** *** Strings *)

Lemma append_nil (b : string) : EmptyString +:+ b = b.
Proof. reflexivity. Qed.

Lemma append_cons (x : ascii) (a b : string) :
  String x a +:+ b = String x (a +:+ b).
Proof. reflexivity. Qed.

Lemma append_assoc (a b c : string) : (a +:+ b) +:+ c = a +:+ (b +:+ c).
Proof.
  induction a as [|x a IH]; [reflexivity|].
  rewrite !append_cons. now rewrite IH.
Qed.

Lemma length_append (a b : string) :
  String.length (a +:+ b) = (String.length a + String.length b)%nat.
Proof.
  induction a as [|x a IH]; [reflexivity|].
  rewrite append_cons. cbn. now rewrite IH.
Qed.









Lemma substring_0_length (s : string) :
  String.substring 0 (String.length s) s = s.
Proof. induction s as [|x s IH]; cbn; [reflexivity | now rewrite IH]. Qed.


(** *** The callbacks, one kind at a time *)

Lemma append_nil_r (a : string) : a +:+ EmptyString = a.
Proof.
  induction a as [|x a IH]; [reflexivity|].
  rewrite append_cons. now rewrite IH.
Qed.

Lemma set_title_same (c : ctx_t) : set_title c (title c) = c.
Proof. now destruct c. Qed.

(** Elements other than [item], [title] and [description] leave the
    context alone when they open and when they close. *)
Lemma start_elem_other (mem : nat -> Z -> bool) (c : ctx_t) (el : string) :
  String.eqb el "item" = false ->
  String.eqb el "title" = false ->
  String.eqb el "description" = false ->
  start_elem mem c el = c.
Proof.
  intros H1 H2 H3. unfold start_elem.
  now rewrite H1, H2, H3, !andb_false_r.
Qed.

Lemma end_elem_other (mem : nat -> Z -> bool) (c : ctx_t) (el : string) :
  String.eqb el "item" = false ->
  String.eqb el "title" = false ->
  String.eqb el "description" = false ->
  end_elem mem c el = Ret c.
Proof. intros H1 H2 H3. unfold end_elem. now rewrite H1, H2, H3. Qed.

Lemma char_data_ignored (mem : nat -> Z -> bool) (c : ctx_t) (s : string) :
  in_title c = false -> in_description c = false -> char_data mem c s = c.
Proof.
  intros Ht Hd. unfold char_data. rewrite Ht, Hd.
  now destruct (description c).
Qed.

Lemma handle_inert_in_item (mem : nat -> Z -> bool) (c : ctx_t)
    (e : xml_event) :
  in_title c = false -> in_description c = false ->
  inert_in_item e = true -> handle mem c e = Ret c.
Proof.
  intros Ht Hd He. destruct e as [el|el|s]; cbn [handle inert_in_item] in *.
  - apply andb_true_iff in He as [He H3].
    apply andb_true_iff in He as [H1 H2].
    apply negb_true_iff in H1, H2, H3. now rewrite start_elem_other.
  - apply andb_true_iff in He as [He H3].
    apply andb_true_iff in He as [H1 H2].
    apply negb_true_iff in H1, H2, H3. now apply end_elem_other.
  - now rewrite char_data_ignored.
Qed.

Lemma handle_inert_outside (mem : nat -> Z -> bool) (c : ctx_t)
    (e : xml_event) :
  in_item c = false -> in_title c = false -> in_description c = false ->
  inert_outside e = true -> handle mem c e = Ret c.
Proof.
  intros Hi Ht Hd He. destruct e as [el|el|s]; cbn [handle inert_outside] in *.
  - apply negb_true_iff in He. unfold start_elem. rewrite He, Hi. reflexivity.
  - apply negb_true_iff in He. unfold end_elem. rewrite He.
    destruct c as [ii it id ttl desc dsz dcap fu au uc ucap pr rq].
    cbn in Hi, Ht, Hd. subst ii it id.
    destruct (String.eqb el "title"); [reflexivity|].
    destruct (String.eqb el "description"); reflexivity.
  - now rewrite char_data_ignored.
Qed.

Lemma run_inert_in_item (mem : nat -> Z -> bool) (pad : list xml_event)
    (c : ctx_t) :
  in_title c = false -> in_description c = false ->
  forallb inert_in_item pad = true -> run_callbacks mem pad c = Ret c.
Proof.
  intros Ht Hd. induction pad as [|e pad IH]; [reflexivity|].
  cbn [forallb run_callbacks]. intros He.
  apply andb_true_iff in He as [He Hpad].
  rewrite handle_inert_in_item by assumption. now apply IH.
Qed.

Lemma run_inert_outside (mem : nat -> Z -> bool) (pad : list xml_event)
    (c : ctx_t) :
  in_item c = false -> in_title c = false -> in_description c = false ->
  forallb inert_outside pad = true -> run_callbacks mem pad c = Ret c.
Proof.
  intros Hi Ht Hd. induction pad as [|e pad IH]; [reflexivity|].
  cbn [forallb run_callbacks]. intros He.
  apply andb_true_iff in He as [He Hpad].
  rewrite handle_inert_outside by assumption. now apply IH.
Qed.

(** Character data in a title is appended while it fits the 255 characters
    that [ctx.title] holds before its NUL. *)
Lemma char_data_title (mem : nat -> Z -> bool) (c : ctx_t) (s : string) :
  in_title c = true ->
  (String.length (title c) + String.length s <= 255)%nat ->
  char_data mem c s = set_title c (title c +:+ s).
Proof.
  intros Hin Hfit. unfold char_data. rewrite Hin.
  rewrite to_size_t_small
    by (change SIZE_MAX_PLUS_1 with 4294967296; lia).
  destruct (0 <? 256 - Z.of_nat (String.length (title c)) - 1) eqn:Havail.
  - assert (Z.to_nat
              (if Z.of_nat (String.length s)
                  <? 256 - Z.of_nat (String.length (title c)) - 1
               then Z.of_nat (String.length s)
               else 256 - Z.of_nat (String.length (title c)) - 1)
            = String.length s) as ->.
    { destruct (Z.of_nat (String.length s)
                <? 256 - Z.of_nat (String.length (title c)) - 1) eqn:E; lia. }
    now rewrite substring_0_length.
  - assert (String.length s = 0%nat) as Hs by lia.
    destruct s; [|discriminate].
    now rewrite append_nil_r, set_title_same.
Qed.

(** *** Items *)

Lemma start_item (mem : nat -> Z -> bool) (c : ctx_t) (urls : list string) :
  all_served mem ->
  between_items c urls ->
  inside_item (start_elem mem c "item") false false EmptyString EmptyString
    urls.
Proof.
  intros Hmem (Hi & Ht & Hd & Hurls & Hcount).
  unfold start_elem. change (String.eqb "item" "item") with true. cbv iota.
  destruct c as [ii it id ttl desc dsz dcap fu au uc ucap pr rq].
  cbn in Hi, Ht, Hd, Hurls, Hcount. subst ii it id au uc.
  cbn [description set_title set_flags in_title in_description].
  destruct desc as [d|]; cbn [is_null].
  - now repeat split.
  - rewrite allocate_served by assumption. now repeat split.
Qed.

Lemma open_title (mem : nat -> Z -> bool) (c : ctx_t) (desc : bool)
    (t d : string) (urls : list string) :
  inside_item c false desc t d urls ->
  inside_item (start_elem mem c "title") true desc t d urls.
Proof.
  intros (Hi & Ht & Hd & Hrest). unfold start_elem.
  change (String.eqb "title" "item") with false.
  change (String.eqb "title" "title") with true. rewrite Hi. cbn [andb].
  cbv iota. repeat split; try assumption; tauto.
Qed.

Lemma open_description (mem : nat -> Z -> bool) (c : ctx_t)
    (t d : string) (urls : list string) :
  inside_item c false false t d urls ->
  inside_item (start_elem mem c "description") false true t d urls.
Proof.
  intros (Hi & Ht & Hd & Hrest). unfold start_elem.
  change (String.eqb "description" "item") with false.
  change (String.eqb "description" "title") with false.
  change (String.eqb "description" "description") with true.
  rewrite Hi. cbn [andb]. cbv iota. repeat split; try assumption; tauto.
Qed.

Lemma close_title (mem : nat -> Z -> bool) (c : ctx_t) (ttl desc : bool)
    (t d : string) (urls : list string) :
  inside_item c ttl desc t d urls ->
  exists c',
    end_elem mem c "title" = Ret c'
    /\ inside_item c' false desc t d urls.
Proof.
  intros (Hi & Ht & Hd & Hrest). unfold end_elem.
  change (String.eqb "title" "item") with false.
  change (String.eqb "title" "title") with true. cbv iota.
  eexists. split; [reflexivity|]. repeat split; try assumption; tauto.
Qed.

Lemma close_description (mem : nat -> Z -> bool) (c : ctx_t)
    (ttl desc : bool) (t d : string) (urls : list string) :
  inside_item c ttl desc t d urls ->
  exists c',
    end_elem mem c "description" = Ret c'
    /\ inside_item c' ttl false t d urls.
Proof.
  intros (Hi & Ht & Hd & Hrest). unfold end_elem.
  change (String.eqb "description" "item") with false.
  change (String.eqb "description" "title") with false.
  change (String.eqb "description" "description") with true. cbv iota.
  eexists. split; [reflexivity|]. repeat split; try assumption; tauto.
Qed.

Lemma title_run (mem : nat -> Z -> bool) (pieces : list string) :
  forall (c : ctx_t) (desc : bool) (t d : string) (urls : list string),
    inside_item c true desc t d urls ->
    (String.length t + String.length (concat_pieces pieces) <= 255)%nat ->
    exists c',
      run_callbacks mem (map CharacterData pieces) c = Ret c'
      /\ inside_item c' true desc (t +:+ concat_pieces pieces) d urls.
Proof.
  induction pieces as [|s pieces IH]; intros c desc t d urls Hc Hfit.
  - exists c. split; [reflexivity|]. cbn [concat_pieces foldr].
    now rewrite append_nil_r.
  - cbn [map run_callbacks handle concat_pieces foldr] in *.
    fold (concat_pieces pieces) in *.
    rewrite length_append in Hfit.
    destruct Hc as (Hi & Ht & Hd & Httl & Hrest).
    rewrite char_data_title by (rewrite ?Httl; assumption || lia).
    cbn [obind]. rewrite Httl.
    destruct (IH (set_title c (t +:+ s)) desc (t +:+ s) d urls)
      as (c' & Hrun & Hc').
    + repeat split; try assumption; tauto.
    + rewrite length_append. lia.
    + exists c'. split; [exact Hrun|]. now rewrite <- append_assoc.
Qed.

(** Character data in a description is appended to it. *)
Lemma char_data_description (mem : nat -> Z -> bool) (c : ctx_t)
    (s t d : string) (urls : list string) :
  all_served mem ->
  inside_item c false true t d urls ->
  inside_item (char_data mem c s) false true t (d +:+ s) urls.
Proof.
  intros Hmem (Hi & Ht & Hd & Httl & Hdesc & Hsize & Hurls & Hcount).
  assert (Z.of_nat (String.length d) + Z.of_nat (String.length s)
          = Z.of_nat (String.length (d +:+ s))) as Hlen
    by (rewrite length_append; lia).
  unfold char_data. rewrite Ht, Hdesc, Hd, Hsize.
  destruct (description_capacity c <? _);
    [rewrite allocate_served by assumption|];
    unfold inside_item;
    cbn [in_item in_title in_description title description description_size
         all_urls url_count set_description requested];
    rewrite ?Hsize, Nat2Z.id, substring_0_length, Hlen;
    now repeat split.
Qed.

Lemma description_run (mem : nat -> Z -> bool) (pieces : list string) :
  all_served mem ->
  forall (c : ctx_t) (t d : string) (urls : list string),
    inside_item c false true t d urls ->
    exists c',
      run_callbacks mem (map CharacterData pieces) c = Ret c'
      /\ inside_item c' false true t (d +:+ concat_pieces pieces) urls.
Proof.
  intros Hmem.
  induction pieces as [|s pieces IH]; intros c t d urls Hc.
  - exists c. split; [reflexivity|]. cbn [concat_pieces foldr].
    now rewrite append_nil_r.
  - cbn [map run_callbacks handle concat_pieces foldr obind].
    fold (concat_pieces pieces).
    destruct (IH (char_data mem c s) t (d +:+ s) urls) as (c' & Hrun & Hc').
    + now apply char_data_description.
    + exists c'. split; [exact Hrun|]. now rewrite <- append_assoc.
Qed.

Lemma store_url_served (mem : nat -> Z -> bool) (c : ctx_t) (url : string)
    (urls : list string) :
  all_served mem ->
  all_urls c = Some urls ->
  url_count c = Z.of_nat (length urls) ->
  all_urls (store_url mem c url) = Some (urls ++ [url])
  /\ url_count (store_url mem c url) = Z.of_nat (length (urls ++ [url]))
  /\ url_capacity (store_url mem c url) = url_capacity c
  /\ in_title (store_url mem c url) = in_title c
  /\ in_description (store_url mem c url) = in_description c
  /\ found_url (store_url mem c url) = found_url c.
Proof.
  intros Hmem Hurls Hcount. unfold store_url.
  rewrite allocate_served by assumption.
  cbn [all_urls url_count url_capacity set_urls requested in_title
       in_description found_url].
  rewrite Hurls, Hcount. cbn [default from_option id].
  rewrite Nat2Z.id, take_ge, length_app by lia.
  repeat split. cbn [length]. lia.
Qed.

Lemma add_url_to_array_served (mem : nat -> Z -> bool) (c : ctx_t)
    (url : string) (urls : list string) :
  all_served mem ->
  all_urls c = Some urls ->
  url_count c = Z.of_nat (length urls) ->
  all_urls (add_url_to_array mem c url) = Some (urls ++ [url])
  /\ url_count (add_url_to_array mem c url)
     = Z.of_nat (length (urls ++ [url]))
  /\ in_title (add_url_to_array mem c url) = in_title c
  /\ in_description (add_url_to_array mem c url) = in_description c
  /\ found_url (add_url_to_array mem c url) = found_url c.
Proof.
  intros Hmem Hurls Hcount. unfold add_url_to_array.
  destruct (url_capacity c <=? url_count c).
  - rewrite allocate_served by assumption.
    destruct (store_url_served mem
                (set_urls (requested c)
                   (Some (default [] (all_urls (requested c))))
                   (url_count (requested c))
                   (if url_capacity c =? 0 then 4 else url_capacity c * 2))
                url urls Hmem)
      as (H1 & H2 & H3 & H4 & H5 & H6).
    + cbn [all_urls set_urls requested]. now rewrite Hurls.
    + exact Hcount.
    + now repeat split.
  - destruct (store_url_served mem c url urls Hmem Hurls Hcount)
      as (H1 & H2 & H3 & H4 & H5 & H6).
    now repeat split.
Qed.

(** [</item>] on a context that holds title and description: the URL of a
    qualifying item is appended, nothing else is. *)
Lemma end_item_collects (mem : nat -> Z -> bool) (c : ctx_t)
    (t d : string) (urls : list string) :
  all_served mem ->
  inside_item c false false t d urls ->
  exists c',
    end_elem mem c "item" = Ret c'
    /\ between_items c' (urls ++ entry_urls t d).
Proof.
  intros Hmem (Hi & Ht & Hd & Httl & Hdesc & Hsize & Hurls & Hcount).
  unfold entry_urls, src_value.
  unfold end_elem. change (String.eqb "item" "item") with true. cbv iota.
  rewrite Httl, Hdesc.
  destruct (Libc.strstr t "Graphics") as [g|];
    [destruct (Libc.strstr d src_eq_quote) as [p|];
     [destruct (Libc.strchr (Libc.advance 5 p) dquote) as [q|]
     |destruct (Libc.strstr d href_eq_quote) as [p|];
      [destruct (Libc.strchr (Libc.advance 6 p) dquote) as [q|]|]]|];
    cbn [obind].
  2-6: eexists; split; [reflexivity|]; rewrite app_nil_r;
       repeat split; assumption.
  set (url := Libc.terminated_at (Libc.advance 5 p) q).
  set (c1 := printf c _).
  set (c2 := if is_null (found_url c1) then _ else c1).
  assert (all_urls c2 = Some urls /\ url_count c2 = Z.of_nat (length urls)
          /\ in_title c2 = false /\ in_description c2 = false) as Hc2.
  { subst c2. destruct (is_null (found_url c1));
      [rewrite allocate_served by assumption|];
      repeat split; assumption. }
  destruct Hc2 as (Hurls2 & Hcount2 & Ht2 & Hd2).
  rewrite Hurls2. cbn [is_null negb orb obind].
  destruct (add_url_to_array_served mem c2 url urls Hmem Hurls2 Hcount2)
    as (H1 & H2 & H3 & H4 & _).
  eexists. split; [reflexivity|].
  repeat split; cbn [in_item in_title in_description all_urls url_count
                     set_flags]; congruence.
Qed.

(** The callbacks of one entry, from [<item>] to the padding after
    [</item>]. *)
Lemma handle_entry_events (mem : nat -> Z -> bool) (c : ctx_t)
    (urls : list string) (e : entry) :
  all_served mem ->
  between_items c urls ->
  entry_ok e ->
  exists c',
    run_callbacks mem (entry_events e) c = Ret c'
    /\ between_items c'
         (urls ++ entry_urls (entry_title e) (entry_description e)).
Proof.
  intros Hmem Hc (Hp1 & Hp2 & Hp3 & Hp4 & Hlen).
  destruct e as [p1 ts p2 ds p3 p4].
  unfold entry_title, entry_description in *.
  cbn [before_title title_pieces before_description description_pieces
       after_description after_item] in *.
  unfold entry_events.
  cbn [before_title title_pieces before_description description_pieces
       after_description after_item].
  pose proof (start_item mem c urls Hmem Hc) as H1.
  set (c1 := start_elem mem c "item") in *.
  pose proof (open_title mem c1 false _ _ urls H1) as H2.
  set (c2 := start_elem mem c1 "title") in *.
  destruct (title_run mem ts c2 false _ _ urls H2) as (c3 & R3 & H3);
    [cbn; lia|].
  rewrite append_nil in H3.
  destruct (close_title mem c3 _ _ _ _ urls H3) as (c4 & R4 & H4).
  pose proof (open_description mem c4 _ _ urls H4) as H5.
  set (c5 := start_elem mem c4 "description") in *.
  destruct (description_run mem ds Hmem c5 _ _ urls H5) as (c6 & R6 & H6).
  rewrite append_nil in H6.
  destruct (close_description mem c6 _ _ _ _ urls H6) as (c7 & R7 & H7).
  destruct (end_item_collects mem c7 _ _ urls Hmem H7) as (c8 & R8 & H8).
  exists c8. split; [|exact H8].
  cbn [app run_callbacks handle obind]. fold c1.
  rewrite run_callbacks_app, (run_inert_in_item mem p1 c1)
    by (first [apply H1 | assumption]).
  cbn [app run_callbacks handle obind]. fold c2.
  rewrite run_callbacks_app, R3.
  cbn [app run_callbacks handle obind]. rewrite R4. cbn [obind].
  rewrite run_callbacks_app, (run_inert_in_item mem p2 c4)
    by (first [apply H4 | assumption]).
  cbn [app run_callbacks handle obind]. fold c5.
  rewrite run_callbacks_app, R6.
  cbn [app run_callbacks handle obind]. rewrite R7. cbn [obind].
  rewrite run_callbacks_app, (run_inert_in_item mem p3 c7)
    by (first [apply H7 | assumption]).
  cbn [app run_callbacks handle obind]. rewrite R8. cbn [obind].
  destruct H8 as (Hi8 & Ht8 & Hd8 & _).
  now rewrite (run_inert_outside mem p4 c8).
Qed.

Lemma handle_entries (mem : nat -> Z -> bool) (entries : list entry) :
  all_served mem ->
  Forall entry_ok entries ->
  forall (c : ctx_t) (urls : list string),
    between_items c urls ->
    exists c',
      run_callbacks mem (concat (map entry_events entries)) c = Ret c'
      /\ between_items c' (urls ++ feed_urls entries).
Proof.
  intros Hmem. induction 1 as [|e entries He _ IH]; intros c urls Hc.
  - exists c. split; [reflexivity|]. cbn. now rewrite app_nil_r.
  - unfold feed_urls. cbn [map concat flat_map].
    destruct (handle_entry_events mem c urls e Hmem Hc He) as (c1 & R1 & H1).
    destruct (IH c1 _ H1) as (c2 & R2 & H2).
    exists c2. rewrite run_callbacks_app, R1. cbn [obind].
    split; [exact R2|]. now rewrite app_assoc.
Qed.

(** The parse of a well-formed feed: the callbacks of the entries run from
    the initial context, then the return path. *)
Lemma xml_parse_all_cone_image_urls_feed (mem : nat -> Z -> bool)
    (preamble closing : list xml_event) (entries : list entry) :
  all_served mem ->
  forallb inert_outside preamble = true ->
  forallb inert_outside closing = true ->
  Forall entry_ok entries ->
  xml_parse_all_cone_image_urls mem
    {| callbacks := feed_events preamble entries ++ closing;
       status := XML_STATUS_OK |}
  = Ret (returned (feed_urls entries)).
Proof.
  intros Hmem Hpre Hclose Hok.
  rewrite xml_parse_all_cone_image_urls_unfold, Hmem.
  unfold XML_Parse, feed_events.
  cbn [callbacks status]. rewrite !run_callbacks_app.
  rewrite (run_inert_outside mem preamble) by (reflexivity || assumption).
  cbn [obind].
  assert (between_items collecting_ctx []) as H0 by now repeat split.
  destruct (handle_entries mem entries Hmem Hok collecting_ctx [] H0)
    as (c & Hrun & Hc).
  rewrite app_nil_l in Hc. rewrite Hrun. cbn [obind].
  destruct Hc as (Hi & Ht & Hd & Hurls & Hcount).
  rewrite (run_inert_outside mem closing) by assumption.
  cbn [obind fst snd]. rewrite Hurls, Hcount. unfold returned.
  destruct (feed_urls entries) as [|u us]; [reflexivity|].
  assert ((Z.of_nat (length (u :: us)) =? 0) = false) as ->
    by (apply Z.eqb_neq; cbn [length]; lia).
  reflexivity.
Qed.







(** X2: with every allocation served, a well-formed feed yields, in
    document order, one URL for every item whose title contains Graphics
    and whose description has a quoted [src=] value, and nothing for the
    other items, however expat cuts the character data. *)
Theorem feed_yields_one_url_per_qualifying_item
    (mem : nat -> Z -> bool)
    (preamble closing : list xml_event) (entries : list entry) :
  all_served mem ->
  forallb inert_outside preamble = true ->
  forallb inert_outside closing = true ->
  Forall entry_ok entries ->
  xml_parse_all_cone_image_urls mem
    {| callbacks := feed_events preamble entries ++ closing;
       status := XML_STATUS_OK |}
  = Ret (returned (feed_urls entries)).
Proof.
  exact (xml_parse_all_cone_image_urls_feed mem preamble closing entries).
Qed.

Lemma erin_graphics_ok : entry_ok erin_graphics.
Proof.
  repeat split; try reflexivity. apply Nat.leb_le. vm_compute. reflexivity.
Qed.

Lemma feed_yields_one_url_per_qualifying_item_witness :
  (all_served plenty
   /\ forallb inert_outside rss_preamble = true
   /\ forallb inert_outside [EndElement "channel"; EndElement "rss"] = true
   /\ Forall entry_ok [erin_graphics])
  /\ xml_parse_all_cone_image_urls plenty
       {| callbacks :=
            feed_events rss_preamble [erin_graphics]
            ++ [EndElement "channel"; EndElement "rss"];
          status := XML_STATUS_OK |}
     = Ret (returned (feed_urls [erin_graphics])).
Proof.
  assert (Forall entry_ok [erin_graphics]) as H
    by (constructor; [exact erin_graphics_ok | constructor]).
  split; [exact (conj plenty_served (conj eq_refl (conj eq_refl H)))|].
  exact (feed_yields_one_url_per_qualifying_item plenty rss_preamble
           [EndElement "channel"; EndElement "rss"] [erin_graphics]
           plenty_served eq_refl eq_refl H).
Defined.

(** *** The context stays in bounds *)

Lemma length_substring_0 (n : nat) (s : string) :
  (String.length (String.substring 0 n s) <= n)%nat.
Proof.
  revert n. induction s as [|x s IH]; intros n.
  - destruct n; cbn; lia.
  - destruct n as [|n]; [cbn; lia|]. cbn. specialize (IH n). lia.
Qed.

Lemma substring_0_all (s : string) (n : nat) :
  n = String.length s -> String.substring 0 n s = s.
Proof. intros ->. apply substring_0_length. Qed.

Lemma double_until_spec (needed : Z) (rounds : nat) :
  needed <= 2 ^ 31 ->
  forall (k : nat),
    (k <= 19)%nat -> (20 <= k + rounds)%nat ->
    let r := double_until rounds (4096 * 2 ^ Z.of_nat k) needed in
    capacity_ok r /\ (4096 * 2 ^ Z.of_nat k <= r) /\ needed <= r.
Proof.
  intros Hneeded. induction rounds as [|rounds IH]; intros k Hk Hfuel; [lia|].
  cbn [double_until].
  assert (4096 * 2 ^ 19 = 2 ^ 31) as Htop by reflexivity.
  assert (0 < 2 ^ Z.of_nat k) as Hpos by (apply Z.pow_pos_nonneg; lia).
  destruct (4096 * 2 ^ Z.of_nat k <? needed) eqn:Hlt.
  - assert (k < 19)%nat as Hk'.
    { destruct (decide (k = 19%nat)) as [->|]; [|lia].
      change (Z.of_nat 19) with 19 in Hlt. lia. }
    assert (4096 * 2 ^ Z.of_nat k * 2 = 4096 * 2 ^ Z.of_nat (S k)) as Hdbl.
    { rewrite Nat2Z.inj_succ, Z.pow_succ_r by lia. lia. }
    assert (2 ^ Z.of_nat (S k) <= 2 ^ 19) as Hle
      by (apply Z.pow_le_mono_r; lia).
    rewrite Hdbl, to_size_t_small
      by (change SIZE_MAX_PLUS_1 with 4294967296;
          change (2 ^ 19) with 524288 in Hle;
          assert (0 < 2 ^ Z.of_nat (S k)) by (apply Z.pow_pos_nonneg; lia);
          lia).
    destruct (IH (S k)) as (Hcap & Hmono & Hok); [lia | lia |].
    split; [exact Hcap|]. split; [|exact Hok].
    rewrite <- Hdbl in Hmono. lia.
  - split; [now exists k|]. lia.
Qed.

Lemma capacity_ok_range (cap : Z) : capacity_ok cap -> 4096 <= cap <= 2 ^ 31.
Proof.
  intros (k & Hk & ->).
  assert (2 ^ 0 <= 2 ^ Z.of_nat k <= 2 ^ 19) as H
    by (split; apply Z.pow_le_mono_r; lia).
  change (2 ^ 0) with 1 in H. change (2 ^ 19) with 524288 in H.
  change (2 ^ 31) with 2147483648. lia.
Qed.

Lemma capacity_ok_4096 : capacity_ok 4096.
Proof. exists 0%nat. split; [lia | reflexivity]. Qed.

(** What [add_url_to_array] leaves alone. *)
Lemma store_url_frame (mem : nat -> Z -> bool) (c : ctx_t) (url : string) :
  same_search (store_url mem c url) c.
Proof.
  unfold store_url, allocate. destruct (mem (requests c) _);
    now repeat split.
Qed.

Lemma add_url_to_array_frame (mem : nat -> Z -> bool) (c : ctx_t)
    (url : string) :
  same_search (add_url_to_array mem c url) c.
Proof.
  unfold add_url_to_array, allocate.
  destruct (url_capacity c <=? url_count c); [|apply store_url_frame].
  destruct (mem (requests c) _); [|now repeat split].
  match goal with
  | |- same_search (store_url mem ?x url) c =>
      destruct (store_url_frame mem x url)
        as (H1 & H2 & H3 & H4 & H5 & H6 & H7 & H8)
  end.
  repeat split; assumption.
Qed.

Lemma store_url_ok (mem : nat -> Z -> bool) (c : ctx_t) (url : string)
    (urls : list string) :
  all_urls c = Some urls ->
  url_count c = Z.of_nat (length urls) ->
  url_count c < url_capacity c ->
  urls_ok (store_url mem c url).
Proof.
  intros Hurls Hcount Hroom. unfold store_url, allocate.
  destruct (mem (requests c) _).
  - exists (urls ++ [url]).
    cbn [all_urls url_count url_capacity set_urls requested].
    rewrite Hurls, Hcount. cbn [default from_option id].
    rewrite Nat2Z.id, take_ge, length_app by lia. cbn [length].
    repeat split; lia.
  - exists urls. cbn [all_urls url_count url_capacity requested].
    repeat split; [assumption | assumption | lia].
Qed.

Lemma add_url_to_array_ok (mem : nat -> Z -> bool) (c : ctx_t)
    (url : string) :
  urls_ok c -> urls_ok (add_url_to_array mem c url).
Proof.
  intros (urls & Hurls & Hcount & Hcap). unfold add_url_to_array, allocate.
  destruct (url_capacity c <=? url_count c) eqn:Hfull.
  - destruct (mem (requests c) _).
    + apply (store_url_ok mem _ url urls);
        cbn [all_urls url_count url_capacity set_urls requested].
      * now rewrite Hurls.
      * exact Hcount.
      * destruct (url_capacity c =? 0) eqn:Hz; lia.
    + exists urls. now repeat split.
  - apply (store_url_ok mem c url urls); [assumption | assumption | lia].
Qed.

Lemma end_elem_urls_ok (mem : nat -> Z -> bool) (c c' : ctx_t)
    (el : string) :
  urls_ok c ->
  end_elem mem c el = Ret c' ->
  urls_ok c'
  /\ title c' = title c
  /\ description c' = description c
  /\ description_size c' = description_size c
  /\ description_capacity c' = description_capacity c.
Proof.
  intros Hkeep. unfold end_elem.
  destruct (String.eqb el "item").
  2: { destruct (String.eqb el "title");
         [|destruct (String.eqb el "description")];
         intros [= <-]; (split; [exact Hkeep | repeat split]). }
  assert (forall x,
            title x = title c -> description x = description c ->
            description_size x = description_size c ->
            description_capacity x = description_capacity c ->
            urls_ok x ->
            (c0 <-- Ret x ;;
             Ret (set_flags c0 false (in_title c0) (in_description c0)))
            = Ret c' ->
            urls_ok c'
            /\ title c' = title c
            /\ description c' = description c
            /\ description_size c' = description_size c
            /\ description_capacity c' = description_capacity c) as Hdone.
  { intros x Ht Hd Hs Hc Hu [= <-]. repeat split; assumption. }
  destruct (Libc.strstr (title c) "Graphics") as [g|];
    [|now apply Hdone].
  destruct (description c) as [d|] eqn:Hd; [|discriminate].
  destruct (Libc.strstr d src_eq_quote) as [p|].
  - destruct (Libc.strchr (Libc.advance 5 p) dquote) as [q|];
      [|apply Hdone; try reflexivity; assumption].
    set (url := Libc.terminated_at (Libc.advance 5 p) q).
    set (c1 := printf c _).
    set (c2 := if is_null (found_url c1) then _ else c1).
    assert (urls_ok c2
            /\ title c2 = title c /\ description c2 = description c
            /\ description_size c2 = description_size c
            /\ description_capacity c2 = description_capacity c) as Hc2.
    { subst c2. unfold allocate.
      destruct (is_null (found_url c1));
        [destruct (mem (requests c1) _)|];
        (split; [exact Hkeep | now repeat split]). }
    destruct Hc2 as (Hu2 & Ht2 & Hd2 & Hs2 & Hdc2).
    destruct (negb (is_null (all_urls c2)) || (0 <? url_capacity c2)).
    + destruct (add_url_to_array_frame mem c2 url)
        as (_ & _ & _ & Ht3 & Hd3 & Hs3 & Hdc3 & _).
      apply Hdone; try congruence. now apply add_url_to_array_ok.
    + apply Hdone; congruence || assumption.
  - destruct (Libc.strstr d href_eq_quote) as [p|];
      [|apply Hdone; try reflexivity; assumption].
    destruct (Libc.strchr (Libc.advance 6 p) dquote) as [q|];
      apply Hdone; try reflexivity; assumption.
Qed.

Lemma end_elem_buffers_ok (mem : nat -> Z -> bool) (c c' : ctx_t)
    (el : string) :
  buffers_ok c ->
  end_elem mem c el = Ret c' ->
  buffers_ok c' /\ description_size c' = description_size c.
Proof.
  intros (Htitle & Hurls & Hdesc) Hrun.
  destruct (end_elem_urls_ok mem c c' el Hurls Hrun)
    as (Hu & Ht & Hd & Hs & Hc).
  split; [|exact Hs]. split; [now rewrite Ht|]. split; [exact Hu|].
  now rewrite Hd, Hs, Hc.
Qed.

Lemma description_size_nonneg (c : ctx_t) :
  buffers_ok c -> 0 <= description_size c.
Proof.
  intros (_ & _ & Hdesc). destruct (description c); lia.
Qed.

Lemma start_elem_buffers_ok (mem : nat -> Z -> bool) (c : ctx_t)
    (el : string) :
  buffers_ok c ->
  buffers_ok (start_elem mem c el)
  /\ description_size (start_elem mem c el) <= description_size c.
Proof.
  intros Hc. pose proof (description_size_nonneg c Hc) as Hnn.
  destruct Hc as (Htitle & Hurls & Hdesc).
  destruct c as [ii it idsc ttl desc dsz dcap fu au uc ucap pr rq].
  cbn [title description description_size description_capacity all_urls
       url_count url_capacity found_url] in *.
  unfold start_elem, allocate.
  destruct (String.eqb el "item").
  - destruct desc as [d|];
      cbn [is_null set_flags set_title set_description description
           description_size description_capacity in_title in_description
           title all_urls url_count url_capacity found_url String.length
           requests requested].
    + destruct Hdesc as (_ & Hroom & Hcap).
      pose proof (capacity_ok_range _ Hcap).
      split; [|cbn; lia]. split; [cbn; lia|]. split; [exact Hurls|].
      cbn. repeat split; try lia. exact Hcap.
    + destruct (mem rq 4096).
      * split; [|cbn; lia]. split; [cbn; lia|]. split; [exact Hurls|].
        cbn. repeat split; try lia. exact capacity_ok_4096.
      * split; [|cbn; lia]. split; [cbn; lia|]. split; [exact Hurls|].
        exact Hdesc.
  - cbn [in_item].
    destruct (ii && String.eqb el "title");
      [|destruct (ii && String.eqb el "description")];
      (split; [|cbn; lia]);
      (split; [exact Htitle|]; split; [exact Hurls | exact Hdesc]).
Qed.

Lemma char_data_buffers_ok (mem : nat -> Z -> bool) (c : ctx_t)
    (s : string) :
  buffers_ok c ->
  description_size c + Z.of_nat (String.length s) <= INT_MAX ->
  buffers_ok (char_data mem c s)
  /\ description_size (char_data mem c s)
     <= description_size c + Z.of_nat (String.length s).
Proof.
  intros Hc Hfit. pose proof (description_size_nonneg c Hc) as Hnn.
  destruct Hc as (Htitle & Hurls & Hdesc).
  change INT_MAX with 2147483647 in Hfit.
  destruct c as [ii it idsc ttl desc dsz dcap fu au uc ucap pr rq].
  cbn [title description description_size description_capacity all_urls
       url_count url_capacity found_url] in *.
  unfold char_data, allocate.
  cbn [in_title title description in_description
       description_size description_capacity requests].
  destruct it.
  - rewrite to_size_t_small
      by (change SIZE_MAX_PLUS_1 with 4294967296; lia).
    destruct (0 <? 256 - Z.of_nat (String.length ttl) - 1) eqn:Havail;
      [|split; [split; [exact Htitle|]; split; [exact Hurls | exact Hdesc]
               | cbn; lia]].
    split; [|cbn; lia].
    split; [|split; [exact Hurls | exact Hdesc]].
    cbn [title set_title]. rewrite length_append.
    set (n := Z.to_nat _).
    pose proof (length_substring_0 n s) as Hsub.
    assert (n <= 255 - String.length ttl)%nat; [|lia].
    subst n.
    apply Z.ltb_lt in Havail.
    destruct (Z.of_nat (String.length s)
              <? 256 - Z.of_nat (String.length ttl) - 1) eqn:E;
      [apply Z.ltb_lt in E | apply Z.ltb_ge in E]; lia.
  - destruct desc as [d|];
      [|split; [split; [exact Htitle|]; split; [exact Hurls | exact Hdesc]
               | cbn; lia]].
    destruct idsc;
      [|split; [split; [exact Htitle|]; split; [exact Hurls | exact Hdesc]
               | cbn; lia]].
    destruct Hdesc as (Hsz & Hroom & Hcap).
    pose proof (capacity_ok_range _ Hcap) as Hrange.
    change (2 ^ 31) with 2147483648 in Hrange.
    rewrite to_size_t_small
      by (change SIZE_MAX_PLUS_1 with 4294967296; lia).
    assert (String.substring 0 (Z.to_nat dsz) d = d) as Hsub
      by (apply substring_0_all; lia).
    destruct (dcap <? dsz + Z.of_nat (String.length s) + 1) eqn:Hgrow.
    + destruct (mem rq _);
        cbn [set_description requested title description description_size
             description_capacity all_urls url_count url_capacity found_url].
      2: { split; [|lia]. split; [exact Htitle|]. split; [exact Hurls|].
           cbn [description description_size description_capacity].
           now repeat split. }
      split; [|lia]. split; [exact Htitle|]. split; [exact Hurls|].
      cbn [description description_size description_capacity
           set_description requested].
      rewrite Hsub, length_append. split; [lia|].
      assert ((dcap =? 0) = false) as -> by lia.
      destruct Hcap as (k & Hk & ->).
      assert (k < 19)%nat as Hk'.
      { destruct (decide (k = 19%nat)) as [->|]; [|lia].
        change (4096 * 2 ^ Z.of_nat 19) with 2147483648 in Hgrow. lia. }
      assert (4096 * 2 ^ Z.of_nat k * 2 = 4096 * 2 ^ Z.of_nat (S k)) as Hdbl.
      { rewrite Nat2Z.inj_succ, Z.pow_succ_r by lia. lia. }
      rewrite Hdbl, to_size_t_small.
      2: { assert (2 ^ Z.of_nat (S k) <= 2 ^ 19) as Hle
             by (apply Z.pow_le_mono_r; lia).
           change (2 ^ 19) with 524288 in Hle.
           assert (0 < 2 ^ Z.of_nat (S k))
             by (apply Z.pow_pos_nonneg; lia).
           change SIZE_MAX_PLUS_1 with 4294967296. lia. }
      destruct (double_until_spec (dsz + Z.of_nat (String.length s) + 1) 32)
        with (k := S k) as (Hcap' & _ & Hok);
        [change (2 ^ 31) with 2147483648; lia | lia | lia |].
      split; [lia | exact Hcap'].
    + cbn [set_description title description description_size
           description_capacity all_urls url_count url_capacity found_url].
      split; [|lia]. split; [exact Htitle|]. split; [exact Hurls|].
      cbn [description description_size description_capacity
           set_description requested].
      rewrite Hsub, length_append. split; [lia|]. split; [lia | exact Hcap].
Qed.

Lemma handle_buffers_ok (mem : nat -> Z -> bool) (c c' : ctx_t)
    (e : xml_event) :
  buffers_ok c ->
  description_size c + char_total [e] <= INT_MAX ->
  handle mem c e = Ret c' ->
  buffers_ok c'
  /\ description_size c' <= description_size c + char_total [e].
Proof.
  intros Hc Hfit. pose proof (description_size_nonneg c Hc) as Hnn.
  destruct e as [el|el|s]; cbn [handle char_total foldr] in *.
  - intros [= <-].
    destruct (start_elem_buffers_ok mem c el Hc). split; [assumption | lia].
  - intros Hrun.
    destruct (end_elem_buffers_ok mem c c' el Hc Hrun).
    split; [assumption | lia].
  - intros [= <-]. rewrite Z.add_0_r in *. now apply char_data_buffers_ok.
Qed.

Lemma char_total_cons (e : xml_event) (evts : list xml_event) :
  char_total (e :: evts) = char_total [e] + char_total evts.
Proof. destruct e; unfold char_total; cbn [foldr]; lia. Qed.

Lemma char_total_nonneg (evts : list xml_event) : 0 <= char_total evts.
Proof.
  induction evts as [|e evts IH]; [cbn; lia|].
  rewrite char_total_cons.
  destruct e; unfold char_total at 1; cbn [foldr]; lia.
Qed.

Lemma run_buffers_ok (mem : nat -> Z -> bool) (evts : list xml_event) :
  forall c c',
    buffers_ok c ->
    description_size c + char_total evts <= INT_MAX ->
    run_callbacks mem evts c = Ret c' ->
    buffers_ok c'.
Proof.
  induction evts as [|e evts IH]; intros c c' Hc Hfit.
  - now intros [= <-].
  - rewrite char_total_cons in Hfit.
    pose proof (char_total_nonneg evts) as Hnn.
    cbn [run_callbacks].
    destruct (handle mem c e) as [c1|f] eqn:H1; [|discriminate].
    cbn [obind].
    destruct (handle_buffers_ok mem c c1 e Hc) as [Hc1 Hsize];
      [lia | exact H1 |].
    apply IH; [exact Hc1 | lia].
Qed.

Lemma collecting_ctx_urls_ok : urls_ok collecting_ctx.
Proof. exists []. cbn. repeat split; lia. Qed.

Lemma collecting_ctx_ok : buffers_ok collecting_ctx.
Proof.
  split; [cbn; lia|]. split; [exact collecting_ctx_urls_ok | reflexivity].
Qed.

(** X12: whatever callbacks expat makes and whatever the allocator
    answers, as long as the character data total at most [INT_MAX] bytes,
    the callbacks either run to the end and leave the context in bounds,
    or crash on the [NULL] description of [end_elem], which takes an
    allocator that refused a description.  In bounds means: the title fits
    [title[256]] with its NUL, the description with its NUL fits the
    capacity recorded for it, which is 4096 doubled a number of times, and
    the URL array holds [url_count] entries within [url_capacity]. *)
Theorem parser_buffers_stay_in_bounds (mem : nat -> Z -> bool)
    (evts : list xml_event) :
  char_total evts <= INT_MAX ->
  match run_callbacks mem evts collecting_ctx with
  | Ret c => buffers_ok c
  | Fault f => f = NullDereference /\ ~ descriptions_served mem
  end.
Proof.
  intros Hfit.
  destruct (run_callbacks mem evts collecting_ctx) as [c|f] eqn:Hrun.
  - apply (run_buffers_ok mem evts collecting_ctx c collecting_ctx_ok);
      [exact Hfit | exact Hrun].
  - split; [exact (run_callbacks_fault mem evts f _ Hrun)|].
    intros Hmem.
    destruct (run_callbacks_returns mem evts Hmem collecting_ctx
                collecting_ctx_needs_description) as (c & Hc & _).
    congruence.
Qed.

Lemma parser_buffers_stay_in_bounds_witness :
  char_total (feed_events rss_preamble [erin_graphics]) <= INT_MAX
  /\ match run_callbacks plenty (feed_events rss_preamble [erin_graphics])
             collecting_ctx with
     | Ret c => buffers_ok c
     | Fault f => f = NullDereference /\ ~ descriptions_served plenty
     end.
Proof.
  assert (char_total (feed_events rss_preamble [erin_graphics]) <= INT_MAX)
    as H by (vm_compute; discriminate).
  split; [exact H|].
  exact (parser_buffers_stay_in_bounds plenty
           (feed_events rss_preamble [erin_graphics]) H).
Defined.


(** *** The two entry points *)

(** The two contexts after the same callbacks: the one of
    [xml_parse_cone_image_url] has no array, the one of
    [xml_parse_all_cone_image_urls] has the first URL of its array as
    [found_url]. *)
Definition paired (c1 c2 : ctx_t) : Prop :=
  same_search c1 c2
  /\ all_urls c1 = None
  /\ url_capacity c1 = 0
  /\ exists urls,
       all_urls c2 = Some urls
       /\ url_count c2 = Z.of_nat (length urls)
       /\ found_url c2 = head urls.

Lemma handle_paired (mem : nat -> Z -> bool) (c1 c2 c1' c2' : ctx_t)
    (e : xml_event) :
  all_served mem ->
  paired c1 c2 ->
  handle mem c1 e = Ret c1' ->
  handle mem c2 e = Ret c2' ->
  paired c1' c2'.
Proof.
  intros Hmem ((Hi & Ht & Hd & Httl & Hdesc & Hsz & Hcap & Hfu)
               & Hnone & Hzero & urls & Hurls & Hcount & Hhead).
  destruct c1 as [ii it idsc ttl desc dsz dcap fu au uc ucap pr rq].
  destruct c2 as [ii2 it2 idsc2 ttl2 desc2 dsz2 dcap2 fu2 au2 uc2 ucap2 pr2
                    rq2].
  cbn [in_item in_title in_description title description description_size
       description_capacity found_url all_urls url_count url_capacity] in *.
  subst ii2 it2 idsc2 ttl2 desc2 dsz2 dcap2 fu2 au ucap au2 uc2.
  destruct e as [el|el|s]; cbn [handle].
  - intros [= <-] [= <-]. unfold start_elem.
    cbn [in_item in_title in_description title description description_size
         description_capacity set_flags set_title set_description is_null].
    destruct (String.eqb el "item").
    + destruct desc as [d|]; cbn [is_null];
        rewrite ?allocate_served by assumption;
        (split; [now repeat split|]); (split; [reflexivity|]);
        (split; [reflexivity|]); now exists urls.
    + destruct (ii && String.eqb el "title");
        [|destruct (ii && String.eqb el "description")];
        (split; [now repeat split|]); (split; [reflexivity|]);
        (split; [reflexivity|]); now exists urls.
  - unfold end_elem. destruct (String.eqb el "item").
    2: { destruct (String.eqb el "title");
           [|destruct (String.eqb el "description")];
           intros [= <-] [= <-];
           (split; [now repeat split|]); (split; [reflexivity|]);
           (split; [reflexivity|]); now exists urls. }
    cbn [title description].
    destruct (Libc.strstr ttl "Graphics") as [g|].
    2: { cbn. intros [= <-] [= <-].
         (split; [now repeat split|]); (split; [reflexivity|]);
         (split; [reflexivity|]); now exists urls. }
    destruct desc as [d|]; [|discriminate].
    destruct (Libc.strstr d src_eq_quote) as [p|].
    + destruct (Libc.strchr (Libc.advance 5 p) dquote) as [q|].
      2: { cbn. intros [= <-] [= <-].
           (split; [now repeat split|]); (split; [reflexivity|]);
           (split; [reflexivity|]); now exists urls. }
      set (url := Libc.terminated_at (Libc.advance 5 p) q). clearbody url.
      cbn [printf found_url].
      destruct fu as [u|]; cbn [is_null];
        rewrite ?allocate_served by assumption;
        cbn [all_urls url_capacity set_found_url requested is_null negb orb
             Z.ltb Z.compare obind].
      * intros [= <-].
        match goal with
        | |- context [add_url_to_array mem ?x url] =>
            destruct (add_url_to_array_served mem x url urls Hmem
                        eq_refl eq_refl) as (A1 & A2 & A3 & A4 & A5);
            destruct (add_url_to_array_frame mem x url)
              as (F1 & F2 & F3 & F4 & F5 & F6 & F7 & F8)
        end.
        intros [= <-]. unfold paired, same_search.
        cbn [in_item in_title in_description title description
             description_size description_capacity found_url all_urls
             url_count url_capacity set_flags printf set_found_url
             requested] in *.
        split; [repeat split; congruence|].
        split; [reflexivity|]. split; [reflexivity|].
        exists (urls ++ [url]). split; [exact A1|]. split; [exact A2|].
        rewrite F8. destruct urls; [discriminate Hhead | exact Hhead].
      * intros [= <-].
        match goal with
        | |- context [add_url_to_array mem ?x url] =>
            destruct (add_url_to_array_served mem x url urls Hmem
                        eq_refl eq_refl) as (A1 & A2 & A3 & A4 & A5);
            destruct (add_url_to_array_frame mem x url)
              as (F1 & F2 & F3 & F4 & F5 & F6 & F7 & F8)
        end.
        intros [= <-]. unfold paired, same_search.
        cbn [in_item in_title in_description title description
             description_size description_capacity found_url all_urls
             url_count url_capacity set_flags printf set_found_url
             requested] in *.
        split; [repeat split; congruence|].
        split; [reflexivity|]. split; [reflexivity|].
        exists (urls ++ [url]). split; [exact A1|]. split; [exact A2|].
        rewrite F8. destruct urls; [reflexivity | discriminate Hhead].
    + destruct (Libc.strstr d href_eq_quote) as [p|];
        [destruct (Libc.strchr (Libc.advance 6 p) dquote) as [q|]|];
        cbn; intros [= <-] [= <-];
        (split; [now repeat split|]); (split; [reflexivity|]);
        (split; [reflexivity|]); now exists urls.
  - intros [= <-] [= <-]. unfold char_data.
    cbn [in_title title description in_description description_size
         description_capacity].
    destruct it.
    + destruct (0 <? _);
        (split; [now repeat split|]); (split; [reflexivity|]);
        (split; [reflexivity|]); now exists urls.
    + destruct desc as [d|];
        [destruct idsc; [destruct (_ <? _)|]|];
        rewrite ?allocate_served by assumption;
        (split; [now repeat split|]); (split; [reflexivity|]);
        (split; [reflexivity|]); now exists urls.
Qed.

Lemma run_paired (mem : nat -> Z -> bool) (evts : list xml_event) :
  all_served mem ->
  forall c1 c2 c1' c2',
    paired c1 c2 ->
    run_callbacks mem evts c1 = Ret c1' ->
    run_callbacks mem evts c2 = Ret c2' ->
    paired c1' c2'.
Proof.
  intros Hmem. induction evts as [|e evts IH]; intros c1 c2 c1' c2' Hp.
  - now intros [= <-] [= <-].
  - cbn [run_callbacks].
    destruct (handle mem c1 e) as [x1|] eqn:H1; [|discriminate].
    destruct (handle mem c2 e) as [x2|] eqn:H2; [|discriminate].
    cbn [obind]. apply IH.
    now apply (handle_paired mem c1 c2 x1 x2 e).
Qed.

(** X13: with every allocation served, the two entry points agree:
    [xml_parse_cone_image_url] returns the first of the URLs that
    [xml_parse_all_cone_image_urls] collects from the same callbacks, also
    when expat reports an error; the latter returns all of them with their
    count when expat succeeds, and [NULL] with count 0 when expat fails or
    nothing was found. *)
Theorem cone_image_url_is_the_first_of_all (mem : nat -> Z -> bool)
    (run : expat_run) :
  all_served mem ->
  exists c,
    XML_Parse mem collecting_ctx run = Ret (status run, c)
    /\ xml_parse_cone_image_url mem run = Ret (head (collected c))
    /\ xml_parse_all_cone_image_urls mem run
       = Ret (match status run with
              | XML_STATUS_OK => returned (collected c)
              | XML_STATUS_ERROR => (None, 0)
              end).
Proof.
  intros Hmem.
  assert (descriptions_served mem) as Hd by (intros k; apply Hmem).
  destruct (run_callbacks_returns mem (callbacks run) Hd collecting_ctx
              collecting_ctx_needs_description) as (c2 & R2 & _).
  destruct (run_callbacks_returns mem (callbacks run) Hd zero_ctx
              zero_ctx_needs_description) as (c1 & R1 & _).
  assert (paired zero_ctx collecting_ctx) as H0.
  { split; [now repeat split|]. split; [reflexivity|].
    split; [reflexivity|]. now exists []. }
  destruct (run_paired mem (callbacks run) Hmem _ _ c1 c2 H0 R1 R2)
    as ((_ & _ & _ & _ & _ & _ & _ & Hfu) & _ & _ & urls & Hurls & Hcount
        & Hhead).
  exists c2. unfold XML_Parse. rewrite R2. cbn [obind].
  split; [reflexivity|]. unfold collected. rewrite Hurls.
  cbn [default from_option id]. split.
  - unfold xml_parse_cone_image_url, XML_Parse. rewrite R1. cbn [obind snd].
    now rewrite Hfu, Hhead.
  - rewrite xml_parse_all_cone_image_urls_unfold, Hmem.
    unfold XML_Parse. rewrite R2. cbn [obind fst snd].
    destruct (status run); [reflexivity|].
    rewrite Hcount, Hurls. unfold returned.
    destruct urls as [|u urls]; [reflexivity|].
    destruct (Z.of_nat (length (u :: urls)) =? 0) eqn:E;
      [|reflexivity].
    apply Z.eqb_eq in E. cbn [length] in E. lia.
Qed.

Lemma cone_image_url_is_the_first_of_all_witness :
  all_served plenty
  /\ exists c,
       XML_Parse plenty collecting_ctx truncated_feed
       = Ret (status truncated_feed, c)
       /\ xml_parse_cone_image_url plenty truncated_feed
          = Ret (head (collected c))
       /\ xml_parse_all_cone_image_urls plenty truncated_feed
          = Ret (match status truncated_feed with
                 | XML_STATUS_OK => returned (collected c)
                 | XML_STATUS_ERROR => (None, 0)
                 end).
Proof.
  split; [exact plenty_served|].
  exact (cone_image_url_is_the_first_of_all plenty truncated_feed
           plenty_served).
Defined.

(** ** Further properties *)

(** The feed function asks less of a body than the image function: the
    14-byte answer of [tiny_image_service] is a successful feed download
    and a failed image download. *)
Theorem small_body_feed_succeeds_image_fails :
  (exists d,
     http_download_xml_feed zeroed_heap tiny_image_service
       (Some "https://www.nhc.noaa.gov/index-at.xml") zero_download
     = Ret (ESP_OK, d)
     /\ buffer_size d = 14)
  /\ exists g,
       http_download_image zeroed_heap tiny_image_service touch_config 0
         (boot_globals outlook_urls)
       = Ret (ESP_FAIL, g).
Proof.
  split.
  - eexists. split; [vm_compute; reflexivity | reflexivity].
  - eexists. vm_compute. reflexivity.
Qed.

(** X6: with every slot invalid and the cursor inside the range,
    [get_next_valid_image] reads the slots from the cursor onwards,
    wrapping, each once ([inspected] lists them latest first), returns the
    error image and leaves the globals, cursor included, as they were. *)
Theorem get_next_valid_image_all_invalid_round_trip (g : Main.globals) :
  length (Main.s_images g) = 10%nat ->
  Main.active_image_count g <= MAX_IMAGES ->
  0 <= Main.s_current_image_index g < Main.images_to_check g ->
  (forall j s, Main.s_images g !! j = Some s -> Main.is_valid s = false) ->
  Main.get_next_valid_image g
  = Ret (Main.ErrorImage,
         rev (map (fun j => (Main.s_current_image_index g + Z.of_nat j)
                            mod Main.images_to_check g)
                (seq 0 (Z.to_nat (Main.images_to_check g)))),
         g).
Proof.
  intros Hlen Hactive Hc Hinvalid.
  pose proof (images_to_check_range g Hactive) as Hn.
  unfold Main.get_next_valid_image.
  rewrite next_valid_loop_trace by assumption.
  rewrite app_nil_r, Z2Nat.id by lia.
  replace (Main.s_current_image_index g + Main.images_to_check g)
    with (Main.s_current_image_index g + 1 * Main.images_to_check g) by lia.
  rewrite Z.mod_add, Z.mod_small by lia. now rewrite set_cursor_same.
Qed.

Lemma get_next_valid_image_all_invalid_round_trip_witness :
  (length (Main.s_images (boot_globals outlook_urls)) = 10%nat
   /\ Main.active_image_count (boot_globals outlook_urls) <= MAX_IMAGES
   /\ 0 <= Main.s_current_image_index (boot_globals outlook_urls)
      < Main.images_to_check (boot_globals outlook_urls))
  /\ Main.get_next_valid_image (boot_globals outlook_urls)
     = Ret (Main.ErrorImage,
            rev (map (fun j =>
                        (Main.s_current_image_index (boot_globals outlook_urls)
                         + Z.of_nat j)
                        mod Main.images_to_check (boot_globals outlook_urls))
                   (seq 0 (Z.to_nat
                             (Main.images_to_check
                                (boot_globals outlook_urls))))),
            boot_globals outlook_urls).
Proof.
  assert (Main.active_image_count (boot_globals outlook_urls) <= MAX_IMAGES)
    as H2 by (cbn; unfold MAX_IMAGES; lia).
  assert (0 <= Main.s_current_image_index (boot_globals outlook_urls)
          < Main.images_to_check (boot_globals outlook_urls)) as H3
    by (vm_compute; split; [discriminate | reflexivity]).
  split; [exact (conj eq_refl (conj H2 H3))|].
  exact (get_next_valid_image_all_invalid_round_trip
           (boot_globals outlook_urls) eq_refl H2 H3
           (boot_globals_all_invalid outlook_urls)).
Defined.

(** ** The decoder, slot by slot *)

Section DecoderProofs.

Import HttpClient.
Import Lvgl.

Lemma put_slot_same (i : Z) (g : Main.globals) (s : Main.image_data_t) :
  Main.slot_at i g = Ret s -> Main.put_slot i s g = g.
Proof.
  intros H. apply slot_at_lookup in H as [_ H].
  unfold Main.put_slot, Main.set_s_images. rewrite list_insert_id by exact H.
  now destruct g.
Qed.

Lemma load8_header_byte (blk : block) (off : nat) :
  (off < length blk)%nat ->
  load8 blk (Z.of_nat off) = Ret (header_byte blk off).
Proof.
  intros H. unfold load8, header_byte.
  assert ((0 <=? Z.of_nat off) = true) as -> by lia.
  rewrite Nat2Z.id.
  destruct (lookup_lt_is_Some_2 blk off H) as [b Hb].
  unfold block in *. rewrite !Hb. reflexivity.
Qed.

Lemma load16_header_bytes (blk : block) (off : nat) :
  (S off < length blk)%nat ->
  load16 blk (Z.of_nat off)
  = Ret (le16 (header_byte blk off) (header_byte blk (S off))).
Proof.
  intros H. unfold load16.
  rewrite load8_header_byte by lia. cbn [obind].
  replace (Z.of_nat off + 1) with (Z.of_nat (S off)) by lia.
  rewrite load8_header_byte by lia. reflexivity.
Qed.

Lemma header_byte_range (blk : block) (off : nat) :
  0 <= header_byte blk off < 256.
Proof. apply byte_value_range. Qed.

Lemma le16_range (lo hi : Z) :
  0 <= lo < 256 -> 0 <= hi < 256 -> 0 <= le16 lo hi < 65536.
Proof. intros Hlo Hhi. rewrite le16_value by lia. lia. Qed.

Lemma container_width_range (blk : block) : 0 <= container_width blk < 65536.
Proof. apply le16_range; apply header_byte_range. Qed.

Lemma container_height_range (blk : block) :
  0 <= container_height blk < 65536.
Proof. apply le16_range; apply header_byte_range. Qed.

Lemma decodable_has_data (s : Main.image_data_t) :
  decodable s = true -> has_data s = true.
Proof.
  unfold decodable, has_data. destruct (Main.buffer s); [|discriminate].
  cbn. lia.
Qed.

Lemma process_downloaded_image_spec
    (now i : Z) (g : Main.globals) (s : Main.image_data_t) :
  0 <= i < MAX_IMAGES ->
  Main.slot_at i g = Ret s ->
  slot_sound s ->
  exists s',
    Main.process_downloaded_image now i g
    = Ret (if decodable s then ESP_OK else ESP_FAIL, Main.put_slot i s' g)
    /\ Main.buffer s' = Main.buffer s
    /\ Main.buffer_size s' = Main.buffer_size s
    /\ Main.buffer_allocated s' = Main.buffer_allocated s
    /\ (decodable s = true ->
        Main.is_valid s' = true
        /\ Main.download_timestamp s' = now
        /\ descriptor_in_buffer s'
        /\ forall blk,
             Main.buffer s = Some blk ->
             w (header (Main.img_dsc s')) = container_width blk
             /\ h (header (Main.img_dsc s')) = container_height blk
             /\ cf (header (Main.img_dsc s')) = container_format blk
             /\ data_size (Main.img_dsc s') = container_payload blk)
    /\ (decodable s = false ->
        if has_data s && (12 <=? Main.buffer_size s)
        then Main.is_valid s' = false
        else s' = s).
Proof.
  intros Hi Hs Hsound.
  unfold Main.process_downloaded_image.
  rewrite index_guard_false by assumption. rewrite Hs. cbn [obind].
  unfold decodable, has_data, slot_sound in *.
  destruct (Main.buffer s) as [blk|] eqn:Hbuf.
  2: { exists s. rewrite (put_slot_same i g s Hs).
       split; [reflexivity|]. do 3 (split; [first [reflexivity | assumption]|]).
       split; [discriminate|]. reflexivity. }
  specialize (Hsound blk eq_refl). cbn [is_null negb andb].
  destruct (0 <? Main.buffer_size s) eqn:Hpos.
  2: { exists s. rewrite (put_slot_same i g s Hs).
       assert ((12 <=? Main.buffer_size s) = false) as -> by lia.
       split; [reflexivity|]. do 3 (split; [first [reflexivity | assumption]|]).
       split; [discriminate|]. reflexivity. }
  destruct (Main.buffer_size s <? 8) eqn:H8.
  { exists s. rewrite (put_slot_same i g s Hs).
    assert ((12 <=? Main.buffer_size s) = false) as -> by lia.
    split; [reflexivity|]. do 3 (split; [first [reflexivity | assumption]|]).
    split; [discriminate|]. reflexivity. }
  destruct (Main.buffer_size s <? 12) eqn:H12.
  { exists s. rewrite (put_slot_same i g s Hs).
    assert ((12 <=? Main.buffer_size s) = false) as -> by lia.
    split; [reflexivity|]. do 3 (split; [first [reflexivity | assumption]|]).
    split; [discriminate|]. reflexivity. }
  assert ((12 <=? Main.buffer_size s) = true) as -> by lia.
  cbn [andb].
  assert (12 <= length blk)%nat as Hlen by lia.
  change (load8 blk 0) with (load8 blk (Z.of_nat 0)).
  change (load8 blk 1) with (load8 blk (Z.of_nat 1)).
  change (load16 blk 2) with (load16 blk (Z.of_nat 2)).
  change (load16 blk 4) with (load16 blk (Z.of_nat 4)).
  change (load16 blk 6) with (load16 blk (Z.of_nat 6)).
  change (load16 blk 8) with (load16 blk (Z.of_nat 8)).
  change (load16 blk 10) with (load16 blk (Z.of_nat 10)).
  rewrite !load8_header_byte, !load16_header_bytes by lia. cbn [obind].
  fold (container_width blk) (container_height blk).
  cbn [Main.img_dsc Main.set_img_dsc Main.set_is_valid
       Main.set_download_timestamp Main.buffer_size Main.buffer
       Main.buffer_allocated Main.is_valid Main.download_timestamp
       set_w_h set_cf set_data set_data_size header w h cf data data_size
       magic flags stride].
  fold (container_format blk).
  pose proof (container_width_range blk) as Hw.
  pose proof (container_height_range blk) as Hh.
  pose proof (bytes_per_pixel_range (container_format blk)) as Hbpp.
  destruct ((4096 <? container_width blk) || (4096 <? container_height blk)
            || (container_width blk =? 0) || (container_height blk =? 0))
    eqn:Hdims.
  { eexists. 
    assert ((0 <? container_width blk) && (container_width blk <=? 4096)
            && (0 <? container_height blk) && (container_height blk <=? 4096)
            && (container_payload blk + 12 <=? Main.buffer_size s) = false)
      as -> by lia.
    split; [reflexivity|]. do 3 (split; [first [reflexivity | assumption]|]).
    split; [discriminate|]. reflexivity. }
  assert ((0 <? container_width blk) && (container_width blk <=? 4096)
          && (0 <? container_height blk) && (container_height blk <=? 4096)
          = true) as -> by lia.
  cbn [andb].
  fold (container_payload blk).
  assert (0 < container_width blk <= 4096) as Hw' by lia.
  assert (0 < container_height blk <= 4096) as Hh' by lia.
  assert (0 < container_width blk * container_height blk <= 16777216)
    as Hwh by nia.
  assert (0 < container_payload blk <= 67108864) as Hpay
    by (unfold container_payload; nia).
  rewrite (to_size_t_small (container_payload blk))
    by (change SIZE_MAX_PLUS_1 with 4294967296; lia).
  rewrite to_size_t_small by (change SIZE_MAX_PLUS_1 with 4294967296; lia).
  destruct (Main.buffer_size s <? container_payload blk + 12) eqn:Hfit.
  { eexists.
    assert ((container_payload blk + 12 <=? Main.buffer_size s) = false)
      as -> by lia.
    split; [reflexivity|]. do 3 (split; [first [reflexivity | assumption]|]).
    split; [discriminate|]. reflexivity. }
  assert ((container_payload blk + 12 <=? Main.buffer_size s) = true)
    as -> by lia.
  eexists. split; [reflexivity|]. cbn.
  split; [assumption|]. split; [reflexivity|]. split; [reflexivity|].
  split; [|discriminate].
  intros _. split; [reflexivity|]. split; [reflexivity|]. split.
  - exists blk. cbn. split; [assumption|]. split; [reflexivity|]. lia.
  - intros blk' [= <-]. repeat split; reflexivity.
Qed.

(** X7: [process_downloaded_image] returns [ESP_OK] exactly for a slot that
    holds a 12-byte header with a width and a height in 1 .. 4096 and,
    after it, at least the pixels they call for.  The slot is then valid
    and stamped with the time, and its descriptor has the width, height
    and format of the header and points at pixels that lie inside the
    bytes received.  Otherwise the function returns [ESP_FAIL], marking
    the slot invalid if it got as far as the header and leaving it alone
    if not.  The buffer is never changed. *)
Theorem process_downloaded_image_accepts_the_decodable
    (now i : Z) (g : Main.globals) (s : Main.image_data_t) :
  0 <= i < MAX_IMAGES ->
  Main.slot_at i g = Ret s ->
  slot_sound s ->
  exists s',
    Main.process_downloaded_image now i g
    = Ret (if decodable s then ESP_OK else ESP_FAIL, Main.put_slot i s' g)
    /\ Main.buffer s' = Main.buffer s
    /\ Main.buffer_size s' = Main.buffer_size s
    /\ Main.buffer_allocated s' = Main.buffer_allocated s
    /\ (decodable s = true ->
        Main.is_valid s' = true
        /\ Main.download_timestamp s' = now
        /\ descriptor_in_buffer s'
        /\ forall blk,
             Main.buffer s = Some blk ->
             w (header (Main.img_dsc s')) = container_width blk
             /\ h (header (Main.img_dsc s')) = container_height blk
             /\ cf (header (Main.img_dsc s')) = container_format blk
             /\ data_size (Main.img_dsc s') = container_payload blk)
    /\ (decodable s = false ->
        if has_data s && (12 <=? Main.buffer_size s)
        then Main.is_valid s' = false
        else s' = s).
Proof. exact (process_downloaded_image_spec now i g s). Qed.

Lemma slot_at_middle (g : Main.globals) (done todo : list Main.image_data_t)
    (s : Main.image_data_t) :
  Main.s_images g = done ++ s :: todo ->
  Main.slot_at (Z.of_nat (length done)) g = Ret s.
Proof.
  intros H. unfold Main.slot_at.
  assert ((0 <=? Z.of_nat (length done)) = true) as ->
    by (apply Z.leb_le; lia).
  rewrite Nat2Z.id, H, list_lookup_middle by reflexivity. reflexivity.
Qed.

Lemma put_slot_middle (g : Main.globals) (done todo : list Main.image_data_t)
    (s s' : Main.image_data_t) :
  Main.s_images g = done ++ s :: todo ->
  Main.s_images (Main.put_slot (Z.of_nat (length done)) s' g)
  = (done ++ [s']) ++ todo.
Proof.
  intros H. unfold Main.put_slot. cbn [Main.s_images Main.set_s_images].
  rewrite Nat2Z.id, H.
  rewrite (insert_app_r_alt done (s :: todo) (length done) s')
    by apply Nat.le_refl.
  rewrite Nat.sub_diag. cbn. now rewrite <- app_assoc.
Qed.

Lemma set_s_images_put_slot (g : Main.globals) (i : Z)
    (s : Main.image_data_t) (l : list Main.image_data_t) :
  Main.set_s_images (Main.put_slot i s g) l = Main.set_s_images g l.
Proof. reflexivity. Qed.

Lemma process_loop_spec (now : Z) (todo : list Main.image_data_t) :
  Forall slot_sound todo ->
  forall (done : list Main.image_data_t) (acc : Z) (g : Main.globals),
    Main.s_images g = done ++ todo ->
    (length done + length todo = 10)%nat ->
    exists todo',
      UpdateTask.process_loop (length todo) now (Z.of_nat (length done)) acc g
      = Ret (acc + Z.of_nat (length (List.filter decodable todo)),
             Main.set_s_images g (done ++ todo'))
      /\ Forall2 (processed now) todo todo'.
Proof.
  induction 1 as [|s todo Hsound _ IH]; intros done acc g Hg Hlen.
  - exists []. cbn. rewrite Z.add_0_r, <- Hg. split; [|constructor].
    now destruct g.
  - cbn [length] in Hlen.
    assert (0 <= Z.of_nat (length done) < MAX_IMAGES) as Hi
      by (unfold MAX_IMAGES; lia).
    pose proof (slot_at_middle g done todo s Hg) as Hs.
    cbn [length UpdateTask.process_loop]. rewrite Hs. cbn [obind].
    fold (has_data s).
    assert (Z.of_nat (length done) + 1 = Z.of_nat (length (done ++ [s])))
      as Hnext by (rewrite length_app; cbn; lia).
    destruct (has_data s) eqn:Hdata.
    + destruct (process_downloaded_image_spec now _ g s Hi Hs Hsound)
        as (s' & Hrun & Hb & Hsz & Hal & Hok & Hfail).
      rewrite Hrun. cbn [obind fst snd].
      pose proof (put_slot_middle g done todo s s' Hg) as Hg1.
      destruct (decodable s) eqn:Hdec.
      * change (ESP_OK =? ESP_OK) with true. cbn match.
        destruct (Hok eq_refl) as (Hv & Ht & Hin & _).
        assert (Z.of_nat (length done) + 1
                = Z.of_nat (length (done ++ [s']))) as ->
          by (rewrite length_app; cbn; lia).
        destruct (IH (done ++ [s']) (acc + 1) _ Hg1) as (todo' & Hloop & Hall).
        { rewrite length_app. cbn. lia. }
        exists (s' :: todo'). rewrite Hloop. split.
        -- f_equal. f_equal.
           ++ cbn [List.filter]. rewrite Hdec. cbn [length]. lia.
           ++ rewrite set_s_images_put_slot, <- app_assoc. reflexivity.
        -- constructor; [|exact Hall].
           unfold processed. rewrite Hdata, Hdec.
           repeat split; assumption.
      * change (ESP_FAIL =? ESP_OK) with false. cbn match.
        rewrite (slot_at_put_slot _ g s s' Hs). cbn [obind].
        set (s'' := Main.set_is_valid s' false).
        assert (Main.s_images
                  (Main.put_slot (Z.of_nat (length done)) s''
                     (Main.put_slot (Z.of_nat (length done)) s' g))
                = (done ++ [s'']) ++ todo) as Hg2.
        { apply (put_slot_middle _ done todo s').
          rewrite Hg1, <- app_assoc. reflexivity. }
        assert (Z.of_nat (length done) + 1
                = Z.of_nat (length (done ++ [s'']))) as ->
          by (rewrite length_app; cbn; lia).
        destruct (IH (done ++ [s'']) acc _ Hg2) as (todo' & Hloop & Hall).
        { rewrite length_app. cbn. lia. }
        exists (s'' :: todo'). rewrite Hloop. split.
        -- f_equal. f_equal.
           ++ cbn [List.filter]. rewrite Hdec. reflexivity.
           ++ rewrite !set_s_images_put_slot, <- app_assoc. reflexivity.
        -- constructor; [|exact Hall].
           unfold processed. rewrite Hdata, Hdec. subst s''. cbn.
           repeat split; try assumption; discriminate.
    + assert (decodable s = false) as Hdec.
      { destruct (decodable s) eqn:E; [|reflexivity].
        apply decodable_has_data in E. congruence. }
      assert (Z.of_nat (length done) + 1
              = Z.of_nat (length (done ++ [s]))) as ->
        by (rewrite length_app; cbn; lia).
      destruct (IH (done ++ [s]) acc g) as (todo' & Hloop & Hall).
      { rewrite Hg, <- app_assoc. reflexivity. }
      { rewrite length_app. cbn. lia. }
      exists (s :: todo'). rewrite Hloop. split.
      * f_equal. f_equal.
        -- cbn [List.filter]. rewrite Hdec. reflexivity.
        -- rewrite <- app_assoc. reflexivity.
      * constructor; [|exact Hall].
        unfold processed. rewrite Hdata. auto.
Qed.

(** X8: the decoding loop of [update_image_task] returns the number of
    decodable slots; it changes no buffer, leaves the slots without data
    as they are, and marks each slot with data valid exactly when it is
    decodable. *)
Theorem update_loop_validates_the_decodable (now : Z) (g : Main.globals) :
  length (Main.s_images g) = 10%nat ->
  Forall slot_sound (Main.s_images g) ->
  exists l',
    UpdateTask.process_loop (Z.to_nat MAX_IMAGES) now 0 0 g
    = Ret (Z.of_nat (length (List.filter decodable (Main.s_images g))),
           Main.set_s_images g l')
    /\ Forall2 (processed now) (Main.s_images g) l'.
Proof.
  intros Hlen Hsound.
  destruct (process_loop_spec now (Main.s_images g) Hsound [] 0 g eq_refl)
    as (l' & Hloop & Hall).
  { cbn. lia. }
  exists l'. split; [|exact Hall].
  rewrite Hlen in Hloop. exact Hloop.
Qed.

End DecoderProofs.

(** ** The image download *)

Section ImageDownloadProofs.

Import HttpClient.

Lemma put_slot_put_slot (i : Z) (g : Main.globals)
    (s1 s2 : Main.image_data_t) :
  Main.put_slot i s2 (Main.put_slot i s1 g) = Main.put_slot i s2 g.
Proof.
  unfold Main.put_slot, Main.set_s_images. cbn.
  now rewrite list_insert_insert_eq.
Qed.

Lemma body_bytes_cons (evt : esp_http_client_event_t)
    (evts : list esp_http_client_event_t) :
  body_bytes (evt :: evts) = body_bytes [evt] ++ body_bytes evts.
Proof. unfold body_bytes. cbn. now rewrite app_nil_r. Qed.

Lemma body_bytes_length (evts : list esp_http_client_event_t) :
  Z.of_nat (length (body_bytes evts)) = body_length evts.
Proof.
  induction evts as [|evt evts IH]; [reflexivity|].
  rewrite body_bytes_cons, length_app, body_length_cons, Nat2Z.inj_add, IH.
  f_equal. destruct evt; cbn; try reflexivity.
  rewrite app_nil_r. reflexivity.
Qed.

(** While the slot has no buffer, an event that does not allocate changes
    nothing. *)
Lemma image_handler_idle (heap : allocator) (i : Z)
    (evt : esp_http_client_event_t) (g : Main.globals)
    (s : Main.image_data_t) :
  0 <= i < MAX_IMAGES ->
  Main.slot_at i g = Ret s ->
  Main.buffer s = None ->
  allocating evt = false ->
  exists r, image_http_event_handler heap i evt g = Ret (r, g).
Proof.
  intros Hi Hs Hbuf Hevt. unfold image_http_event_handler.
  rewrite index_guard_false by assumption.
  destruct evt as [ | | | key value | data | | | ];
    try (now exists ESP_OK).
  - cbn in Hevt.
    destruct (Libc.strcasecmp key "Content-Length" =? 0);
      [|now exists ESP_OK].
    cbn in Hevt. rewrite (get_image_buffer_info_slot i g s) by assumption.
    cbn [obind snd default from_option id]. rewrite Hevt. cbn [andb].
    now exists ESP_FAIL.
  - destruct (0 <? data_len data); [|now exists ESP_OK].
    rewrite (get_image_buffer_info_slot i g s) by assumption.
    cbn [obind snd default from_option id]. rewrite Hbuf.
    now exists ESP_OK.
Qed.

Lemma image_dispatch_idle (heap : allocator) (i : Z)
    (evts : list esp_http_client_event_t) (g : Main.globals)
    (s : Main.image_data_t) :
  0 <= i < MAX_IMAGES ->
  Main.slot_at i g = Ret s ->
  Main.buffer s = None ->
  Forall (fun evt => allocating evt = false) evts ->
  dispatch (image_http_event_handler heap i) evts g = Ret g.
Proof.
  intros Hi Hs Hbuf Hevts. induction Hevts as [|evt evts Hevt _ IH];
    [reflexivity|].
  destruct (image_handler_idle heap i evt g s Hi Hs Hbuf Hevt) as [r Hr].
  cbn [dispatch]. rewrite Hr. cbn [obind snd]. exact IH.
Qed.

(** The Content-Length header that allocates. *)
Lemma image_handler_allocates (heap : allocator) (i : Z)
    (key value : string) (g : Main.globals) (s : Main.image_data_t)
    (blk : block) :
  0 <= i < MAX_IMAGES ->
  Main.slot_at i g = Ret s ->
  Main.buffer s = None ->
  Libc.strcasecmp key "Content-Length" = 0 ->
  0 < Libc.atoi value ->
  malloc heap (Libc.atoi value + 1024) = Some blk ->
  image_http_event_handler heap i (HTTP_EVENT_ON_HEADER key value) g
  = Ret (ESP_OK,
         Main.put_slot i
           {| Main.buffer := Some blk; Main.buffer_size := 0;
              Main.buffer_allocated := Libc.atoi value + 1024;
              Main.img_dsc := Main.img_dsc s; Main.is_valid := false;
              Main.download_timestamp := Main.download_timestamp s |} g).
Proof.
  intros Hi Hs Hbuf Hkey Hpos Hm. unfold image_http_event_handler.
  rewrite index_guard_false by assumption. rewrite Hkey.
  change (0 =? 0) with true. cbn match.
  rewrite (get_image_buffer_info_slot i g s) by assumption.
  cbn [obind snd default from_option id]. rewrite Hbuf.
  pose proof (atoi_range value) as Hr. change INT_MAX with 2147483647 in Hr.
  rewrite (to_size_t_small (Libc.atoi value))
    by (change SIZE_MAX_PLUS_1 with 4294967296; lia).
  rewrite to_size_t_small by (change SIZE_MAX_PLUS_1 with 4294967296; lia).
  assert ((0 <? Libc.atoi value) = true) as -> by lia.
  cbn [is_null andb]. rewrite Hm.
  rewrite (set_image_buffer_info_slot i g s) by assumption.
  reflexivity.
Qed.

(** Once the slot has its block, an event that fits appends its bytes and
    changes nothing else. *)
Lemma image_handler_appends (heap : allocator) (i : Z)
    (evt : esp_http_client_event_t) (g : Main.globals)
    (s : Main.image_data_t) (cap : Z) (body : list byte) :
  0 <= i < MAX_IMAGES ->
  Main.slot_at i g = Ret s ->
  receiving cap body s ->
  Z.of_nat (length body) + event_bytes evt <= cap < SIZE_MAX_PLUS_1 ->
  exists r s',
    image_http_event_handler heap i evt g = Ret (r, Main.put_slot i s' g)
    /\ receiving cap (body ++ body_bytes [evt]) s'
    /\ Main.img_dsc s' = Main.img_dsc s
    /\ Main.download_timestamp s' = Main.download_timestamp s.
Proof.
  intros Hi Hs (blk & Hbuf & Hlen & Hal & Hsize & Htake & Hvalid) Hfit.
  assert (receiving cap (body ++ []) s
          /\ Main.img_dsc s = Main.img_dsc s
          /\ Main.download_timestamp s = Main.download_timestamp s)
    as Hsame.
  { rewrite app_nil_r. split; [|split; reflexivity].
    exists blk. repeat split; assumption. }
  pose proof (put_slot_same i g s Hs) as Hput.
  unfold image_http_event_handler. rewrite index_guard_false by assumption.
  destruct evt as [ | | | key value | data | | | ];
    try (exists ESP_OK, s; rewrite Hput; exact (conj eq_refl Hsame)).
  - (* header *)
    destruct (Libc.strcasecmp key "Content-Length" =? 0).
    + rewrite (get_image_buffer_info_slot i g s) by assumption.
      cbn [obind snd default from_option id]. rewrite Hbuf.
      cbn [is_null]. rewrite andb_false_r.
      exists ESP_FAIL, s. rewrite Hput. exact (conj eq_refl Hsame).
    + exists ESP_OK, s. rewrite Hput. exact (conj eq_refl Hsame).
  - (* data *)
    cbn [event_bytes] in Hfit. unfold data_len in *.
    destruct (0 <? Z.of_nat (length data)) eqn:Hpos.
    2: { assert (data = []) as ->
           by (apply Z.ltb_ge in Hpos; destruct data;
               [reflexivity | cbn [length] in Hpos; lia]).
         exists ESP_OK, s. rewrite Hput. exact (conj eq_refl Hsame). }
    rewrite (get_image_buffer_info_slot i g s) by assumption.
    cbn [obind snd default from_option id]. rewrite Hbuf.
    destruct (memcpy_in_bounds blk (Main.buffer_size s) data)
      as (blk' & -> & Hlen' & Htake'); [lia | lia |].
    cbn [obind].
    rewrite (set_image_buffer_info_slot i g s) by assumption.
    cbn [obind]. eexists _, _. split; [reflexivity|].
    split; [|split; reflexivity].
    exists blk'. cbn. rewrite app_nil_r.
    split; [reflexivity|]. split; [congruence|]. split; [assumption|].
    rewrite to_size_t_small by lia.
    split; [rewrite length_app; lia|]. split; [|reflexivity].
    rewrite length_app. rewrite Hsize, Nat2Z.id in Htake'.
    rewrite Htake', Htake. reflexivity.
Qed.

Lemma image_dispatch_appends (heap : allocator) (i : Z) (cap : Z)
    (evts : list esp_http_client_event_t) :
  0 <= i < MAX_IMAGES ->
  forall (g : Main.globals) (s : Main.image_data_t) (body : list byte),
    Main.slot_at i g = Ret s ->
    receiving cap body s ->
    Z.of_nat (length body) + body_length evts <= cap < SIZE_MAX_PLUS_1 ->
    exists s',
      dispatch (image_http_event_handler heap i) evts g
      = Ret (Main.put_slot i s' g)
      /\ receiving cap (body ++ body_bytes evts) s'
      /\ Main.img_dsc s' = Main.img_dsc s
      /\ Main.download_timestamp s' = Main.download_timestamp s.
Proof.
  intros Hi. induction evts as [|evt evts IH]; intros g s body Hs Hrecv Hfit.
  - exists s. cbn [dispatch body_bytes flat_map].
    rewrite (put_slot_same i g s Hs), app_nil_r. auto.
  - rewrite body_length_cons in Hfit.
    pose proof (body_length_nonneg evts) as Hnn.
    pose proof (event_bytes_nonneg evt) as Hnn'.
    destruct (image_handler_appends heap i evt g s cap body Hi Hs Hrecv)
      as (r & s1 & Hstep & Hrecv1 & Hdsc1 & Hts1); [lia|].
    pose proof (slot_at_put_slot i g s s1 Hs) as Hs1.
    destruct (IH _ s1 _ Hs1 Hrecv1) as (s2 & Hrun & Hrecv2 & Hdsc2 & Hts2).
    { rewrite length_app.
      assert (Z.of_nat (length (body_bytes [evt])) = event_bytes evt) as H.
      { rewrite body_bytes_length. cbn. lia. }
      lia. }
    exists s2. cbn [dispatch]. rewrite Hstep. cbn [obind snd].
    rewrite Hrun, put_slot_put_slot. split; [reflexivity|].
    rewrite body_bytes_cons, app_assoc.
    split; [assumption|]. split; congruence.
Qed.

Lemma dispatch_app {S : Type}
    (handler : esp_http_client_event_t -> S -> outcome (esp_err_t * S))
    (a b : list esp_http_client_event_t) (st : S) :
  dispatch handler (a ++ b) st
  = (st' <-- dispatch handler a st ;; dispatch handler b st').
Proof.
  revert st. induction a as [|evt a IH]; intros st; [reflexivity|].
  cbn [dispatch app]. destruct (handler evt st) as [[r st']|f];
    [|reflexivity].
  cbn [obind snd]. apply IH.
Qed.

Lemma reset_image_buffer_slot (i : Z) (g : Main.globals)
    (s : Main.image_data_t) :
  0 <= i < MAX_IMAGES -> Main.slot_at i g = Ret s ->
  Main.reset_image_buffer i g = Ret (Main.put_slot i (reset_slot s) g).
Proof.
  intros Hi Hs. unfold Main.reset_image_buffer.
  rewrite index_in_range_true by assumption. now rewrite Hs.
Qed.

Lemma http_download_image_unfold (heap : allocator) (net : http_stack)
    (cfg : build_config) (i : Z) (g : Main.globals) (s : Main.image_data_t)
    (url : string) :
  0 <= i < MAX_IMAGES ->
  Main.slot_at i g = Ret s ->
  Main.image_urls g !! Z.to_nat i = Some (Some url) ->
  heap_unlimited heap ->
  let x := esp_http_client_perform net (conversion_request cfg url) in
  http_download_image heap net cfg i g
  = (g1 <-- dispatch (image_http_event_handler heap i) (events x)
              (Main.put_slot i (reset_slot s) g) ;;
     if perform_result x =? ESP_OK then
       info <-- Main.get_image_buffer_info i g1 ;;
       let '(buf, buf_size, buf_allocated) :=
         default (None, 0, 0) (snd info) in
       if negb (status_code x =? 200) then Ret (ESP_FAIL, g1)
       else if negb (is_null buf) && (0 <? buf_size) then
         if buf_size <? 100 then Ret (ESP_FAIL, g1)
         else
           g2 <-- Main.set_image_buffer_info i buf buf_size buf_allocated
                    true g1 ;;
           Ret (perform_result x, g2)
       else Ret (ESP_FAIL, g1)
     else Ret (perform_result x, g1)).
Proof.
  intros Hi Hs Hurl Hheap x. unfold http_download_image.
  rewrite index_guard_false by assumption.
  rewrite (reset_image_buffer_slot i g s) by assumption. cbn [obind].
  change (Main.image_urls (Main.put_slot i (reset_slot s) g))
    with (Main.image_urls g).
  rewrite Hurl.
  destruct (Hheap (to_size_t
                     (to_size_t
                        (strlen post_data_format_head + 2
                         + strlen (post_data_format_tail url) + strlen url
                         - 2) + 1))) as [p ->].
  reflexivity.
Qed.

Lemma http_download_image_spec (heap : allocator) (net : http_stack)
    (cfg : build_config) (i : Z) (g : Main.globals) (s : Main.image_data_t)
    (url key value : string) (pre rest : list esp_http_client_event_t) :
  let x := esp_http_client_perform net (conversion_request cfg url) in
  0 <= i < MAX_IMAGES ->
  Main.slot_at i g = Ret s ->
  Main.image_urls g !! Z.to_nat i = Some (Some url) ->
  heap_unlimited heap ->
  events x = pre ++ HTTP_EVENT_ON_HEADER key value :: rest ->
  Forall (fun evt => allocating evt = false) pre ->
  Libc.strcasecmp key "Content-Length" = 0 ->
  0 < Libc.atoi value ->
  body_length rest <= Libc.atoi value + 1024 ->
  exists s' blk,
    http_download_image heap net cfg i g
    = Ret (image_result x (body_length rest), Main.put_slot i s' g)
    /\ Main.buffer s' = Some blk
    /\ length blk = Z.to_nat (Libc.atoi value + 1024)
    /\ take (length (body_bytes rest)) blk = body_bytes rest
    /\ Main.buffer_size s' = body_length rest
    /\ Main.buffer_allocated s' = Libc.atoi value + 1024
    /\ Main.is_valid s' = (image_result x (body_length rest) =? ESP_OK)
    /\ Main.img_dsc s' = Main.img_dsc s.
Proof.
  intros x Hi Hs Hurl Hheap Hevts Hpre Hkey Hpos Hfit.
  rewrite (http_download_image_unfold heap net cfg i g s url)
    by assumption.
  fold x. rewrite Hevts, dispatch_app.
  pose proof (slot_at_put_slot i g s (reset_slot s) Hs) as Hs0.
  rewrite (image_dispatch_idle heap i pre _ (reset_slot s))
    by (assumption || reflexivity).
  cbn [obind dispatch].
  destruct (Hheap (Libc.atoi value + 1024)) as [blk0 Hm].
  rewrite (image_handler_allocates heap i key value _ (reset_slot s) blk0)
    by (assumption || reflexivity).
  cbn [obind snd]. rewrite put_slot_put_slot.
  set (s1 := {| Main.buffer := Some blk0 |}).
  pose proof (slot_at_put_slot i g s s1 Hs) as Hs1.
  pose proof (atoi_range value) as Hr. change INT_MAX with 2147483647 in Hr.
  destruct (image_dispatch_appends heap i (Libc.atoi value + 1024) rest Hi
              _ s1 [] Hs1) as (s2 & Hrun & Hrecv & Hdsc & Hts).
  { exists blk0. cbn. repeat split; try reflexivity;
      now apply (malloc_length heap). }
  { cbn [length]. change SIZE_MAX_PLUS_1 with 4294967296. lia. }
  rewrite Hrun, put_slot_put_slot. cbn [obind app] in *.
  destruct Hrecv as (blk & Hbuf & Hlen & Hal & Hsize & Htake & Hvalid).
  rewrite body_bytes_length in Hsize.
  pose proof (slot_at_put_slot i g s s2 Hs) as Hs2.
  unfold image_result.
  destruct (perform_result x =? ESP_OK) eqn:Herr.
  2: { exists s2, blk. split; [reflexivity|].
       rewrite Herr. repeat split; first [assumption | congruence]. }
  rewrite (get_image_buffer_info_slot i _ s2) by assumption.
  cbn [obind snd default from_option id]. rewrite Hbuf.
  cbn [is_null negb andb].
  destruct (status_code x =? 200) eqn:Hst; cbn [negb andb].
  2: { exists s2, blk. split; [reflexivity|].
       repeat split; first [assumption | congruence | reflexivity]. }
  destruct (0 <? Main.buffer_size s2) eqn:Hnz.
  2: { assert ((100 <=? body_length rest) = false) as -> by lia.
       exists s2, blk. split; [reflexivity|].
       repeat split; first [assumption | congruence | reflexivity]. }
  destruct (Main.buffer_size s2 <? 100) eqn:Hsmall.
  { assert ((100 <=? body_length rest) = false) as -> by lia.
    exists s2, blk. split; [reflexivity|].
    repeat split; first [assumption | congruence | reflexivity]. }
  assert ((100 <=? body_length rest) = true) as -> by lia.
  rewrite (set_image_buffer_info_slot i _ s2) by assumption.
  cbn [obind]. rewrite put_slot_put_slot.
  apply Z.eqb_eq in Herr. rewrite Herr.
  eexists _, blk. split; [reflexivity|]. cbn.
  repeat split; first [assumption | congruence | reflexivity].
Qed.

End ImageDownloadProofs.

(** ** The refresh cycle *)

Section RefreshProofs.

Import HttpClient.

Lemma http_download_image_idle (heap : allocator) (net : http_stack)
    (cfg : build_config) (i : Z) (g : Main.globals) (s : Main.image_data_t)
    (url : string) :
  let x := esp_http_client_perform net (conversion_request cfg url) in
  0 <= i < MAX_IMAGES ->
  Main.slot_at i g = Ret s ->
  Main.image_urls g !! Z.to_nat i = Some (Some url) ->
  heap_unlimited heap ->
  Forall (fun evt => allocating evt = false) (events x) ->
  http_download_image heap net cfg i g
  = Ret (image_result x 0, Main.put_slot i (reset_slot s) g).
Proof.
  intros x Hi Hs Hurl Hheap Hevts.
  rewrite (http_download_image_unfold heap net cfg i g s url)
    by assumption.
  fold x.
  pose proof (slot_at_put_slot i g s (reset_slot s) Hs) as Hs0.
  rewrite (image_dispatch_idle heap i (events x) _ (reset_slot s))
    by (assumption || reflexivity).
  cbn [obind]. unfold image_result.
  destruct (perform_result x =? ESP_OK); [|reflexivity].
  rewrite (get_image_buffer_info_slot i _ (reset_slot s)) by assumption.
  cbn [obind snd default from_option id reset_slot Main.buffer
       Main.buffer_size Main.buffer_allocated is_null negb andb].
  rewrite andb_false_r. now destruct (status_code x =? 200).
Qed.

Lemma slot_safe_pending (s : Main.image_data_t) :
  slot_sound s -> slot_safe s -> slot_pending s.
Proof.
  intros Hsound Hsafe. split; [assumption|]. intros Hv.
  destruct (Hsafe Hv) as (blk & Hbuf & _ & Hpos & Hfit & _).
  unfold has_data. rewrite Hbuf. cbn. lia.
Qed.

(** One download leaves its slot ready for the decoding loop and touches
    nothing else. *)
Lemma http_download_image_orderly (heap : allocator) (net : http_stack)
    (cfg : build_config) (i : Z) (g : Main.globals) (s : Main.image_data_t)
    (url : string) :
  0 <= i < MAX_IMAGES ->
  Main.slot_at i g = Ret s ->
  Main.image_urls g !! Z.to_nat i = Some (Some url) ->
  heap_unlimited heap ->
  orderly (events (esp_http_client_perform net (conversion_request cfg url))) ->
  exists r s',
    http_download_image heap net cfg i g = Ret (r, Main.put_slot i s' g)
    /\ slot_pending s'
    /\ Main.is_valid s' = (r =? ESP_OK).
Proof.
  intros Hi Hs Hurl Hheap [Hidle|(pre & key & value & rest & Hevts & Hpre
                                  & Hkey & Hpos & Hfit)].
  - eexists _, _. split.
    + exact (http_download_image_idle heap net cfg i g s url Hi Hs Hurl
               Hheap Hidle).
    + split.
      * split; [intros blk [=]|]. cbn. discriminate.
      * cbn. unfold image_result.
        destruct (perform_result _ =? ESP_OK) eqn:E;
          [now rewrite andb_false_r | now rewrite E].
  - destruct (http_download_image_spec heap net cfg i g s url key value
                pre rest Hi Hs Hurl Hheap Hevts Hpre Hkey Hpos Hfit)
      as (s' & blk & Hrun & Hbuf & Hlen & Htake & Hsize & Hal & Hv & Hdsc).
    eexists _, s'. split; [exact Hrun|]. split; [|exact Hv].
    pose proof (body_length_nonneg rest) as Hnn.
    split.
    + intros blk' Hblk'. rewrite Hbuf in Hblk'. injection Hblk' as <-.
      rewrite Hsize. lia.
    + rewrite Hv. unfold image_result, has_data. rewrite Hbuf, Hsize.
      cbn [is_null negb andb].
      destruct (perform_result _ =? ESP_OK) eqn:E.
      * destruct ((status_code _ =? 200) && (100 <=? body_length rest))
          eqn:E2; [lia | discriminate].
      * rewrite E. discriminate.
Qed.

Lemma slot_at_of_length (i : Z) (g : Main.globals) :
  0 <= i < MAX_IMAGES -> length (Main.s_images g) = 10%nat ->
  exists s, Main.slot_at i g = Ret s /\ Main.s_images g !! Z.to_nat i = Some s.
Proof.
  intros Hi Hlen. destruct (slot_at_in_range i g Hi Hlen) as [s Hs].
  exists s. split; [exact Hs|]. now apply slot_at_lookup in Hs.
Qed.

Lemma Forall_put_slot (P : Main.image_data_t -> Prop) (i : Z)
    (g : Main.globals) (s : Main.image_data_t) :
  Forall P (Main.s_images g) -> P s ->
  Forall P (Main.s_images (Main.put_slot i s g)).
Proof.
  intros Hall Hs. unfold Main.put_slot. cbn [Main.s_images Main.set_s_images].
  now apply Forall_insert.
Qed.

Lemma download_loop_spec (heap : allocator) (net : http_stack)
    (cfg : build_config) :
  heap_unlimited heap ->
  (forall url,
     orderly (events (esp_http_client_perform net
                        (conversion_request cfg url)))) ->
  forall (remaining : nat) (i acc : Z) (g : Main.globals),
    0 <= i -> i + Z.of_nat remaining <= MAX_IMAGES -> 0 <= acc ->
    length (Main.s_images g) = 10%nat ->
    length (Main.image_urls g) = 10%nat ->
    Forall slot_pending (Main.s_images g) ->
    (acc = 0 -> Forall slot_safe (Main.s_images g)) ->
    exists n l',
      download_loop heap net cfg remaining i acc g
      = Ret (n, Main.set_s_images g l')
      /\ acc <= n
      /\ length l' = 10%nat
      /\ Forall slot_pending l'
      /\ (n = 0 -> Forall slot_safe l').
Proof.
  intros Hheap Hnet.
  induction remaining as [|remaining IH];
    intros i acc g Hi Hend Hacc Hlen Hurls Hpend Hsafe.
  - exists acc, (Main.s_images g). cbn [download_loop].
    split; [now destruct g|]. split; [lia|]. auto.
  - cbn [download_loop]. unfold MAX_IMAGES in *.
    destruct (Main.image_urls g !! Z.to_nat i) as [url|] eqn:Hurl.
    2: { apply lookup_ge_None in Hurl. lia. }
    destruct url as [url|].
    2: { apply IH; try assumption; lia. }
    destruct (slot_at_of_length i g) as (s & Hs & Hlook);
      [unfold MAX_IMAGES; lia | assumption |].
    destruct (http_download_image_orderly heap net cfg i g s url)
      as (r & s' & Hrun & Hpend' & Hv);
      [unfold MAX_IMAGES; lia | assumption.. | apply Hnet |].
    rewrite Hrun. cbn [obind fst snd].
    assert (Forall slot_pending (Main.s_images (Main.put_slot i s' g)))
      as Hpend1 by now apply Forall_put_slot.
    assert (length (Main.s_images (Main.put_slot i s' g)) = 10%nat) as Hlen1
      by now rewrite length_put_slot.
    destruct (r =? ESP_OK) eqn:Hr.
    + destruct (IH (i + 1) (acc + 1) (Main.put_slot i s' g))
        as (n & l' & Hloop & Hn & Hl' & Hp' & Hs');
        try assumption; try lia.
      exists n, l'. rewrite Hloop. split; [reflexivity|].
      split; [lia|]. split; [assumption|]. split; [assumption|].
      intros ->. lia.
    + destruct (IH (i + 1) acc (Main.put_slot i s' g))
        as (n & l' & Hloop & Hn & Hl' & Hp' & Hs');
        try assumption; try lia.
      { intros H0. apply Forall_put_slot; [now apply Hsafe|].
        intros Hv'. congruence. }
      exists n, l'. rewrite Hloop. split; [reflexivity|]. auto.
Qed.

Lemma processed_pending_safe (now : Z) (l l' : list Main.image_data_t) :
  Forall2 (processed now) l l' ->
  Forall slot_pending l ->
  Forall slot_sound l' /\ Forall slot_safe l'.
Proof.
  induction 1 as [|s s' l l' Hp _ IH]; intros Hall;
    [split; constructor|].
  apply Forall_cons in Hall as [[Hsound Hpend] Hall].
  destruct (IH Hall) as [IH1 IH2].
  destruct Hp as (Hb & Hsz & _ & Hcase).
  split; constructor; try assumption.
  - intros blk Hblk. rewrite Hb in Hblk. rewrite Hsz. now apply Hsound.
  - intros Hv. destruct (has_data s) eqn:Hdata.
    + destruct Hcase as [Hv' Hdec]. apply Hdec. congruence.
    + subst s'. specialize (Hpend Hv). congruence.
Qed.

Lemma set_s_images_twice (g : Main.globals)
    (l1 l2 : list Main.image_data_t) :
  Main.set_s_images (Main.set_s_images g l1) l2 = Main.set_s_images g l2.
Proof. reflexivity. Qed.

(** X11: a refresh cycle, that is [http_download_all_images] followed by the
    decoding loop, over orderly answers returns without a fault and keeps
    the table in order: ten slots, each with [buffer_size] inside its
    block, and each slot that is marked valid with a descriptor whose
    pixels lie inside the bytes received. *)
Theorem refresh_cycle_keeps_descriptors_in_bounds
    (heap : allocator) (net : http_stack) (cfg : build_config) (now : Z)
    (g : Main.globals) :
  heap_unlimited heap ->
  (forall url,
     orderly (events (esp_http_client_perform net
                        (conversion_request cfg url)))) ->
  tables_ok g ->
  Forall slot_sound (Main.s_images g) ->
  Forall slot_safe (Main.s_images g) ->
  exists n l',
    UpdateTask.download_and_process heap net cfg now g
    = Ret (n, Main.set_s_images g l')
    /\ length l' = 10%nat
    /\ Forall slot_sound l'
    /\ Forall slot_safe l'.
Proof.
  intros Hheap Hnet (Hlen & Hurls & Hcount) Hsound Hsafe.
  unfold UpdateTask.download_and_process, http_download_all_images.
  destruct (Main.active_image_count g =? 0) eqn:Hzero.
  { exists 0, (Main.s_images g). cbn [obind fst snd].
    change (ESP_FAIL =? ESP_OK) with false. cbn match.
    split; [now destruct g|]. auto. }
  assert (Forall slot_pending (Main.s_images g)) as Hpend.
  { rewrite Forall_forall in *. intros s Hs.
    apply slot_safe_pending; auto. }
  destruct (download_loop_spec heap net cfg Hheap Hnet
              (Z.to_nat (Main.active_image_count g)) 0 0 g)
    as (n1 & l1 & Hloop & Hn1 & Hl1 & Hp1 & Hs1);
    try assumption; try lia; [auto|].
  rewrite Hloop. cbn [obind fst snd].
  destruct (0 <? n1) eqn:Hpos.
  - change (ESP_OK =? ESP_OK) with true. cbn match.
    assert (Forall slot_sound l1) as Hsound1.
    { rewrite Forall_forall in *. intros s Hs. now apply Hp1. }
    destruct (process_loop_spec now l1 Hsound1 [] 0
                (Main.set_s_images g l1) eq_refl)
      as (l2 & Hproc & Hall); [cbn; lia|].
    rewrite Hl1 in Hproc. change (Z.to_nat MAX_IMAGES) with 10%nat.
    change (Z.of_nat (length (@nil Main.image_data_t))) with 0 in Hproc.
    rewrite Hproc. eexists _, l2. split; [reflexivity|].
    split; [apply Forall2_length in Hall; congruence|].
    exact (processed_pending_safe now l1 l2 Hall Hp1).
  - change (ESP_FAIL =? ESP_OK) with false. cbn match.
    exists 0, l1. split; [reflexivity|]. split; [assumption|].
    split.
    + rewrite Forall_forall in *. intros s Hs. now apply Hp1.
    + apply Hs1. lia.
Qed.

End RefreshProofs.

(** ** The feed download *)

Section FeedDownloadProofs.

Import HttpClient.

Lemma generic_handler_idle (heap : allocator)
    (evt : esp_http_client_event_t) (d : http_download_t) :
  buffer d = None ->
  allocating evt = false ->
  exists r, generic_http_event_handler heap evt d = Ret (r, d).
Proof.
  intros Hbuf Hevt. unfold generic_http_event_handler.
  destruct evt as [ | | | key value | data | | | ];
    try (now exists ESP_OK).
  - cbn in Hevt.
    destruct (Libc.strcasecmp key "Content-Length" =? 0);
      [|now exists ESP_OK].
    cbn in Hevt. rewrite Hevt. now exists ESP_OK.
  - rewrite Hbuf. now exists ESP_OK.
Qed.

Lemma generic_dispatch_idle (heap : allocator)
    (evts : list esp_http_client_event_t) (d : http_download_t) :
  buffer d = None ->
  Forall (fun evt => allocating evt = false) evts ->
  dispatch (generic_http_event_handler heap) evts d = Ret d.
Proof.
  intros Hbuf Hevts. induction Hevts as [|evt evts Hevt _ IH];
    [reflexivity|].
  destruct (generic_handler_idle heap evt d Hbuf Hevt) as [r Hr].
  cbn [dispatch]. rewrite Hr. cbn [obind snd]. exact IH.
Qed.

Lemma generic_handler_allocates (heap : allocator) (key value : string)
    (blk : block) :
  Libc.strcasecmp key "Content-Length" = 0 ->
  0 < Libc.atoi value ->
  malloc heap (Libc.atoi value + 1024) = Some blk ->
  generic_http_event_handler heap (HTTP_EVENT_ON_HEADER key value)
    zero_download
  = Ret (ESP_OK, {| buffer := Some blk; buffer_size := 0;
                    buffer_allocated := Libc.atoi value + 1024 |}).
Proof.
  intros Hkey Hpos Hm. unfold generic_http_event_handler. rewrite Hkey.
  change (0 =? 0) with true. cbn match.
  pose proof (atoi_range value) as Hr. change INT_MAX with 2147483647 in Hr.
  rewrite (to_size_t_small (Libc.atoi value))
    by (change SIZE_MAX_PLUS_1 with 4294967296; lia).
  rewrite to_size_t_small by (change SIZE_MAX_PLUS_1 with 4294967296; lia).
  assert ((0 <? Libc.atoi value) = true) as -> by lia.
  cbn [zero_download buffer is_null andb]. now rewrite Hm.
Qed.

Lemma generic_handler_appends (heap : allocator)
    (evt : esp_http_client_event_t) (d : http_download_t) (cap : Z)
    (body : list byte) :
  collecting cap body d ->
  Z.of_nat (length body) + event_bytes evt < cap <= SIZE_MAX_PLUS_1 ->
  exists r d',
    generic_http_event_handler heap evt d = Ret (r, d')
    /\ collecting cap (body ++ body_bytes [evt]) d'.
Proof.
  intros (blk & Hbuf & Hlen & Hal & Hsize & Htake & Hnul) Hfit.
  assert (collecting cap (body ++ []) d) as Hsame.
  { rewrite app_nil_r. exists blk. repeat split; assumption. }
  destruct evt as [ | | | key value | data | | | ];
    try (exists ESP_OK, d; exact (conj eq_refl Hsame)).
  - unfold generic_http_event_handler.
    destruct (Libc.strcasecmp key "Content-Length" =? 0);
      [|exists ESP_OK, d; exact (conj eq_refl Hsame)].
    rewrite Hbuf. cbn [is_null]. rewrite andb_false_r.
    exists ESP_OK, d. exact (conj eq_refl Hsame).
  - cbn [event_bytes] in Hfit.
    destruct (0 <? data_len data) eqn:Hpos.
    2: { unfold generic_http_event_handler. rewrite Hbuf, Hpos.
         assert (data = []) as ->
           by (unfold data_len in Hpos; apply Z.ltb_ge in Hpos;
               destruct data; [reflexivity | cbn [length] in Hpos; lia]).
         exists ESP_OK, d. exact (conj eq_refl Hsame). }
    destruct (generic_on_data_appends heap d blk data)
      as (blk' & Hrun & Hlen' & Htake' & Hnul');
      try assumption; try lia.
    rewrite Hrun. eexists _, _. split; [reflexivity|].
    exists blk'. cbn [buffer buffer_size buffer_allocated body_bytes
                      flat_map].
    rewrite app_nil_r, length_app. unfold data_len in *.
    split; [reflexivity|]. split; [congruence|]. split; [assumption|].
    split; [lia|].
    replace (Z.to_nat (buffer_size d + Z.of_nat (length data)))
      with (length body + length data)%nat in * by lia.
    split.
    + rewrite Htake'. rewrite Hsize, Nat2Z.id, Htake. reflexivity.
    + intros _. exact Hnul'.
Qed.

Lemma generic_dispatch_appends (heap : allocator) (cap : Z)
    (evts : list esp_http_client_event_t) :
  forall (d : http_download_t) (body : list byte),
    collecting cap body d ->
    Z.of_nat (length body) + body_length evts < cap <= SIZE_MAX_PLUS_1 ->
    exists d',
      dispatch (generic_http_event_handler heap) evts d = Ret d'
      /\ collecting cap (body ++ body_bytes evts) d'.
Proof.
  induction evts as [|evt evts IH]; intros d body Hcol Hfit.
  - exists d. cbn [dispatch body_bytes flat_map]. now rewrite app_nil_r.
  - rewrite body_length_cons in Hfit.
    pose proof (body_length_nonneg evts) as Hnn.
    pose proof (event_bytes_nonneg evt) as Hnn'.
    destruct (generic_handler_appends heap evt d cap body Hcol)
      as (r & d1 & Hstep & Hcol1); [lia|].
    destruct (IH d1 _ Hcol1) as (d2 & Hrun & Hcol2).
    { rewrite length_app.
      assert (Z.of_nat (length (body_bytes [evt])) = event_bytes evt) as H.
      { rewrite body_bytes_length. cbn. lia. }
      lia. }
    exists d2. cbn [dispatch]. rewrite Hstep. cbn [obind snd].
    rewrite Hrun. split; [reflexivity|].
    now rewrite body_bytes_cons, app_assoc.
Qed.

Lemma http_download_xml_feed_spec (heap : allocator) (net : http_stack)
    (url key value : string) (result : http_download_t)
    (pre rest : list esp_http_client_event_t) (blk0 : block) :
  let x := esp_http_client_perform net (feed_request url) in
  esp_http_client_init net (feed_request url) = true ->
  events x = pre ++ HTTP_EVENT_ON_HEADER key value :: rest ->
  Forall (fun evt => allocating evt = false) pre ->
  Libc.strcasecmp key "Content-Length" = 0 ->
  0 < Libc.atoi value ->
  malloc heap (Libc.atoi value + 1024) = Some blk0 ->
  body_length rest < Libc.atoi value + 1024 ->
  exists d,
    http_download_xml_feed heap net (Some url) result
    = Ret (feed_result x (body_length rest), d)
    /\ if feed_result x (body_length rest) =? ESP_OK
       then collecting (Libc.atoi value + 1024) (body_bytes rest) d
       else d = zero_download.
Proof.
  intros x Hinit Hevts Hpre Hkey Hpos Hm Hfit.
  unfold http_download_xml_feed. fold (feed_request url). rewrite Hinit.
  cbn [negb]. fold x. rewrite Hevts, dispatch_app.
  rewrite (generic_dispatch_idle heap pre zero_download)
    by (reflexivity || assumption).
  cbn [obind dispatch].
  rewrite (generic_handler_allocates heap key value blk0) by assumption.
  cbn [obind snd].
  pose proof (atoi_range value) as Hr. change INT_MAX with 2147483647 in Hr.
  destruct (generic_dispatch_appends heap (Libc.atoi value + 1024) rest
              {| buffer := Some blk0; buffer_size := 0;
                 buffer_allocated := Libc.atoi value + 1024 |} [])
    as (d & Hrun & Hcol).
  { exists blk0. cbn. repeat split; try reflexivity;
      try now apply (malloc_length heap). intros H. now destruct H. }
  { cbn [length]. change SIZE_MAX_PLUS_1 with 4294967296. lia. }
  rewrite Hrun. cbn [obind app] in *.
  pose proof Hcol as (blk & Hbuf & Hlen & Hal & Hsize & Htake & Hnul).
  rewrite body_bytes_length in Hsize.
  unfold feed_result. rewrite Hbuf, Hsize. cbn [is_null negb].
  rewrite andb_true_r.
  destruct ((perform_result x =? ESP_OK) && (status_code x =? 200)
            && (0 <? body_length rest)) eqn:Hok.
  - exists d. split; [reflexivity|]. exact Hcol.
  - exists zero_download. split; [|reflexivity].
    unfold http_download_free. now rewrite Hbuf.
Qed.

(** Neither download function stores anything without a header that
    allocates. *)
Lemma http_download_xml_feed_idle (heap : allocator) (net : http_stack)
    (url : string) (result : http_download_t) :
  Forall (fun evt => allocating evt = false)
    (events (esp_http_client_perform net (feed_request url))) ->
  http_download_xml_feed heap net (Some url) result
  = Ret (ESP_FAIL, zero_download).
Proof.
  intros Hevts. unfold http_download_xml_feed. fold (feed_request url).
  destruct (esp_http_client_init net (feed_request url)); [|reflexivity].
  cbn [negb].
  rewrite (generic_dispatch_idle heap _ zero_download)
    by (reflexivity || assumption).
  cbn [obind zero_download buffer is_null negb].
  now rewrite andb_false_r.
Qed.

End FeedDownloadProofs.

(** ** Downloads and decoding together *)

Section PipelineProofs.

Import HttpClient.
Import Lvgl.

Lemma zeroed_heap_unlimited : heap_unlimited zeroed_heap.
Proof. intros n. eexists. reflexivity. Qed.

Lemma empty_slot_sound : slot_sound empty_slot.
Proof. intros blk [=]. Qed.

Lemma empty_slot_safe : slot_safe empty_slot.
Proof. intros [=]. Qed.

Lemma tiny_slot_sound : slot_sound tiny_slot.
Proof. intros blk [= <-]. cbn. lia. Qed.

Lemma process_downloaded_image_accepts_the_decodable_witness :
  (0 <= 0 < MAX_IMAGES
   /\ Main.slot_at 0 tiny_globals = Ret tiny_slot
   /\ slot_sound tiny_slot)
  /\ exists s',
       Main.process_downloaded_image 1756000000 0 tiny_globals
       = Ret (if decodable tiny_slot then ESP_OK else ESP_FAIL,
              Main.put_slot 0 s' tiny_globals)
       /\ Main.buffer s' = Main.buffer tiny_slot
       /\ Main.buffer_size s' = Main.buffer_size tiny_slot
       /\ Main.buffer_allocated s' = Main.buffer_allocated tiny_slot
       /\ (decodable tiny_slot = true ->
           Main.is_valid s' = true
           /\ Main.download_timestamp s' = 1756000000
           /\ descriptor_in_buffer s'
           /\ forall blk,
                Main.buffer tiny_slot = Some blk ->
                w (header (Main.img_dsc s')) = container_width blk
                /\ h (header (Main.img_dsc s')) = container_height blk
                /\ cf (header (Main.img_dsc s')) = container_format blk
                /\ data_size (Main.img_dsc s') = container_payload blk)
       /\ (decodable tiny_slot = false ->
           if has_data tiny_slot && (12 <=? Main.buffer_size tiny_slot)
           then Main.is_valid s' = false
           else s' = tiny_slot).
Proof.
  assert (0 <= 0 < MAX_IMAGES) as H1 by (unfold MAX_IMAGES; lia).
  split; [exact (conj H1 (conj eq_refl tiny_slot_sound))|].
  exact (process_downloaded_image_accepts_the_decodable 1756000000 0
           tiny_globals tiny_slot H1 eq_refl tiny_slot_sound).
Defined.

Lemma tiny_globals_sound : Forall slot_sound (Main.s_images tiny_globals).
Proof.
  apply Forall_put_slot; [|exact tiny_slot_sound].
  apply Forall_replicate. exact empty_slot_sound.
Qed.

Lemma update_loop_validates_the_decodable_witness :
  (length (Main.s_images tiny_globals) = 10%nat
   /\ Forall slot_sound (Main.s_images tiny_globals))
  /\ exists l',
       UpdateTask.process_loop (Z.to_nat MAX_IMAGES) 1756000000 0 0
         tiny_globals
       = Ret (Z.of_nat
                (length (List.filter decodable (Main.s_images tiny_globals))),
              Main.set_s_images tiny_globals l')
       /\ Forall2 (processed 1756000000) (Main.s_images tiny_globals) l'.
Proof.
  split; [exact (conj eq_refl tiny_globals_sound)|].
  exact (update_loop_validates_the_decodable 1756000000 tiny_globals
           eq_refl tiny_globals_sound).
Defined.

(** X9: when the answer for an image announces a positive [Content-Length]
    and its body has at most that length plus 1024 bytes,
    [http_download_image] stores the whole body, in order, at the start of
    a block of that size.  It returns [ESP_OK] exactly when the transfer
    succeeded with status 200 and at least 100 bytes, and then marks the
    slot valid although nothing has been decoded; the descriptor of the
    slot is not touched. *)
Theorem http_download_image_stores_the_body
    (heap : allocator) (net : http_stack) (cfg : build_config) (i : Z)
    (g : Main.globals) (s : Main.image_data_t) (url key value : string)
    (pre rest : list esp_http_client_event_t) :
  let x := esp_http_client_perform net (conversion_request cfg url) in
  0 <= i < MAX_IMAGES ->
  Main.slot_at i g = Ret s ->
  Main.image_urls g !! Z.to_nat i = Some (Some url) ->
  heap_unlimited heap ->
  events x = pre ++ HTTP_EVENT_ON_HEADER key value :: rest ->
  Forall (fun evt => allocating evt = false) pre ->
  Libc.strcasecmp key "Content-Length" = 0 ->
  0 < Libc.atoi value ->
  body_length rest <= Libc.atoi value + 1024 ->
  exists s' blk,
    http_download_image heap net cfg i g
    = Ret (image_result x (body_length rest), Main.put_slot i s' g)
    /\ Main.buffer s' = Some blk
    /\ length blk = Z.to_nat (Libc.atoi value + 1024)
    /\ take (length (body_bytes rest)) blk = body_bytes rest
    /\ Main.buffer_size s' = body_length rest
    /\ Main.buffer_allocated s' = Libc.atoi value + 1024
    /\ Main.is_valid s' = (image_result x (body_length rest) =? ESP_OK)
    /\ Main.img_dsc s' = Main.img_dsc s.
Proof.
  exact (http_download_image_spec heap net cfg i g s url key value pre rest).
Qed.

Lemma quiet_events :
  Forall (fun evt => allocating evt = false)
    [HTTP_EVENT_ON_CONNECTED; HTTP_EVENT_HEADER_SENT].
Proof. repeat constructor. Qed.

Lemma http_download_image_stores_the_body_witness :
  let x := esp_http_client_perform mixed_service
             (conversion_request touch_config STATIC_IMAGE_URL_1) in
  let rest := [HTTP_EVENT_ON_DATA small_image; HTTP_EVENT_ON_FINISH] in
  (0 <= 1 < MAX_IMAGES
   /\ Main.slot_at 1 two_image_globals = Ret empty_slot
   /\ Main.image_urls two_image_globals !! Z.to_nat 1
      = Some (Some STATIC_IMAGE_URL_1)
   /\ heap_unlimited zeroed_heap
   /\ events x
      = [HTTP_EVENT_ON_CONNECTED; HTTP_EVENT_HEADER_SENT]
        ++ HTTP_EVENT_ON_HEADER "Content-Length" "110" :: rest
   /\ Forall (fun evt => allocating evt = false)
        [HTTP_EVENT_ON_CONNECTED; HTTP_EVENT_HEADER_SENT]
   /\ Libc.strcasecmp "Content-Length" "Content-Length" = 0
   /\ 0 < Libc.atoi "110"
   /\ body_length rest <= Libc.atoi "110" + 1024)
  /\ exists s' blk,
       http_download_image zeroed_heap mixed_service touch_config 1
         two_image_globals
       = Ret (image_result x (body_length rest),
              Main.put_slot 1 s' two_image_globals)
       /\ Main.buffer s' = Some blk
       /\ length blk = Z.to_nat (Libc.atoi "110" + 1024)
       /\ take (length (body_bytes rest)) blk = body_bytes rest
       /\ Main.buffer_size s' = body_length rest
       /\ Main.buffer_allocated s' = Libc.atoi "110" + 1024
       /\ Main.is_valid s' = (image_result x (body_length rest) =? ESP_OK)
       /\ Main.img_dsc s' = Main.img_dsc empty_slot.
Proof.
  intros x rest.
  assert (0 <= 1 < MAX_IMAGES) as H1 by (unfold MAX_IMAGES; lia).
  assert (0 < Libc.atoi "110") as H8 by reflexivity.
  assert (body_length rest <= Libc.atoi "110" + 1024) as H9
    by (vm_compute; discriminate).
  split.
  - exact (conj H1 (conj eq_refl (conj eq_refl (conj zeroed_heap_unlimited
             (conj eq_refl (conj quiet_events (conj eq_refl
                (conj H8 H9)))))))).
  - exact (http_download_image_stores_the_body zeroed_heap mixed_service
             touch_config 1 two_image_globals empty_slot STATIC_IMAGE_URL_1
             "Content-Length" "110"
             [HTTP_EVENT_ON_CONNECTED; HTTP_EVENT_HEADER_SENT] rest
             H1 eq_refl eq_refl zeroed_heap_unlimited eq_refl quiet_events
             eq_refl H8 H9).
Defined.

Lemma mixed_service_orderly (url : string) :
  orderly (events (esp_http_client_perform mixed_service
                     (conversion_request touch_config url))).
Proof.
  right. cbn [mixed_service esp_http_client_perform].
  destruct (asks_for _ _).
  - exists [HTTP_EVENT_ON_CONNECTED; HTTP_EVENT_HEADER_SENT],
      "Content-Length"%string, "14"%string,
      [HTTP_EVENT_ON_DATA tiny_image; HTTP_EVENT_ON_FINISH].
    split; [reflexivity|]. split; [exact quiet_events|].
    split; [reflexivity|]. split; [reflexivity|]. vm_compute. discriminate.
  - exists [HTTP_EVENT_ON_CONNECTED; HTTP_EVENT_HEADER_SENT],
      "Content-Length"%string, "110"%string,
      [HTTP_EVENT_ON_DATA small_image; HTTP_EVENT_ON_FINISH].
    split; [reflexivity|]. split; [exact quiet_events|].
    split; [reflexivity|]. split; [reflexivity|]. vm_compute. discriminate.
Qed.

Lemma two_image_globals_ok : tables_ok two_image_globals.
Proof.
  split; [reflexivity|]. split; [reflexivity|].
  cbn. unfold MAX_IMAGES. lia.
Qed.

Lemma refresh_cycle_keeps_descriptors_in_bounds_witness :
  (heap_unlimited zeroed_heap
   /\ (forall url,
         orderly (events (esp_http_client_perform mixed_service
                            (conversion_request touch_config url))))
   /\ tables_ok two_image_globals
   /\ Forall slot_sound (Main.s_images two_image_globals)
   /\ Forall slot_safe (Main.s_images two_image_globals))
  /\ exists n l',
       UpdateTask.download_and_process zeroed_heap mixed_service
         touch_config 1756000000 two_image_globals
       = Ret (n, Main.set_s_images two_image_globals l')
       /\ length l' = 10%nat
       /\ Forall slot_sound l'
       /\ Forall slot_safe l'.
Proof.
  assert (Forall slot_sound (Main.s_images two_image_globals)) as H4
    by (apply Forall_replicate; exact empty_slot_sound).
  assert (Forall slot_safe (Main.s_images two_image_globals)) as H5
    by (apply Forall_replicate; exact empty_slot_safe).
  split.
  - exact (conj zeroed_heap_unlimited (conj mixed_service_orderly
             (conj two_image_globals_ok (conj H4 H5)))).
  - exact (refresh_cycle_keeps_descriptors_in_bounds zeroed_heap
             mixed_service touch_config 1756000000 two_image_globals
             zeroed_heap_unlimited mixed_service_orderly
             two_image_globals_ok H4 H5).
Defined.

(** X3: when the answer to the feed request announces a positive
    [Content-Length] and its body is shorter than that length plus the 1024
    bytes of slack, [http_download_xml_feed] returns with the whole body at
    the start of the block it allocated, a NUL after it, and succeeds
    exactly when the transfer succeeded with status 200 and a body of at
    least one byte; when it fails the result is zeroed. *)
Theorem http_download_xml_feed_returns_the_body
    (heap : allocator) (net : http_stack) (url key value : string)
    (result : http_download_t) (pre rest : list esp_http_client_event_t)
    (blk0 : block) :
  let x := esp_http_client_perform net (feed_request url) in
  esp_http_client_init net (feed_request url) = true ->
  events x = pre ++ HTTP_EVENT_ON_HEADER key value :: rest ->
  Forall (fun evt => allocating evt = false) pre ->
  Libc.strcasecmp key "Content-Length" = 0 ->
  0 < Libc.atoi value ->
  malloc heap (Libc.atoi value + 1024) = Some blk0 ->
  body_length rest < Libc.atoi value + 1024 ->
  exists d,
    http_download_xml_feed heap net (Some url) result
    = Ret (feed_result x (body_length rest), d)
    /\ if feed_result x (body_length rest) =? ESP_OK
       then collecting (Libc.atoi value + 1024) (body_bytes rest) d
       else d = zero_download.
Proof.
  exact (http_download_xml_feed_spec heap net url key value result pre rest
           blk0).
Qed.

Lemma http_download_xml_feed_returns_the_body_witness :
  let url := "https://www.nhc.noaa.gov/index-at.xml"%string in
  let x := esp_http_client_perform short_feed_service (feed_request url) in
  let pre := [HTTP_EVENT_ON_CONNECTED;
              HTTP_EVENT_ON_HEADER "Content-Type" "text/xml"] in
  let rest := [HTTP_EVENT_ON_DATA [x3c; x61];
               HTTP_EVENT_ON_DATA [x2f; x3e; x0a]; HTTP_EVENT_ON_FINISH] in
  (esp_http_client_init short_feed_service (feed_request url) = true
   /\ events x = pre ++ HTTP_EVENT_ON_HEADER "content-length" "5" :: rest
   /\ Forall (fun evt => allocating evt = false) pre
   /\ Libc.strcasecmp "content-length" "Content-Length" = 0
   /\ 0 < Libc.atoi "5"
   /\ malloc zeroed_heap (Libc.atoi "5" + 1024)
      = Some (replicate 1029 x00)
   /\ body_length rest < Libc.atoi "5" + 1024)
  /\ exists d,
       http_download_xml_feed zeroed_heap short_feed_service (Some url)
         zero_download
       = Ret (feed_result x (body_length rest), d)
       /\ if feed_result x (body_length rest) =? ESP_OK
          then collecting (Libc.atoi "5" + 1024) (body_bytes rest) d
          else d = zero_download.
Proof.
  intros url x pre rest.
  assert (Forall (fun evt => allocating evt = false) pre) as H3
    by (repeat constructor).
  assert (0 < Libc.atoi "5") as H5 by reflexivity.
  assert (body_length rest < Libc.atoi "5" + 1024) as H7 by reflexivity.
  split.
  - exact (conj eq_refl (conj eq_refl (conj H3 (conj eq_refl (conj H5
             (conj eq_refl H7)))))).
  - exact (http_download_xml_feed_returns_the_body zeroed_heap
             short_feed_service url "content-length" "5" zero_download pre
             rest (replicate 1029 x00) eq_refl eq_refl H3 eq_refl H5 eq_refl
             H7).
Defined.

(** X10: an answer that has no [Content-Length] header, or one whose value
    converts to 0, is never stored: the feed download fails with a zeroed
    result and the image download fails with the slot reset, whatever body
    was sent. *)
Theorem downloads_fail_without_content_length
    (heap : allocator) (net : http_stack) (cfg : build_config) (i : Z)
    (g : Main.globals) (s : Main.image_data_t) (url feed : string)
    (result : http_download_t) :
  0 <= i < MAX_IMAGES ->
  Main.slot_at i g = Ret s ->
  Main.image_urls g !! Z.to_nat i = Some (Some url) ->
  heap_unlimited heap ->
  Forall (fun evt => allocating evt = false)
    (events (esp_http_client_perform net (feed_request feed))) ->
  Forall (fun evt => allocating evt = false)
    (events (esp_http_client_perform net (conversion_request cfg url))) ->
  http_download_xml_feed heap net (Some feed) result
  = Ret (ESP_FAIL, zero_download)
  /\ exists r,
       http_download_image heap net cfg i g
       = Ret (r, Main.put_slot i (reset_slot s) g)
       /\ r <> ESP_OK.
Proof.
  intros Hi Hs Hurl Hheap Hfeed Himage. split.
  - now apply http_download_xml_feed_idle.
  - eexists. split.
    + exact (http_download_image_idle heap net cfg i g s url Hi Hs Hurl
               Hheap Himage).
    + unfold image_result.
      destruct (perform_result _ =? ESP_OK) eqn:E.
      * rewrite andb_false_r. discriminate.
      * intros H. rewrite H in E. discriminate.
Qed.

Lemma chunked_events_allocate_nothing :
  Forall (fun evt => allocating evt = false) (events chunked_exchange).
Proof. repeat constructor. Qed.

Lemma downloads_fail_without_content_length_witness :
  (0 <= 0 < MAX_IMAGES
   /\ Main.slot_at 0 two_image_globals = Ret empty_slot
   /\ Main.image_urls two_image_globals !! Z.to_nat 0
      = Some (Some STATIC_IMAGE_URL_0)
   /\ heap_unlimited zeroed_heap
   /\ Forall (fun evt => allocating evt = false)
        (events (esp_http_client_perform chunked_service
                   (feed_request "https://www.nhc.noaa.gov/index-at.xml")))
   /\ Forall (fun evt => allocating evt = false)
        (events (esp_http_client_perform chunked_service
                   (conversion_request touch_config STATIC_IMAGE_URL_0))))
  /\ http_download_xml_feed zeroed_heap chunked_service
       (Some "https://www.nhc.noaa.gov/index-at.xml"%string) zero_download
     = Ret (ESP_FAIL, zero_download)
     /\ exists r,
          http_download_image zeroed_heap chunked_service touch_config 0
            two_image_globals
          = Ret (r, Main.put_slot 0 (reset_slot empty_slot)
                      two_image_globals)
          /\ r <> ESP_OK.
Proof.
  assert (0 <= 0 < MAX_IMAGES) as H1 by (unfold MAX_IMAGES; lia).
  split.
  - exact (conj H1 (conj eq_refl (conj eq_refl (conj zeroed_heap_unlimited
             (conj chunked_events_allocate_nothing
                chunked_events_allocate_nothing))))).
  - exact (downloads_fail_without_content_length zeroed_heap chunked_service
             touch_config 0 two_image_globals empty_slot STATIC_IMAGE_URL_0
             "https://www.nhc.noaa.gov/index-at.xml" zero_download
             H1 eq_refl eq_refl zeroed_heap_unlimited
             chunked_events_allocate_nothing
             chunked_events_allocate_nothing).
Defined.

Lemma header_byte_take (blk body : list byte) (off : nat) :
  take (length body) blk = body -> (off < length body)%nat ->
  header_byte blk off = header_byte body off.
Proof.
  intros Htake Hoff. unfold header_byte, block.
  rewrite <- (lookup_take_lt blk (length body) off) by lia.
  now rewrite Htake.
Qed.

(** X4: [http_download_image] refuses a body of fewer than 100 bytes but
    leaves the bytes in the slot, and [process_downloaded_image] then
    accepts the slot when the bytes are a container it can read: an image
    whose download failed is marked valid. *)
Theorem decoder_accepts_a_refused_download
    (heap : allocator) (net : http_stack) (cfg : build_config) (now i : Z)
    (g : Main.globals) (s : Main.image_data_t) (url key value : string)
    (pre rest : list esp_http_client_event_t) :
  let x := esp_http_client_perform net (conversion_request cfg url) in
  let body := body_bytes rest in
  0 <= i < MAX_IMAGES ->
  Main.slot_at i g = Ret s ->
  Main.image_urls g !! Z.to_nat i = Some (Some url) ->
  heap_unlimited heap ->
  events x = pre ++ HTTP_EVENT_ON_HEADER key value :: rest ->
  Forall (fun evt => allocating evt = false) pre ->
  Libc.strcasecmp key "Content-Length" = 0 ->
  0 < Libc.atoi value ->
  12 <= body_length rest < 100 ->
  0 < container_width body <= 4096 ->
  0 < container_height body <= 4096 ->
  container_payload body + 12 <= body_length rest ->
  exists r g1 g2 s2,
    http_download_image heap net cfg i g = Ret (r, g1)
    /\ r <> ESP_OK
    /\ Main.process_downloaded_image now i g1 = Ret (ESP_OK, g2)
    /\ Main.slot_at i g2 = Ret s2
    /\ Main.is_valid s2 = true
    /\ Main.buffer_size s2 = body_length rest.
Proof.
  intros x body Hi Hs Hurl Hheap Hevts Hpre Hkey Hpos Hsize Hw Hh Hpay.
  destruct (http_download_image_spec heap net cfg i g s url key value
              pre rest Hi Hs Hurl Hheap Hevts Hpre Hkey Hpos)
    as (s1 & blk & Hrun & Hbuf & Hlen & Htake & Hsz & Hal & Hv & Hdsc);
    [lia|].
  fold x body in Hrun, Htake, Hv.
  pose proof (slot_at_put_slot i g s s1 Hs) as Hs1.
  assert (Z.of_nat (length body) = body_length rest) as Hbody
    by apply body_bytes_length.
  assert (slot_sound s1) as Hsound.
  { intros blk' Hblk'. rewrite Hbuf in Hblk'. injection Hblk' as <-. lia. }
  assert (decodable s1 = true) as Hdec.
  { unfold decodable. rewrite Hbuf, Hsz.
    unfold container_payload, container_format, container_width,
      container_height in *.
    rewrite !(header_byte_take blk body) by (assumption || lia). lia. }
  destruct (process_downloaded_image_spec now i _ s1 Hi Hs1 Hsound)
    as (s2 & Hproc & _ & Hsz2 & _ & Hok & _).
  rewrite Hdec in Hproc. destruct (Hok Hdec) as (Hv2 & _).
  eexists _, _, _, s2. split; [exact Hrun|]. split.
  - unfold image_result.
    assert ((100 <=? body_length rest) = false) as -> by lia.
    rewrite andb_false_r.
    destruct (perform_result x =? ESP_OK) eqn:E; [discriminate|].
    intros H. rewrite H in E. discriminate.
  - split; [exact Hproc|]. rewrite put_slot_put_slot.
    split; [now apply (slot_at_put_slot i g s)|].
    split; [assumption | congruence].
Qed.

Lemma decoder_accepts_a_refused_download_witness :
  let x := esp_http_client_perform mixed_service
             (conversion_request touch_config STATIC_IMAGE_URL_0) in
  let rest := [HTTP_EVENT_ON_DATA tiny_image; HTTP_EVENT_ON_FINISH] in
  let body := body_bytes rest in
  (0 <= 0 < MAX_IMAGES
   /\ Main.slot_at 0 two_image_globals = Ret empty_slot
   /\ Main.image_urls two_image_globals !! Z.to_nat 0
      = Some (Some STATIC_IMAGE_URL_0)
   /\ heap_unlimited zeroed_heap
   /\ events x
      = [HTTP_EVENT_ON_CONNECTED; HTTP_EVENT_HEADER_SENT]
        ++ HTTP_EVENT_ON_HEADER "Content-Length" "14" :: rest
   /\ Forall (fun evt => allocating evt = false)
        [HTTP_EVENT_ON_CONNECTED; HTTP_EVENT_HEADER_SENT]
   /\ Libc.strcasecmp "Content-Length" "Content-Length" = 0
   /\ 0 < Libc.atoi "14"
   /\ 12 <= body_length rest < 100
   /\ 0 < container_width body <= 4096
   /\ 0 < container_height body <= 4096
   /\ container_payload body + 12 <= body_length rest)
  /\ exists r g1 g2 s2,
       http_download_image zeroed_heap mixed_service touch_config 0
         two_image_globals
       = Ret (r, g1)
       /\ r <> ESP_OK
       /\ Main.process_downloaded_image 1756000000 0 g1 = Ret (ESP_OK, g2)
       /\ Main.slot_at 0 g2 = Ret s2
       /\ Main.is_valid s2 = true
       /\ Main.buffer_size s2 = body_length rest.
Proof.
  intros x rest body.
  assert (0 <= 0 < MAX_IMAGES) as H1 by (unfold MAX_IMAGES; lia).
  assert (0 < Libc.atoi "14") as H8 by reflexivity.
  assert (12 <= body_length rest < 100) as H9
    by (vm_compute; split; [discriminate | reflexivity]).
  assert (0 < container_width body <= 4096) as H10
    by (vm_compute; split; [reflexivity | discriminate]).
  assert (0 < container_height body <= 4096) as H11
    by (vm_compute; split; [reflexivity | discriminate]).
  assert (container_payload body + 12 <= body_length rest) as H12
    by (vm_compute; discriminate).
  split.
  - exact (conj H1 (conj eq_refl (conj eq_refl (conj zeroed_heap_unlimited
             (conj eq_refl (conj quiet_events (conj eq_refl (conj H8
                (conj H9 (conj H10 (conj H11 H12))))))))))).
  - exact (decoder_accepts_a_refused_download zeroed_heap mixed_service
             touch_config 1756000000 0 two_image_globals empty_slot
             STATIC_IMAGE_URL_0 "Content-Length" "14"
             [HTTP_EVENT_ON_CONNECTED; HTTP_EVENT_HEADER_SENT] rest
             H1 eq_refl eq_refl zeroed_heap_unlimited eq_refl quiet_events
             eq_refl H8 H9 H10 H11 H12).
Defined.

End PipelineProofs.

(** ** The table of image URLs *)

Section TableProofs.

Import HttpClient.
Import ImageUrls.






















End TableProofs.

(** ** The display task *)

Lemma slot_valid_set_cursor (g : Main.globals) (c i : Z) :
  slot_valid (Main.set_s_current_image_index g c) i = slot_valid g i.
Proof. reflexivity. Qed.

Lemma set_cursor_twice (g : Main.globals) (a b : Z) :
  Main.set_s_current_image_index (Main.set_s_current_image_index g a) b
  = Main.set_s_current_image_index g b.
Proof. reflexivity. Qed.

Lemma next_valid_loop_skips (n : Z) (d : nat) :
  1 <= n <= MAX_IMAGES ->
  forall (remaining : nat) (inspected : list Z) (g : Main.globals),
    length (Main.s_images g) = 10%nat ->
    0 <= Main.s_current_image_index g < n ->
    (forall e, 0 <= e < Z.of_nat d ->
       slot_valid g ((Main.s_current_image_index g + e) mod n) = false) ->
    exists inspected',
      Main.next_valid_loop (d + remaining) n inspected g
      = Main.next_valid_loop remaining n inspected'
          (Main.set_s_current_image_index g
             ((Main.s_current_image_index g + Z.of_nat d) mod n)).
Proof.
  intros Hn. induction d as [|d IH]; intros remaining inspected g Hlen Hc Hinv.
  - exists inspected. cbn [Nat.add Z.of_nat].
    rewrite Z.add_0_r, Z.mod_small by lia. now rewrite set_cursor_same.
  - set (c := Main.s_current_image_index g) in *.
    destruct (slot_at_in_range c g) as [s Hs];
      [unfold MAX_IMAGES in *; lia | assumption |].
    cbn [Nat.add Main.next_valid_loop]. fold c. rewrite Hs. cbn [obind].
    assert (Main.is_valid s = false) as ->.
    { specialize (Hinv 0 ltac:(lia)).
      rewrite Z.add_0_r, Z.mod_small in Hinv by lia.
      unfold slot_valid in Hinv. now rewrite Hs in Hinv. }
    assert (Z.rem (c + 1) n = (c + 1) mod n) as Hrem
      by (apply Z.rem_mod_nonneg; lia).
    rewrite Hrem.
    destruct (IH remaining (c :: inspected)
                (Main.set_s_current_image_index g ((c + 1) mod n)))
      as (inspected' & Hrun).
    + exact Hlen.
    + cbn [Main.s_current_image_index Main.set_s_current_image_index].
      apply Z.mod_pos_bound. lia.
    + intros e He. rewrite slot_valid_set_cursor.
      cbn [Main.s_current_image_index Main.set_s_current_image_index].
      rewrite Zplus_mod_idemp_l.
      replace (c + 1 + e) with (c + (e + 1)) by lia. apply Hinv. lia.
    + exists inspected'. rewrite Hrun. rewrite set_cursor_twice.
      cbn [Main.s_current_image_index Main.set_s_current_image_index].
      rewrite Zplus_mod_idemp_l. do 2 f_equal. f_equal. lia.
Qed.

Lemma carousel_ok_range (g : Main.globals) :
  carousel_ok g -> 1 <= Main.images_to_check g <= MAX_IMAGES.
Proof. intros (_ & Hcount & _). now apply images_to_check_range. Qed.

Lemma offset_slot_range (g : Main.globals) (e : Z) :
  carousel_ok g -> 0 <= offset_slot g e < Main.images_to_check g.
Proof.
  intros Hg. apply carousel_ok_range in Hg.
  apply Z.mod_pos_bound. lia.
Qed.

Lemma get_next_valid_image_first (g : Main.globals) (d : nat) :
  carousel_ok g ->
  Z.of_nat d < Main.images_to_check g ->
  slot_valid g (offset_slot g (Z.of_nat d)) = true ->
  (forall e, 0 <= e < Z.of_nat d -> slot_valid g (offset_slot g e) = false) ->
  exists inspected,
    Main.get_next_valid_image g
    = Ret (Main.SlotImage (offset_slot g (Z.of_nat d)), inspected,
           Main.set_s_current_image_index g (offset_slot g (Z.of_nat d))).
Proof.
  intros Hg Hd Hvalid Hinv.
  pose proof (carousel_ok_range g Hg) as Hn.
  pose proof (offset_slot_range g (Z.of_nat d) Hg) as Hk.
  destruct Hg as (Hlen & _ & Hc).
  unfold Main.get_next_valid_image.
  replace (Z.to_nat (Main.images_to_check g))
    with (d + S (Z.to_nat (Main.images_to_check g) - S d))%nat by lia.
  destruct (next_valid_loop_skips (Main.images_to_check g) d Hn
              (S (Z.to_nat (Main.images_to_check g) - S d)) [] g Hlen Hc
              Hinv) as (inspected & ->).
  fold (offset_slot g (Z.of_nat d)).
  set (k := offset_slot g (Z.of_nat d)) in *.
  cbn [Main.next_valid_loop Main.s_current_image_index
         Main.set_s_current_image_index].
  change (Main.slot_at k (Main.set_s_current_image_index g k))
    with (Main.slot_at k g).
  unfold slot_valid in Hvalid.
  destruct (Main.slot_at k g) as [s|]; [|discriminate].
  cbn [obind]. rewrite Hvalid. now eexists.
Qed.

Lemma get_next_valid_image_none (g : Main.globals) :
  carousel_ok g ->
  (forall e, 0 <= e < Main.images_to_check g ->
     slot_valid g (offset_slot g e) = false) ->
  exists inspected,
    Main.get_next_valid_image g = Ret (Main.ErrorImage, inspected, g).
Proof.
  intros Hg Hinv.
  pose proof (carousel_ok_range g Hg) as Hn.
  destruct Hg as (Hlen & _ & Hc).
  unfold Main.get_next_valid_image.
  destruct (next_valid_loop_skips (Main.images_to_check g)
              (Z.to_nat (Main.images_to_check g)) Hn 0 [] g Hlen Hc)
    as (inspected & Hrun).
  { intros e He. apply Hinv. lia. }
  rewrite Nat.add_0_r in Hrun. rewrite Hrun.
  rewrite Z2Nat.id by lia.
  replace ((Main.s_current_image_index g + Main.images_to_check g)
           mod Main.images_to_check g)
    with (Main.s_current_image_index g).
  - rewrite set_cursor_same. now eexists.
  - replace (Main.s_current_image_index g + Main.images_to_check g)
      with (Main.s_current_image_index g + 1 * Main.images_to_check g)
      by lia.
    rewrite Z.mod_add, Z.mod_small by lia. reflexivity.
Qed.

Lemma first_valid_offset (g : Main.globals) (m : nat) :
  (forall e, 0 <= e < Z.of_nat m -> slot_valid g (offset_slot g e) = false)
  \/ exists d : nat,
       (d < m)%nat
       /\ slot_valid g (offset_slot g (Z.of_nat d)) = true
       /\ forall e, 0 <= e < Z.of_nat d ->
            slot_valid g (offset_slot g e) = false.
Proof.
  induction m as [|m [IH|IH]].
  - left. intros e He. lia.
  - destruct (slot_valid g (offset_slot g (Z.of_nat m))) eqn:E.
    + right. exists m. split; [lia|]. now split.
    + left. intros e He.
      destruct (decide (e = Z.of_nat m)) as [->|Hne]; [exact E|].
      apply IH. lia.
  - right. destruct IH as (d & Hd & Hrest). exists d. split; [lia | exact Hrest].
Qed.

Lemma offset_slot_covers (g : Main.globals) (i : Z) :
  carousel_ok g -> 0 <= i < Main.images_to_check g ->
  exists e, 0 <= e < Main.images_to_check g /\ offset_slot g e = i.
Proof.
  intros Hg Hi. pose proof (carousel_ok_range g Hg) as Hn.
  exists ((i - Main.s_current_image_index g) mod Main.images_to_check g).
  split; [apply Z.mod_pos_bound; lia|].
  unfold offset_slot. rewrite Zplus_mod_idemp_r.
  replace (Main.s_current_image_index g + (i - Main.s_current_image_index g))
    with i by lia.
  apply Z.mod_small. lia.
Qed.

Lemma display_step_first (g : Main.globals) (d : nat) :
  carousel_ok g ->
  Z.of_nat d < Main.images_to_check g ->
  slot_valid g (offset_slot g (Z.of_nat d)) = true ->
  (forall e, 0 <= e < Z.of_nat d -> slot_valid g (offset_slot g e) = false) ->
  Display.display_step g
  = Ret (Main.SlotImage (offset_slot g (Z.of_nat d)),
         Main.set_s_current_image_index g (offset_slot g (Z.of_nat d + 1))).
Proof.
  intros Hg Hd Hvalid Hinv.
  pose proof (carousel_ok_range g Hg) as Hn.
  destruct (get_next_valid_image_first g d Hg Hd Hvalid Hinv)
    as (inspected & Hrun).
  unfold Display.display_step. rewrite Hrun. cbn [obind].
  cbn [Main.active_image_count Main.set_s_current_image_index
         Main.s_current_image_index].
  fold (Main.images_to_check g). rewrite set_cursor_twice.
  rewrite Z.rem_mod_nonneg
    by (pose proof (offset_slot_range g (Z.of_nat d) Hg); lia).
  unfold offset_slot. rewrite Zplus_mod_idemp_l.
  now rewrite Z.add_assoc.
Qed.

Lemma display_step_none (g : Main.globals) :
  carousel_ok g ->
  (forall e, 0 <= e < Main.images_to_check g ->
     slot_valid g (offset_slot g e) = false) ->
  Display.display_step g
  = Ret (Main.ErrorImage,
         Main.set_s_current_image_index g (offset_slot g 1)).
Proof.
  intros Hg Hinv.
  pose proof (carousel_ok_range g Hg) as Hn.
  destruct (get_next_valid_image_none g Hg Hinv) as (inspected & Hrun).
  unfold Display.display_step. rewrite Hrun. cbn [obind].
  fold (Main.images_to_check g).
  destruct Hg as (_ & _ & Hc).
  now rewrite Z.rem_mod_nonneg by lia.
Qed.

Lemma carousel_ok_set_cursor (g : Main.globals) (e : Z) :
  carousel_ok g ->
  carousel_ok (Main.set_s_current_image_index g (offset_slot g e)).
Proof.
  intros Hg. pose proof (offset_slot_range g e Hg) as Hk.
  destruct Hg as (Hlen & Hcount & _). now repeat split.
Qed.

Lemma display_step_spec (g : Main.globals) :
  carousel_ok g ->
  exists image e,
    Display.display_step g
    = Ret (image, Main.set_s_current_image_index g (offset_slot g e))
    /\ shown_ok g image.
Proof.
  intros Hg. pose proof (carousel_ok_range g Hg) as Hn.
  destruct (first_valid_offset g (Z.to_nat (Main.images_to_check g)))
    as [Hinv|(d & Hd & Hvalid & Hinv)].
  - rewrite Z2Nat.id in Hinv by lia.
    exists Main.ErrorImage, 1. split; [now apply display_step_none|].
    intros i Hi. destruct (offset_slot_covers g i Hg Hi) as (e & He & <-).
    now apply Hinv.
  - exists (Main.SlotImage (offset_slot g (Z.of_nat d))), (Z.of_nat d + 1).
    split; [apply display_step_first; try assumption; lia|].
    split; [now apply offset_slot_range | exact Hvalid].
Qed.

Lemma shown_ok_set_cursor (g : Main.globals) (c : Z)
    (image : Main.image_ref) :
  shown_ok (Main.set_s_current_image_index g c) image <-> shown_ok g image.
Proof. reflexivity. Qed.

Lemma display_run_spec (notifications : nat) :
  forall g : Main.globals,
    carousel_ok g ->
    exists shown e,
      Display.display_run notifications g
      = Ret (shown, Main.set_s_current_image_index g (offset_slot g e))
      /\ length shown = notifications
      /\ Forall (shown_ok g) shown.
Proof.
  induction notifications as [|k IH]; intros g Hg.
  - exists [], 0. pose proof (carousel_ok_range g Hg) as Hn.
    destruct Hg as (_ & _ & Hc). unfold offset_slot.
    rewrite Z.add_0_r, Z.mod_small, set_cursor_same by lia.
    repeat split. constructor.
  - destruct (display_step_spec g Hg) as (image & e & Hstep & Himage).
    destruct (IH _ (carousel_ok_set_cursor g e Hg))
      as (shown & e' & Hrun & Hlen & Hshown).
    cbn [Display.display_run]. rewrite Hstep. cbn [obind fst snd].
    rewrite Hrun. cbn [obind fst snd]. rewrite set_cursor_twice.
    exists (image :: shown).
    exists (offset_slot g e + e' - Main.s_current_image_index g).
    split; [|split].
    + do 3 f_equal. unfold offset_slot at 1 3.
      cbn [Main.s_current_image_index Main.set_s_current_image_index].
      change (Main.images_to_check (Main.set_s_current_image_index g _))
        with (Main.images_to_check g).
      f_equal. lia.
    + cbn [length]. now rewrite Hlen.
    + constructor; [exact Himage|].
      eapply Forall_impl; [exact Hshown|].
      intros img. now rewrite shown_ok_set_cursor.
Qed.

Lemma offset_slot_shift (g : Main.globals) (a b : Z) :
  offset_slot (Main.set_s_current_image_index g (offset_slot g a)) b
  = offset_slot g (a + b).
Proof.
  unfold offset_slot at 1.
  cbn [Main.s_current_image_index Main.set_s_current_image_index].
  change (Main.images_to_check (Main.set_s_current_image_index g _))
    with (Main.images_to_check g).
  unfold offset_slot. rewrite Zplus_mod_idemp_l. now rewrite Z.add_assoc.
Qed.

Lemma display_run_reaches (m : nat) :
  forall (g : Main.globals) (dt : Z),
    carousel_ok g ->
    0 <= dt < Z.of_nat m -> dt < Main.images_to_check g ->
    slot_valid g (offset_slot g dt) = true ->
    forall k : nat, (m <= k)%nat ->
      exists shown g',
        Display.display_run k g = Ret (shown, g')
        /\ In (Main.SlotImage (offset_slot g dt)) shown.
Proof.
  induction m as [|m IH]; intros g dt Hg Hdt Hn Hvalid k Hk; [lia|].
  destruct k as [|k]; [lia|].
  destruct (first_valid_offset g (S (Z.to_nat dt)))
    as [Hinv|(d & Hd & Hfirst & Hinv)].
  { rewrite (Hinv dt) in Hvalid by lia. discriminate. }
  rewrite Nat.lt_succ_r in Hd.
  pose proof (display_step_first g d Hg ltac:(lia) Hfirst Hinv) as Hstep.
  set (g1 := Main.set_s_current_image_index g
               (offset_slot g (Z.of_nat d + 1))) in *.
  assert (carousel_ok g1) as Hg1 by now apply carousel_ok_set_cursor.
  cbn [Display.display_run]. rewrite Hstep. cbn [obind fst snd].
  destruct (decide (Z.of_nat d = dt)) as [Heq|Hne].
  - destruct (display_run_spec k g1 Hg1) as (shown & e & -> & _).
    cbn [obind fst snd]. eexists _, _. split; [reflexivity|].
    left. now rewrite Heq.
  - assert (dt - Z.of_nat d - 1 < Main.images_to_check g1) as Hn1
      by (change (Main.images_to_check g1) with (Main.images_to_check g);
          lia).
    destruct (IH g1 (dt - Z.of_nat d - 1) Hg1 ltac:(lia) Hn1)
      with (k := k) as (shown & g' & -> & Hin); [|lia|].
    + subst g1. rewrite slot_valid_set_cursor, offset_slot_shift.
      now replace (Z.of_nat d + 1 + (dt - Z.of_nat d - 1)) with dt by lia.
    + cbn [obind fst snd]. eexists _, _. split; [reflexivity|].
      right. subst g1. rewrite offset_slot_shift in Hin.
      now replace (Z.of_nat d + 1 + (dt - Z.of_nat d - 1)) with dt in Hin
        by lia.
Qed.

Lemma display_run_round_robin (k : nat) :
  forall g : Main.globals,
    carousel_ok g ->
    (forall i, 0 <= i < Main.images_to_check g -> slot_valid g i = true) ->
    Display.display_run k g
    = Ret (map (fun j => Main.SlotImage (offset_slot g (Z.of_nat j)))
             (seq 0 k),
           Main.set_s_current_image_index g (offset_slot g (Z.of_nat k))).
Proof.
  induction k as [|k IH]; intros g Hg Hall.
  - pose proof (carousel_ok_range g Hg) as Hn.
    destruct Hg as (_ & _ & Hc). cbn [Display.display_run seq map Z.of_nat].
    unfold offset_slot.
    now rewrite Z.add_0_r, Z.mod_small, set_cursor_same by lia.
  - pose proof (carousel_ok_range g Hg) as Hn.
    assert (Z.of_nat 0 < Main.images_to_check g) as H0
      by (change (Z.of_nat 0) with 0; lia).
    assert (forall e, 0 <= e < Z.of_nat 0 ->
              slot_valid g (offset_slot g e) = false) as Hnone
      by (intros e He; change (Z.of_nat 0) with 0 in He; lia).
    pose proof (display_step_first g 0 Hg H0
                  (Hall _ (offset_slot_range g _ Hg)) Hnone) as Hstep.
    cbn [Display.display_run]. rewrite Hstep. cbn [obind fst snd].
    rewrite IH; [|now apply carousel_ok_set_cursor | exact Hall].
    cbn [obind fst snd seq map]. rewrite set_cursor_twice.
    rewrite offset_slot_shift. f_equal. f_equal; [f_equal|].
    + rewrite <- seq_shift, map_map. apply map_ext. intros j.
      rewrite offset_slot_shift. do 2 f_equal. lia.
    + do 2 f_equal. lia.
Qed.

(** X17: with the cursor inside the range that is cycled through,
    [get_next_valid_image] skips the invalid slots from the cursor onwards,
    wrapping at the end of the range, returns the first valid slot it meets
    and leaves the cursor on it. *)
Theorem get_next_valid_image_returns_the_first_valid
    (g : Main.globals) (d : nat) :
  carousel_ok g ->
  Z.of_nat d < Main.images_to_check g ->
  slot_valid g (offset_slot g (Z.of_nat d)) = true ->
  (forall e, 0 <= e < Z.of_nat d -> slot_valid g (offset_slot g e) = false) ->
  exists inspected,
    Main.get_next_valid_image g
    = Ret (Main.SlotImage (offset_slot g (Z.of_nat d)), inspected,
           Main.set_s_current_image_index g (offset_slot g (Z.of_nat d))).
Proof. exact (get_next_valid_image_first g d). Qed.

Lemma carousel_1_2_3_ok : carousel_ok (carousel 1 2 3).
Proof.
  split; [reflexivity|]. split; [cbn; unfold MAX_IMAGES; lia | cbn; lia].
Qed.

Lemma get_next_valid_image_returns_the_first_valid_witness :
  (carousel_ok (carousel 1 2 3)
   /\ Z.of_nat 2 < Main.images_to_check (carousel 1 2 3)
   /\ slot_valid (carousel 1 2 3)
        (offset_slot (carousel 1 2 3) (Z.of_nat 2)) = true
   /\ (forall e, 0 <= e < Z.of_nat 2 ->
         slot_valid (carousel 1 2 3) (offset_slot (carousel 1 2 3) e)
         = false))
  /\ exists inspected,
       Main.get_next_valid_image (carousel 1 2 3)
       = Ret (Main.SlotImage (offset_slot (carousel 1 2 3) (Z.of_nat 2)),
              inspected,
              Main.set_s_current_image_index (carousel 1 2 3)
                (offset_slot (carousel 1 2 3) (Z.of_nat 2))).
Proof.
  assert (Z.of_nat 2 < Main.images_to_check (carousel 1 2 3)) as H2
    by reflexivity.
  assert (forall e, 0 <= e < Z.of_nat 2 ->
            slot_valid (carousel 1 2 3) (offset_slot (carousel 1 2 3) e)
            = false) as H4.
  { intros e He. assert (e = 0 \/ e = 1) as [-> | ->] by lia; reflexivity. }
  split; [exact (conj carousel_1_2_3_ok (conj H2 (conj eq_refl H4)))|].
  exact (get_next_valid_image_returns_the_first_valid (carousel 1 2 3) 2
           carousel_1_2_3_ok H2 eq_refl H4).
Defined.

(** X18: [display_image_task] never reads outside the table: from globals
    with the cursor in range, any number of notifications is served, each
    with the image of a valid slot of the range, or with the error image
    when the range has no valid slot; the slots and the count are left as
    they were and the cursor stays in range. *)
Theorem display_task_shows_only_valid_images
    (notifications : nat) (g : Main.globals) :
  carousel_ok g ->
  exists shown g',
    Display.display_run notifications g = Ret (shown, g')
    /\ length shown = notifications
    /\ Forall (shown_ok g) shown
    /\ Main.s_images g' = Main.s_images g
    /\ Main.active_image_count g' = Main.active_image_count g
    /\ carousel_ok g'.
Proof.
  intros Hg.
  destruct (display_run_spec notifications g Hg)
    as (shown & e & Hrun & Hlen & Hshown).
  exists shown, (Main.set_s_current_image_index g (offset_slot g e)).
  repeat split; try assumption; try apply (carousel_ok_set_cursor g e Hg).
Qed.

Lemma display_task_shows_only_valid_images_witness :
  carousel_ok (carousel 1 2 3)
  /\ exists shown g',
       Display.display_run 4 (carousel 1 2 3) = Ret (shown, g')
       /\ length shown = 4%nat
       /\ Forall (shown_ok (carousel 1 2 3)) shown
       /\ Main.s_images g' = Main.s_images (carousel 1 2 3)
       /\ Main.active_image_count g'
          = Main.active_image_count (carousel 1 2 3)
       /\ carousel_ok g'.
Proof.
  split; [exact carousel_1_2_3_ok|].
  exact (display_task_shows_only_valid_images 4 (carousel 1 2 3)
           carousel_1_2_3_ok).
Defined.

(** X19: the carousel is fair: every valid slot of the range is shown within
    as many notifications as the range has slots. *)
Theorem every_valid_image_is_shown (g : Main.globals) (t : Z) :
  carousel_ok g ->
  0 <= t < Main.images_to_check g ->
  slot_valid g t = true ->
  exists shown g',
    Display.display_run (Z.to_nat (Main.images_to_check g)) g
    = Ret (shown, g')
    /\ In (Main.SlotImage t) shown.
Proof.
  intros Hg Ht Hvalid.
  destruct (offset_slot_covers g t Hg Ht) as (dt & Hdt & <-).
  apply (display_run_reaches (Z.to_nat (Main.images_to_check g)) g dt);
    try assumption; lia.
Qed.

Lemma every_valid_image_is_shown_witness :
  (carousel_ok (carousel 1 2 3)
   /\ 0 <= 1 < Main.images_to_check (carousel 1 2 3)
   /\ slot_valid (carousel 1 2 3) 1 = true)
  /\ exists shown g',
       Display.display_run
         (Z.to_nat (Main.images_to_check (carousel 1 2 3)))
         (carousel 1 2 3)
       = Ret (shown, g')
       /\ In (Main.SlotImage 1) shown.
Proof.
  assert (0 <= 1 < Main.images_to_check (carousel 1 2 3)) as H2
    by (cbn; lia).
  split; [exact (conj carousel_1_2_3_ok (conj H2 eq_refl))|].
  exact (every_valid_image_is_shown (carousel 1 2 3) 1 carousel_1_2_3_ok H2
           eq_refl).
Defined.

(** X20: when every slot of the range is valid, successive notifications
    show the slots in turn from the cursor, wrapping at the end of the
    range. *)
Theorem display_task_cycles_in_order (notifications : nat)
    (g : Main.globals) :
  carousel_ok g ->
  (forall i, 0 <= i < Main.images_to_check g -> slot_valid g i = true) ->
  Display.display_run notifications g
  = Ret (map (fun j => Main.SlotImage (offset_slot g (Z.of_nat j)))
           (seq 0 notifications),
         Main.set_s_current_image_index g
           (offset_slot g (Z.of_nat notifications))).
Proof. exact (display_run_round_robin notifications g). Qed.

Lemma carousel_0_0_1_ok : carousel_ok (carousel 0 0 1).
Proof.
  split; [reflexivity|]. split; [cbn; unfold MAX_IMAGES; lia | cbn; lia].
Qed.

Lemma display_task_cycles_in_order_witness :
  (carousel_ok (carousel 0 0 1)
   /\ (forall i, 0 <= i < Main.images_to_check (carousel 0 0 1) ->
         slot_valid (carousel 0 0 1) i = true))
  /\ Display.display_run 3 (carousel 0 0 1)
     = Ret (map (fun j => Main.SlotImage
                            (offset_slot (carousel 0 0 1) (Z.of_nat j)))
              (seq 0 3),
            Main.set_s_current_image_index (carousel 0 0 1)
              (offset_slot (carousel 0 0 1) (Z.of_nat 3))).
Proof.
  assert (forall i, 0 <= i < Main.images_to_check (carousel 0 0 1) ->
            slot_valid (carousel 0 0 1) i = true) as H2.
  { intros i Hi. change (Main.images_to_check (carousel 0 0 1)) with 1 in Hi.
    assert (i = 0) as -> by lia. reflexivity. }
  split; [exact (conj carousel_0_0_1_ok H2)|].
  exact (display_task_cycles_in_order 3 (carousel 0 0 1) carousel_0_0_1_ok
           H2).
Defined.

(** ** The update schedule *)

Lemma matches_table_all :
  forallb (fun hh =>
             forallb (fun mm =>
                        Bool.eqb
                          (matches_table (Z.of_nat hh) (Z.of_nat mm))
                          ((Z.of_nat mm =? 10) && (Z.of_nat hh mod 3 =? 0)))
               (seq 0 60))
    (seq 0 24)
  = true.
Proof. vm_compute. reflexivity. Qed.

Lemma matches_table_spec (hh mm : Z) :
  0 <= hh < 24 -> 0 <= mm < 60 ->
  matches_table hh mm = ((mm =? 10) && (hh mod 3 =? 0)).
Proof.
  intros Hh Hm. pose proof matches_table_all as H.
  rewrite forallb_forall in H.
  assert (In (Z.to_nat hh) (seq 0 24)) as Hin by (apply in_seq; lia).
  specialize (H _ Hin). rewrite forallb_forall in H.
  assert (In (Z.to_nat mm) (seq 0 60)) as Hin' by (apply in_seq; lia).
  specialize (H _ Hin'). apply Bool.eqb_prop in H.
  now rewrite !Z2Nat.id in H by lia.
Qed.

Lemma tm_hour_range (now : Z) : 0 <= Schedule.tm_hour now < 24.
Proof.
  unfold Schedule.tm_hour.
  pose proof (Z.mod_pos_bound now 86400 eq_refl).
  split; [apply Z.div_pos; lia|]. apply Z.div_lt_upper_bound; lia.
Qed.

Lemma tm_min_range (now : Z) : 0 <= Schedule.tm_min now < 60.
Proof.
  unfold Schedule.tm_min.
  pose proof (Z.mod_pos_bound now 3600 eq_refl).
  split; [apply Z.div_pos; lia|]. apply Z.div_lt_upper_bound; lia.
Qed.

(** X21: [is_nhc_update_time] holds exactly during the minute that starts
    ten minutes after every third hour UTC (00:10, 03:10, ..., 21:10): for
    the times [now], in seconds, with [600 <= now mod 10800 < 660]. *)
Theorem is_nhc_update_time_window (now : Z) :
  Schedule.is_nhc_update_time now = true <-> 600 <= now mod 10800 < 660.
Proof.
  pose proof (tm_hour_range now) as Hh. pose proof (tm_min_range now) as Hm.
  change (Schedule.is_nhc_update_time now)
    with (matches_table (Schedule.tm_hour now) (Schedule.tm_min now)).
  rewrite matches_table_spec by assumption.
  rewrite andb_true_iff, !Z.eqb_eq.
  unfold Schedule.tm_hour, Schedule.tm_min in *.
  Z.div_mod_to_equations. lia.
Qed.

(** ** The backlight under activity *)

Lemma set_backlight_state_consistent (cfg : build_config)
    (taken state : bool) (b : Main.backlight_state) :
  backlight_consistent cfg b ->
  (has_activity_input cfg = false -> state = true) ->
  backlight_consistent cfg (Main.set_backlight_state cfg taken state b).
Proof.
  intros [Hlevel Hon] Hstate. unfold Main.set_backlight_state.
  destruct taken; [|now split].
  split; [reflexivity | exact Hstate].
Qed.

Lemma wake_consistent (cfg : build_config) (take_get take_set : bool)
    (b : Main.backlight_state) :
  backlight_consistent cfg b ->
  backlight_consistent cfg
    (if negb (Main.get_backlight_state take_get b)
     then Main.set_backlight_state cfg take_set true b else b).
Proof.
  intros Hb. destruct (negb (Main.get_backlight_state take_get b));
    [|exact Hb].
  now apply set_backlight_state_consistent.
Qed.

Lemma backlight_step_consistent (cfg : build_config) (timer_created : bool)
    (b : Main.backlight_state) (e : Activity.occurrence) :
  backlight_consistent cfg b ->
  backlight_consistent cfg (Activity.backlight_step cfg timer_created b e).
Proof.
  intros Hb. unfold Activity.backlight_step.
  assert (forall x, backlight_consistent cfg x ->
                    backlight_consistent cfg (Main.xTimerReset x)) as Hreset
    by (intros x Hx; exact Hx).
  destruct (Activity.what e).
  - destruct (ENABLE_TOUCHSCREEN cfg); [|exact Hb].
    unfold Activity.touch_event_cb.
    destruct timer_created; [apply Hreset|]; now apply wake_consistent.
  - destruct (ENABLE_PIR_BACKLIGHT_TIMER cfg); [|exact Hb].
    unfold Activity.pir_motion_detected.
    destruct timer_created; [apply Hreset|]; now apply wake_consistent.
  - destruct (Main.backlight_timer_active b); [|exact Hb].
    unfold Main.backlight_timer_expiry, Main.backlight_timer_callback.
    assert (backlight_consistent cfg (Main.timer_expired b)) as Hexp
      by exact Hb.
    destruct (Main.get_backlight_state (Activity.take_get e)
                (Main.timer_expired b));
      [|exact Hexp].
    fold (has_activity_input cfg).
    destruct (has_activity_input cfg) eqn:Hin.
    + apply set_backlight_state_consistent; [exact Hexp|].
      intros H. congruence.
    + now apply Hreset.
Qed.

Lemma boot_backlight_consistent (cfg : build_config) (timer_created : bool) :
  backlight_consistent cfg (Activity.boot_backlight cfg true timer_created).
Proof. destruct timer_created; split; reflexivity. Qed.

Lemma backlight_on_step (cfg : build_config) (timer_created : bool)
    (b : Main.backlight_state) (e : Activity.occurrence) :
  has_activity_input cfg = false ->
  Main.backlight_on b = true ->
  Main.backlight_on (Activity.backlight_step cfg timer_created b e) = true.
Proof.
  unfold has_activity_input. intros Hin Hon.
  apply orb_false_iff in Hin as [Htouch Hpir].
  unfold Activity.backlight_step. rewrite Htouch, Hpir.
  destruct (Activity.what e); try exact Hon.
  destruct (Main.backlight_timer_active b); [|exact Hon].
  unfold Main.backlight_timer_expiry, Main.backlight_timer_callback.
  rewrite Htouch, Hpir. cbn [orb].
  now destruct (Main.get_backlight_state _ _).
Qed.

(** X22: from boot on, under any sequence of touches, motions and timer
    expiries, whatever the outcome of each take of the mutex they make: if
    the take of [app_main] succeeded, the level of the backlight pin
    agrees with [backlight_on]; and a build with neither touchscreen nor
    motion sensor never has [backlight_on] false, whether or not that take
    succeeded. *)
Theorem backlight_stays_consistent (cfg : build_config)
    (boot_taken timer_created : bool) (trace : list Activity.occurrence) :
  let b := fold_left (Activity.backlight_step cfg timer_created) trace
             (Activity.boot_backlight cfg boot_taken timer_created) in
  (boot_taken = true ->
   Main.bk_light_level b
   = if Main.backlight_on b then BSP_LCD_BK_LIGHT_ON_LEVEL cfg
     else Main.lnot (BSP_LCD_BK_LIGHT_ON_LEVEL cfg))
  /\ (has_activity_input cfg = false -> Main.backlight_on b = true).
Proof.
  intros b. subst b. split.
  - intros ->.
    generalize (boot_backlight_consistent cfg timer_created).
    generalize (Activity.boot_backlight cfg true timer_created) as b.
    induction trace as [|e trace IH]; intros b Hb; [exact (proj1 Hb)|].
    cbn [fold_left]. apply IH. now apply backlight_step_consistent.
  - intros Hin.
    assert (Main.backlight_on
              (Activity.boot_backlight cfg boot_taken timer_created) = true)
      as H0 by (now destruct boot_taken, timer_created).
    revert H0.
    generalize (Activity.boot_backlight cfg boot_taken timer_created) as b.
    induction trace as [|e trace IH]; intros b Hb; [exact Hb|].
    cbn [fold_left]. apply IH. now apply backlight_on_step.
Qed.

Lemma backlight_stays_consistent_witness :
  let trace := [{| Activity.what := Activity.Expiry;
                   Activity.take_get := true; Activity.take_set := false |};
                {| Activity.what := Activity.Touch;
                   Activity.take_get := false; Activity.take_set := true |};
                {| Activity.what := Activity.Expiry;
                   Activity.take_get := true; Activity.take_set := true |}] in
  let b := fold_left (Activity.backlight_step touch_config true) trace
             (Activity.boot_backlight touch_config true true) in
  Main.backlight_on b = false
  /\ Main.bk_light_level b = 0.
Proof.
  intros trace b. split; [reflexivity|].
  exact (proj1 (backlight_stays_consistent touch_config true true trace)
           eq_refl).
Defined.

(** X23: [touch_event_cb] and the motion branch of [pir_monitoring_task]
    never turn the backlight off.  They leave it on when it was read as
    on; otherwise, it being off or the first take having timed out, they
    turn it on, driving the pin, exactly when the second take succeeds.
    The timer is restarted when it exists, whatever the takes gave. *)
Theorem activity_lights_the_panel (cfg : build_config)
    (timer_created take_get take_set : bool) (b : Main.backlight_state) :
  forall b',
    b' = Activity.touch_event_cb cfg timer_created take_get take_set b
    \/ b' = Activity.pir_motion_detected cfg timer_created take_get take_set b
    ->
    Main.backlight_timer_active b'
    = (timer_created || Main.backlight_timer_active b)
    /\ if take_get && Main.backlight_on b
       then Main.backlight_on b' = true
            /\ Main.bk_light_level b' = Main.bk_light_level b
       else if take_set
            then Main.backlight_on b' = true
                 /\ Main.bk_light_level b' = BSP_LCD_BK_LIGHT_ON_LEVEL cfg
            else Main.backlight_on b' = Main.backlight_on b
                 /\ Main.bk_light_level b' = Main.bk_light_level b.
Proof.
  intros b' Hb'.
  assert (b' = Activity.touch_event_cb cfg timer_created take_get take_set b)
    as -> by (destruct Hb' as [-> | ->]; reflexivity).
  unfold Activity.touch_event_cb, Main.get_backlight_state,
    Main.set_backlight_state.
  destruct b as [on level active].
  destruct take_get, take_set, on, timer_created; cbn; repeat split.
Qed.

Lemma activity_lights_the_panel_witness :
  let dark := {| Main.backlight_on := false; Main.bk_light_level := 0;
                 Main.backlight_timer_active := false |} in
  let b' := Activity.touch_event_cb touch_config true false true dark in
  Main.backlight_timer_active b' = true
  /\ Main.backlight_on b' = true
  /\ Main.bk_light_level b' = 1.
Proof.
  intros dark b'.
  exact (activity_lights_the_panel touch_config true false true dark b'
           (or_introl eq_refl)).
Defined.

(** ** Time synchronisation *)

Section TimeProofs.

Import HttpClient.
Import TimeSync.

Lemma worldtime_handler_preserves_ok (heap : allocator)
    (evt : esp_http_client_event_t) (r : http_response_t) :
  heap_bounded heap -> event_fits_int evt -> response_ok r ->
  exists e r',
    worldtime_http_event_handler heap evt r = Ret (e, r')
    /\ response_ok r'.
Proof.
  intros Hheap Hevt Hok.
  destruct evt as [ | | | key value | data | | | ];
    try (eexists _, _; split; [reflexivity | exact Hok]).
  - unfold worldtime_http_event_handler.
    destruct (Libc.strcasecmp key "Content-Length" =? 0);
      [|eexists _, _; split; [reflexivity | exact Hok]].
    destruct ((0 <? to_size_t (Libc.atoi value)) && is_null (buffer r))
      eqn:Hcond; [|eexists _, _; split; [reflexivity | exact Hok]].
    apply andb_true_iff in Hcond as [_ Hnull].
    unfold response_ok in Hok.
    destruct (buffer r); [discriminate|]. destruct Hok as [Hsize _].
    set (n := to_size_t (to_size_t (Libc.atoi value) + 1)).
    pose proof (to_size_t_range (to_size_t (Libc.atoi value) + 1)) as Hn.
    fold n in Hn.
    destruct (malloc heap n) as [blk|] eqn:Hblk.
    + eexists _, _. split; [reflexivity|]. unfold response_ok. cbn.
      split; [now apply (malloc_length heap)|].
      split; [lia|]. split; [lia|]. now apply (Hheap n blk).
    + eexists _, _. split; [reflexivity|]. unfold response_ok. cbn.
      split; [assumption | lia].
  - unfold response_ok in Hok. cbn in Hevt.
    unfold worldtime_http_event_handler.
    destruct (buffer r) as [blk|] eqn:Hbuf.
    2: { eexists _, _. split; [reflexivity|].
         unfold response_ok. now rewrite Hbuf. }
    destruct Hok as (Hlen & Hsize & Hroom & Hmax).
    assert (0 <= data_len data) as Hdl by (unfold data_len; lia).
    change INT_MAX with 2147483647 in Hevt.
    change (2 ^ 31) with 2147483648 in Hmax.
    rewrite to_size_t_small
      by (change SIZE_MAX_PLUS_1 with 4294967296; lia).
    destruct ((0 <? data_len data)
              && (buffer_size r + data_len data <? buffer_allocated r))
      eqn:Hcond.
    2: { eexists _, _. split; [reflexivity|].
         unfold response_ok. rewrite Hbuf.
         change (2 ^ 31) with 2147483648. auto. }
    apply andb_true_iff in Hcond as [Hpos Hfit].
    unfold data_len in *.
    destruct (memcpy_in_bounds blk (buffer_size r) data)
      as (blk1 & -> & Hl1 & _); [lia | lia |].
    cbn [obind].
    destruct (store8_in_bounds blk1
                (buffer_size r + Z.of_nat (length data)) NUL)
      as (blk2 & -> & Hl2 & _); [lia|].
    cbn [obind]. eexists _, _. split; [reflexivity|].
    unfold response_ok. cbn. split; [congruence|].
    split; [lia|]. split; [lia|]. change (2 ^ 31) with 2147483648. lia.
Qed.

Lemma worldtime_dispatch_ok (heap : allocator)
    (evts : list esp_http_client_event_t) :
  heap_bounded heap -> Forall event_fits_int evts ->
  forall r, response_ok r ->
  exists r',
    dispatch (worldtime_http_event_handler heap) evts r = Ret r'
    /\ response_ok r'.
Proof.
  intros Hheap Hevts. induction Hevts as [|evt evts Hevt _ IH]; intros r Hok.
  - now exists r.
  - destruct (worldtime_handler_preserves_ok heap evt r Hheap Hevt Hok)
      as (e & r1 & Hstep & Hok1).
    destruct (IH r1 Hok1) as (r2 & Hrun & Hok2).
    exists r2. cbn [dispatch]. rewrite Hstep. cbn [obind snd].
    now split.
Qed.

Lemma zero_response_ok : response_ok zero_response.
Proof. unfold response_ok. cbn. lia. Qed.

(** X24: whatever events arrive, the handler of the time request stores
    nothing outside the block it allocated and, once it has a block, keeps
    [buffer_size] strictly below [buffer_allocated], so that the NUL it
    writes after the data is inside the block. *)
Theorem worldtime_handler_never_overflows (heap : allocator)
    (evts : list esp_http_client_event_t) :
  heap_bounded heap -> Forall event_fits_int evts ->
  exists r,
    dispatch (worldtime_http_event_handler heap) evts zero_response = Ret r
    /\ 0 <= buffer_size r <= buffer_allocated r
    /\ (forall blk,
          buffer r = Some blk ->
          length blk = Z.to_nat (buffer_allocated r)
          /\ (0 < buffer_allocated r ->
              buffer_size r < buffer_allocated r)).
Proof.
  intros Hheap Hevts.
  destruct (worldtime_dispatch_ok heap evts Hheap Hevts zero_response
              zero_response_ok) as (r & Hrun & Hok).
  exists r. split; [exact Hrun|]. unfold response_ok in Hok.
  destruct (buffer r) as [blk|].
  - destruct Hok as (Hlen & Hsize & Hroom & _). split; [exact Hsize|].
    intros blk' [= <-]. now split.
  - destruct Hok as [-> Hal]. split; [lia | discriminate].
Qed.

Lemma worldtime_dispatch_idle (heap : allocator)
    (evts : list esp_http_client_event_t) :
  Forall (fun evt => allocating evt = false) evts ->
  dispatch (worldtime_http_event_handler heap) evts zero_response
  = Ret zero_response.
Proof.
  induction 1 as [|evt evts Hevt _ IH]; [reflexivity|].
  cbn [dispatch].
  assert (exists e,
            worldtime_http_event_handler heap evt zero_response
            = Ret (e, zero_response)) as [e ->].
  { destruct evt as [ | | | key value | data | | | ];
      try (now exists ESP_OK).
    cbn in Hevt. unfold worldtime_http_event_handler.
    destruct (Libc.strcasecmp key "Content-Length" =? 0);
      [|now exists ESP_OK].
    cbn in Hevt. rewrite Hevt. now exists ESP_OK. }
  cbn [obind snd]. exact IH.
Qed.

Lemma worldtime_handler_allocates (heap : allocator) (key value : string)
    (blk : block) :
  Libc.strcasecmp key "Content-Length" = 0 ->
  0 < Libc.atoi value ->
  malloc heap (Libc.atoi value + 1) = Some blk ->
  worldtime_http_event_handler heap (HTTP_EVENT_ON_HEADER key value)
    zero_response
  = Ret (ESP_OK, {| buffer := Some blk; buffer_size := 0;
                    buffer_allocated := Libc.atoi value + 1 |}).
Proof.
  intros Hkey Hpos Hm. unfold worldtime_http_event_handler. rewrite Hkey.
  change (0 =? 0) with true. cbn match.
  pose proof (atoi_range value) as Hr. change INT_MAX with 2147483647 in Hr.
  rewrite (to_size_t_small (Libc.atoi value))
    by (change SIZE_MAX_PLUS_1 with 4294967296; lia).
  rewrite to_size_t_small by (change SIZE_MAX_PLUS_1 with 4294967296; lia).
  assert ((0 <? Libc.atoi value) = true) as -> by lia.
  cbn [zero_response buffer is_null andb]. now rewrite Hm.
Qed.

Lemma worldtime_handler_stores (heap : allocator)
    (evt : esp_http_client_event_t) (r : http_response_t) (cap : Z)
    (stored : list byte) :
  storing cap stored r ->
  cap <= 2 ^ 31 ->
  event_bytes evt <= INT_MAX ->
  exists e r' stored',
    worldtime_http_event_handler heap evt r = Ret (e, r')
    /\ storing cap stored' r'
    /\ (Z.of_nat (length stored) + event_bytes evt < cap ->
        stored' = stored ++ body_bytes [evt]).
Proof.
  intros Hst Hcap Hevt.
  pose proof Hst as (blk & Hbuf & Hlen & Hal & Hsize & Hroom & Htake & Hnul).
  change (2 ^ 31) with 2147483648 in Hcap.
  change INT_MAX with 2147483647 in Hevt.
  assert (storing cap stored r
          /\ (Z.of_nat (length stored) + 0 < cap -> stored = stored ++ []))
    as Hsame by (rewrite app_nil_r; auto).
  destruct evt as [ | | | key value | data | | | ];
    try (exists ESP_OK, r, stored; exact (conj eq_refl Hsame)).
  - unfold worldtime_http_event_handler.
    destruct (Libc.strcasecmp key "Content-Length" =? 0);
      [|exists ESP_OK, r, stored; exact (conj eq_refl Hsame)].
    rewrite Hbuf. cbn [is_null]. rewrite andb_false_r.
    exists ESP_OK, r, stored. exact (conj eq_refl Hsame).
  - cbn [event_bytes] in *. unfold worldtime_http_event_handler.
    rewrite Hbuf. unfold data_len in *.
    rewrite to_size_t_small
      by (change SIZE_MAX_PLUS_1 with 4294967296; lia).
    destruct (0 <? Z.of_nat (length data)) eqn:Hpos.
    2: { assert (data = []) as ->
           by (apply Z.ltb_ge in Hpos; destruct data;
               [reflexivity | cbn [length] in Hpos; lia]).
         exists ESP_OK, r, stored. exact (conj eq_refl Hsame). }
    cbn [andb].
    destruct (buffer_size r + Z.of_nat (length data) <? buffer_allocated r)
      eqn:Hfit.
    2: { exists ESP_OK, r, stored. split; [reflexivity|].
         split; [exact Hst|]. lia. }
    destruct (memcpy_in_bounds blk (buffer_size r) data)
      as (blk1 & -> & Hl1 & Ht1); [lia | lia |].
    cbn [obind].
    destruct (store8_in_bounds blk1
                (buffer_size r + Z.of_nat (length data)) NUL)
      as (blk2 & -> & Hl2 & Ht2 & Hnul2); [lia|].
    cbn [obind]. exists ESP_OK. eexists. exists (stored ++ data).
    split; [reflexivity|]. split.
    + exists blk2. cbn [buffer buffer_size buffer_allocated].
      rewrite length_app.
      replace (Z.to_nat (buffer_size r + Z.of_nat (length data)))
        with (length stored + length data)%nat in * by lia.
      split; [reflexivity|]. split; [congruence|]. split; [assumption|].
      split; [lia|]. split; [lia|]. split.
      * rewrite Hsize, Nat2Z.id in Ht1. rewrite Ht2, Ht1, Htake.
        reflexivity.
      * intros _. exact Hnul2.
    + intros _. cbn. now rewrite app_nil_r.
Qed.

Lemma worldtime_dispatch_stores (heap : allocator) (cap : Z)
    (evts : list esp_http_client_event_t) :
  cap <= 2 ^ 31 ->
  Forall event_fits_int evts ->
  forall (r : http_response_t) (stored : list byte),
    storing cap stored r ->
    exists r' stored',
      dispatch (worldtime_http_event_handler heap) evts r = Ret r'
      /\ storing cap stored' r'
      /\ (Z.of_nat (length stored) + body_length evts < cap ->
          stored' = stored ++ body_bytes evts).
Proof.
  intros Hcap Hevts.
  induction Hevts as [|evt evts Hevt _ IH]; intros r stored Hst.
  - exists r, stored. cbn [dispatch body_bytes flat_map].
    rewrite app_nil_r. auto.
  - assert (event_bytes evt <= INT_MAX) as Hfits.
    { destruct evt; cbn in *; try (unfold INT_MAX; lia). exact Hevt. }
    destruct (worldtime_handler_stores heap evt r cap stored Hst Hcap Hfits)
      as (e & r1 & stored1 & Hstep & Hst1 & Heq1).
    destruct (IH r1 stored1 Hst1) as (r2 & stored2 & Hrun & Hst2 & Heq2).
    exists r2, stored2. cbn [dispatch]. rewrite Hstep. cbn [obind snd].
    split; [exact Hrun|]. split; [exact Hst2|].
    rewrite body_length_cons. intros Hfit.
    pose proof (body_length_nonneg evts) as Hnn.
    pose proof (event_bytes_nonneg evt) as Hnn'.
    rewrite Heq1 in * by lia.
    rewrite Heq2.
    + now rewrite (body_bytes_cons evt evts), app_assoc.
    + rewrite length_app.
      assert (Z.of_nat (length (body_bytes [evt])) = event_bytes evt) as H.
      { rewrite body_bytes_length. cbn. lia. }
      lia.
Qed.

(** X25: after a [Content-Length] of n the handler of the time request has
    a block of n + 1 bytes and stores at most n bytes in it; a body of at
    most n bytes is stored whole, in order, with a NUL after it. *)
Theorem worldtime_handler_honours_content_length
    (heap : allocator) (key value : string)
    (pre rest : list esp_http_client_event_t) (blk0 : block) :
  Forall (fun evt => allocating evt = false) pre ->
  Libc.strcasecmp key "Content-Length" = 0 ->
  0 < Libc.atoi value ->
  malloc heap (Libc.atoi value + 1) = Some blk0 ->
  Forall event_fits_int rest ->
  exists r stored,
    dispatch (worldtime_http_event_handler heap)
      (pre ++ HTTP_EVENT_ON_HEADER key value :: rest) zero_response
    = Ret r
    /\ storing (Libc.atoi value + 1) stored r
    /\ buffer_size r <= Libc.atoi value
    /\ (body_length rest <= Libc.atoi value -> stored = body_bytes rest).
Proof.
  intros Hpre Hkey Hpos Hm Hrest.
  rewrite dispatch_app, (worldtime_dispatch_idle heap pre Hpre).
  cbn [obind dispatch].
  rewrite (worldtime_handler_allocates heap key value blk0) by assumption.
  cbn [obind snd].
  pose proof (atoi_range value) as Hr. change INT_MAX with 2147483647 in Hr.
  destruct (worldtime_dispatch_stores heap (Libc.atoi value + 1) rest)
    with (r := {| buffer := Some blk0; buffer_size := 0;
                  buffer_allocated := Libc.atoi value + 1 |})
         (stored := @nil byte)
    as (r & stored & Hrun & Hst & Heq).
  { change (2 ^ 31) with 2147483648. lia. }
  { assumption. }
  { exists blk0. cbn. repeat split; try reflexivity; try lia;
      try now apply (malloc_length heap). intros H. now destruct H. }
  exists r, stored. split; [exact Hrun|]. split; [exact Hst|].
  destruct Hst as (blk & _ & _ & _ & Hsize & Hroom & _).
  split; [lia|]. intros Hfit. apply Heq. cbn [length]. lia.
Qed.

Lemma worldtime_loop_step (heap : allocator) (env : time_env)
    (remaining : nat) (j : nat) (err : esp_err_t) :
  heap_bounded heap -> attempts_fit_int env ->
  (j < 10)%nat ->
  worldtime_loop heap env (S remaining) (Z.of_nat j) err
  = match attempt_time heap env j with
    | Some unix_time => Ret (ESP_OK, Some unix_time)
    | None =>
        worldtime_loop heap env remaining (Z.of_nat (S j))
          (attempt_err env j err)
    end.
Proof.
  intros Hheap Hfit Hj. cbn [worldtime_loop].
  assert ((Z.of_nat j <? retry_count) = true) as ->
    by (unfold retry_count; lia).
  unfold attempt_time, attempt_err. rewrite Nat2Z.id.
  replace (Z.of_nat j + 1) with (Z.of_nat (S j)) by lia.
  destruct (esp_http_client_init (stack_at env j) worldtime_request);
    [|reflexivity].
  cbn [negb].
  destruct (worldtime_dispatch_ok heap _ Hheap (Hfit j) zero_response
              zero_response_ok) as (r & -> & _).
  cbn [obind].
  destruct ((perform_result _ =? ESP_OK) && (status_code _ =? 200)
            && negb (is_null (buffer r)) && (0 <? buffer_size r));
    [|reflexivity].
  destruct (cJSON_unixtime env (response_text r)); try reflexivity.
  now destruct (settimeofday env unix_time).
Qed.



Lemma worldtime_loop_unset (heap : allocator) (env : time_env) :
  heap_bounded heap -> attempts_fit_int env ->
  (forall j, (j < 10)%nat -> attempt_time heap env j = None) ->
  forall (remaining : nat) (err : esp_err_t),
    (0 < remaining <= 10)%nat ->
    exists err',
      worldtime_loop heap env remaining (Z.of_nat (10 - remaining)) err
      = Ret (attempt_err env 9 err', None).
Proof.
  intros Hheap Hfit Hnone.
  induction remaining as [|remaining IH]; intros err Hr; [lia|].
  rewrite worldtime_loop_step by (assumption || lia).
  rewrite Hnone by lia.
  destruct remaining as [|remaining].
  - exists err. reflexivity.
  - replace (S (10 - S (S remaining))) with (10 - S remaining)%nat by lia.
    apply IH. lia.
Qed.

(** X27: when none of the ten attempts sets the clock,
    [initialize_worldtime_api] returns what [esp_http_client_perform]
    returned for the tenth, which is [ESP_OK] when the server answered
    with something that could not be used: the function can report
    success with the clock not set. *)
Theorem initialize_worldtime_api_reports_the_last_exchange
    (heap : allocator) (env : time_env) :
  heap_bounded heap -> attempts_fit_int env ->
  (forall j, (j < 10)%nat -> attempt_time heap env j = None) ->
  esp_http_client_init (stack_at env 9) worldtime_request = true ->
  initialize_worldtime_api heap env
  = Ret (perform_result
           (esp_http_client_perform (stack_at env 9) worldtime_request),
         None).
Proof.
  intros Hheap Hfit Hnone Hinit. unfold initialize_worldtime_api.
  change (Z.to_nat retry_count) with 10%nat.
  change 0 with (Z.of_nat (10 - 10)).
  destruct (worldtime_loop_unset heap env Hheap Hfit Hnone 10 ESP_FAIL)
    as [err' ->]; [lia|].
  unfold attempt_err. now rewrite Hinit.
Qed.

Lemma sntp_wait_spec (tm_year_at : nat -> Z) (remaining : nat) :
  forall (retry : nat) (tm_year : Z),
    (10 <= retry + remaining)%nat -> (retry < 10)%nat ->
    (retry_count <=? sntp_wait tm_year_at remaining (Z.of_nat retry) tm_year)
    = true
    <-> tm_year < 116
        /\ forall k, (retry < k <= 9)%nat -> tm_year_at k < 116.
Proof.
  unfold retry_count.
  induction remaining as [|remaining IH]; intros retry tm_year Hfuel Hretry;
    [lia|].
  cbn [sntp_wait]. change (2016 - 1900) with 116. unfold retry_count.
  destruct (tm_year <? 116) eqn:Hyear.
  2: { split; [lia|]. intros [H _]. lia. }
  replace (Z.of_nat retry + 1) with (Z.of_nat (S retry)) by lia.
  rewrite Nat2Z.id.
  destruct (Z.of_nat (S retry) <? 10) eqn:Hmore;
    [apply Z.ltb_lt in Hmore | apply Z.ltb_ge in Hmore].
  - rewrite IH by lia. split.
    + intros [Hnext Hrest]. split; [lia|]. intros k Hk.
      destruct (decide (k = S retry)) as [->|Hne]; [exact Hnext|].
      apply Hrest. lia.
    + intros [_ Hall]. split; [apply Hall; lia|].
      intros k Hk. apply Hall. lia.
  - split; [|intros _; apply Z.leb_le; lia].
    intros _. split; [lia|]. intros k Hk. lia.
Qed.

Lemma first_synchronised_poll (tm_year_at : nat -> Z) (n : nat) :
  (forall k, (1 <= k <= n)%nat -> tm_year_at k < 116)
  \/ exists k, (1 <= k <= n)%nat /\ 116 <= tm_year_at k.
Proof.
  induction n as [|n [IH|(k & Hk & Hyear)]].
  - left. intros k Hk. lia.
  - destruct (Z.lt_ge_cases (tm_year_at (S n)) 116) as [Hlt|Hge].
    + left. intros k Hk.
      destruct (decide (k = S n)) as [->|Hne]; [exact Hlt|].
      apply IH. lia.
    + right. exists (S n). split; [lia | exact Hge].
  - right. exists k. split; [lia | exact Hyear].
Qed.

(** X28: [initialize_sntp] returns [ESP_OK] exactly when one of the first
    nine polls of the clock finds the year 2016 or a later one; there is no
    tenth poll. *)
Theorem initialize_sntp_succeeds_within_nine_polls (tm_year_at : nat -> Z) :
  initialize_sntp tm_year_at = ESP_OK
  <-> exists k, (1 <= k <= 9)%nat /\ 2016 - 1900 <= tm_year_at k.
Proof.
  unfold initialize_sntp. change (Z.to_nat retry_count) with 10%nat.
  pose proof (sntp_wait_spec tm_year_at 10 0 0) as H.
  change (Z.of_nat 0) with 0 in H. change (2016 - 1900) with 116.
  destruct (retry_count <=? sntp_wait tm_year_at 10 0 0) eqn:E.
  - split; [discriminate|]. intros (k & Hk & Hyear).
    destruct H as [H _]; [lia | lia |]. destruct (H eq_refl) as [_ Hall].
    specialize (Hall k). lia.
  - split; [|reflexivity]. intros _.
    destruct (first_synchronised_poll tm_year_at 9) as [Hno|Hyes];
      [|exact Hyes].
    exfalso. assert (false = true); [|discriminate].
    apply H; [lia | lia |]. split; [lia|]. intros k Hk.
    apply Hno. lia.
Qed.

End TimeProofs.

Section TimeWitnesses.

Import HttpClient.
Import TimeSync.

Lemma short_feed_events_fit :
  Forall event_fits_int (events short_feed_exchange).
Proof. repeat constructor; vm_compute; discriminate. Qed.

Lemma clock_env_fits (found : unixtime_lookup) :
  attempts_fit_int (clock_env found).
Proof. intros k. exact short_feed_events_fit. Qed.

Lemma worldtime_handler_never_overflows_witness :
  (heap_bounded bounded_heap
   /\ Forall event_fits_int (events short_feed_exchange))
  /\ exists r,
       dispatch (worldtime_http_event_handler bounded_heap)
         (events short_feed_exchange) zero_response = Ret r
       /\ 0 <= buffer_size r <= buffer_allocated r
       /\ (forall blk,
             buffer r = Some blk ->
             length blk = Z.to_nat (buffer_allocated r)
             /\ (0 < buffer_allocated r ->
                 buffer_size r < buffer_allocated r)).
Proof.
  split; [exact (conj bounded_heap_is_bounded short_feed_events_fit)|].
  exact (worldtime_handler_never_overflows bounded_heap
           (events short_feed_exchange) bounded_heap_is_bounded
           short_feed_events_fit).
Defined.

Lemma worldtime_handler_honours_content_length_witness :
  let pre := [HTTP_EVENT_ON_CONNECTED;
              HTTP_EVENT_ON_HEADER "Content-Type" "text/xml"] in
  let rest := [HTTP_EVENT_ON_DATA [x3c; x61];
               HTTP_EVENT_ON_DATA [x2f; x3e; x0a]; HTTP_EVENT_ON_FINISH] in
  (Forall (fun evt => allocating evt = false) pre
   /\ Libc.strcasecmp "content-length" "Content-Length" = 0
   /\ 0 < Libc.atoi "5"
   /\ malloc zeroed_heap (Libc.atoi "5" + 1) = Some (replicate 6 x00)
   /\ Forall event_fits_int rest)
  /\ exists r stored,
       dispatch (worldtime_http_event_handler zeroed_heap)
         (pre ++ HTTP_EVENT_ON_HEADER "content-length" "5" :: rest)
         zero_response
       = Ret r
       /\ storing (Libc.atoi "5" + 1) stored r
       /\ buffer_size r <= Libc.atoi "5"
       /\ (body_length rest <= Libc.atoi "5" -> stored = body_bytes rest).
Proof.
  intros pre rest.
  assert (Forall (fun evt => allocating evt = false) pre) as H1
    by (repeat constructor).
  assert (0 < Libc.atoi "5") as H3 by reflexivity.
  assert (Forall event_fits_int rest) as H5
    by (repeat constructor; vm_compute; discriminate).
  split; [exact (conj H1 (conj eq_refl (conj H3 (conj eq_refl H5))))|].
  exact (worldtime_handler_honours_content_length zeroed_heap
           "content-length" "5" pre rest (replicate 6 x00) H1 eq_refl H3
           eq_refl H5).
Defined.


Lemma initialize_worldtime_api_reports_the_last_exchange_witness :
  let env := clock_env JsonParseError in
  (heap_bounded bounded_heap
   /\ attempts_fit_int env
   /\ (forall j, (j < 10)%nat -> attempt_time bounded_heap env j = None)
   /\ esp_http_client_init (stack_at env 9) worldtime_request = true)
  /\ initialize_worldtime_api bounded_heap env
     = Ret (perform_result
              (esp_http_client_perform (stack_at env 9) worldtime_request),
            None).
Proof.
  intros env.
  assert (forall j, (j < 10)%nat -> attempt_time bounded_heap env j = None)
    as H3 by (intros j _; vm_compute; reflexivity).
  split.
  - exact (conj bounded_heap_is_bounded
             (conj (clock_env_fits _) (conj H3 eq_refl))).
  - exact (initialize_worldtime_api_reports_the_last_exchange bounded_heap
             env bounded_heap_is_bounded (clock_env_fits _) H3 eq_refl).
Defined.

End TimeWitnesses.
